(** * AMBF Pleat Saw firmware: stepper axis controllers

    A shallow embedding of the two ESP32 firmware images of the pleat saw:

    - [Backstop]: [firmware/esp32b_backstop/src/main.cpp], the positioning
      axis (M3) with its timer-driven step generator, the interrupt-driven
      quadrature decoder and the closed-loop correction;
    - [Axis12]: [firmware/esp32a_axis12/src/main.cpp], the blade spindle (M1)
      and the fixture feed (M2), both driven by MCPWM pulse trains.

    Integers of the firmware are [Z] with the wrap-around of their C type
    written out.  [float] and [double] are IEEE-754 binary32 and binary64,
    computed with the executable operations of [SpecFloat] (round to nearest,
    ties to even), so every definition below can be evaluated. *)

From Stdlib Require Import ZArith List Bool Lia String Ascii.
From Stdlib Require Import SpecFloat.
Import ListNotations.

Local Open Scope Z_scope.

(** ** Machine integers *)

Module Int.

Definition INT32_MIN : Z := - 2 ^ 31.
Definition INT32_MAX : Z := 2 ^ 31 - 1.
Definition UINT32_MAX : Z := 2 ^ 32 - 1.

(** Two's complement wrap-around of a 32-bit signed integer. *)
Definition wrap32 (z : Z) : Z := (z + 2 ^ 31) mod 2 ^ 32 - 2 ^ 31.
(** Wrap-around of the unsigned types. *)
Definition wrapu32 (z : Z) : Z := z mod 2 ^ 32.
Definition wrapu16 (z : Z) : Z := z mod 2 ^ 16.
Definition wrapu8 (z : Z) : Z := z mod 2 ^ 8.

Definition in_i32 (z : Z) : Prop := INT32_MIN <= z <= INT32_MAX.

(** [abs] of <stdlib.h> on a 32-bit [int]. *)
Definition abs32 (z : Z) : Z := wrap32 (Z.abs z).

End Int.

(** ** IEEE-754 arithmetic *)

(** Integer part (toward zero) of the magnitude [m * 2^e]. *)
Definition trunc_mag (m : positive) (e : Z) : Z :=
  match e with
  | Z0 => Zpos m
  | Zpos p => Z.shiftl (Zpos m) e
  | Zneg p => Z.shiftr (Zpos m) (Zpos p)
  end.

(** A float to integer conversion, truncating toward zero.  C++ leaves the
    conversion undefined when the truncated value does not fit the target
    type; here it saturates at the bounds [lo] and [hi] of the type, and NaN
    converts to [hi].  The numbers proved below are for values in range. *)
Definition float_to_int (lo hi : Z) (x : spec_float) : Z :=
  match x with
  | S754_zero _ => 0
  | S754_nan => hi
  | S754_infinity s => if s then lo else hi
  | S754_finite s m e =>
      let z := cond_Zopp s (trunc_mag m e) in
      Z.max lo (Z.min hi z)
  end.

(** Equality of two floats as data (not the IEEE comparison, for which
    NaN differs from itself and the two zeros are equal). *)
Definition sf_eqb (x y : spec_float) : bool :=
  match x, y with
  | S754_zero s1, S754_zero s2 => Bool.eqb s1 s2
  | S754_infinity s1, S754_infinity s2 => Bool.eqb s1 s2
  | S754_nan, S754_nan => true
  | S754_finite s1 m1 e1, S754_finite s2 m2 e2 =>
      Bool.eqb s1 s2 && Pos.eqb m1 m2 && Z.eqb e1 e2
  | _, _ => false
  end.

Module F32.

Definition prec : Z := 24.
Definition emax : Z := 128.

Definition t := spec_float.

Definition add : t -> t -> t := SFadd prec emax.
Definition sub : t -> t -> t := SFsub prec emax.
Definition mul : t -> t -> t := SFmul prec emax.
Definition div : t -> t -> t := SFdiv prec emax.
Definition abs : t -> t := SFabs.
Definition ltb : t -> t -> bool := SFltb.
Definition leb : t -> t -> bool := SFleb.
Definition eqb : t -> t -> bool := SFeqb.
Definition valid : t -> bool := valid_binary prec emax.

(** Conversion of an integer, [(float)n]. *)
Definition of_Z (n : Z) : t := binary_normalize prec emax n 0 false.

(** A decimal literal [n / 10^k] with the suffix [f]: the correctly
    rounded quotient of two integers. *)
Definition lit (n : Z) (k : Z) : t :=
  match n with
  | Z0 => S754_zero false
  | Zpos p =>
      let '(q, e, l) := SFdiv_core_binary prec emax n 0 (10 ^ k) 0 in
      binary_round_aux prec emax false q e l
  | Zneg p =>
      let '(q, e, l) := SFdiv_core_binary prec emax (Zpos p) 0 (10 ^ k) 0 in
      binary_round_aux prec emax true q e l
  end.

Definition zero : t := S754_zero false.

(** [(int32_t)x]. *)
Definition to_i32 : t -> Z := float_to_int Int.INT32_MIN Int.INT32_MAX.

End F32.

Module F64.

Definition prec : Z := 53.
Definition emax : Z := 1024.

Definition t := spec_float.

Definition add : t -> t -> t := SFadd prec emax.
Definition sub : t -> t -> t := SFsub prec emax.
Definition mul : t -> t -> t := SFmul prec emax.
Definition div : t -> t -> t := SFdiv prec emax.
Definition ltb : t -> t -> bool := SFltb.
Definition leb : t -> t -> bool := SFleb.
Definition eqb : t -> t -> bool := SFeqb.
Definition valid : t -> bool := valid_binary prec emax.

Definition of_Z (n : Z) : t := binary_normalize prec emax n 0 false.

(** The exact widening of a [float] to a [double]. *)
Definition of_f32 (x : F32.t) : t :=
  match x with
  | S754_finite s m e => binary_round prec emax s m e
  | _ => x
  end.

Definition zero : t := S754_zero false.

(** [(uint32_t)x]. *)
Definition to_u32 : t -> Z := float_to_int 0 Int.UINT32_MAX.

End F64.

(** ** The positioning axis: [esp32b_backstop/src/main.cpp] *)

Module Backstop.

Import Int.

(** *** Hardware pins and constants *)

Definition M3_STEP_PIN : Z := 27.
Definition M3_DIR_PIN : Z := 14.
Definition RESET_DEBOUNCE_MS : Z := 50.

Definition HIGH : bool := true.
Definition LOW : bool := false.

Definition PITCH_MM : F32.t := F32.lit 10 0.
Definition TEETH : Z := 15.
Definition CIRC_MM : F32.t := F32.mul PITCH_MM (F32.of_Z TEETH).
Definition CALIBRATION_SCALE : F32.t := F32.lit 1005324 6.

Definition ENCODER_PPR : F32.t := F32.lit 400 0.
Definition COUNTS_PER_REV : F32.t :=
  F32.mul (F32.mul ENCODER_PPR (F32.lit 4 0)) CALIBRATION_SCALE.
Definition MM_PER_COUNT : F32.t := F32.div CIRC_MM COUNTS_PER_REV.
Definition IN_PER_COUNT : F32.t := F32.div MM_PER_COUNT (F32.lit 254 1).

Definition STEPS_PER_REV : F32.t := F32.lit 6400 0.
Definition STEPS_PER_MM : F32.t :=
  F32.div (F32.mul STEPS_PER_REV CALIBRATION_SCALE) CIRC_MM.
Definition STEPS_PER_IN : F32.t := F32.mul STEPS_PER_MM (F32.lit 254 1).

Definition DEFAULT_VELOCITY_IPS : F32.t := F32.lit 492 4.
Definition POSITION_TOLERANCE_IN : F32.t := F32.div (F32.lit 2 1) (F32.lit 254 1).
Definition MAX_POSITION_ERROR_IN : F32.t := F32.lit 200 3.
Definition CORRECTION_SETTLE_MS : Z := 50.
Definition CORRECTION_VELOCITY_SCALE : F32.t := F32.lit 10 2.
Definition MIN_CORRECTION_VEL_IPS : F32.t := F32.lit 5 3.
Definition VEL_ALPHA : F32.t := F32.lit 30 2.
Definition STATUS_UPDATE_MS : Z := 100.

(** *** State *)

Module Encoder.
Record t := mk {
  detected : bool;
  counts : Z;             (* volatile long, 32 bits on this target *)
  last_ab : Z;            (* volatile uint8_t *)
  last_counts : Z;        (* int32_t *)
  last_delta_counts : Z;  (* int32_t *)
  position_in : F32.t;
  velocity_ips : F32.t;
  velocity_ema_ips : F32.t;
  last_vel_ms : Z         (* uint32_t *)
}.

Definition set_detected v e :=
  mk v (counts e) (last_ab e) (last_counts e) (last_delta_counts e)
     (position_in e) (velocity_ips e) (velocity_ema_ips e) (last_vel_ms e).
Definition set_counts v e :=
  mk (detected e) v (last_ab e) (last_counts e) (last_delta_counts e)
     (position_in e) (velocity_ips e) (velocity_ema_ips e) (last_vel_ms e).
Definition set_last_ab v e :=
  mk (detected e) (counts e) v (last_counts e) (last_delta_counts e)
     (position_in e) (velocity_ips e) (velocity_ema_ips e) (last_vel_ms e).
Definition set_last_counts v e :=
  mk (detected e) (counts e) (last_ab e) v (last_delta_counts e)
     (position_in e) (velocity_ips e) (velocity_ema_ips e) (last_vel_ms e).
Definition set_last_delta_counts v e :=
  mk (detected e) (counts e) (last_ab e) (last_counts e) v
     (position_in e) (velocity_ips e) (velocity_ema_ips e) (last_vel_ms e).
Definition set_position_in v e :=
  mk (detected e) (counts e) (last_ab e) (last_counts e) (last_delta_counts e)
     v (velocity_ips e) (velocity_ema_ips e) (last_vel_ms e).
Definition set_velocity_ips v e :=
  mk (detected e) (counts e) (last_ab e) (last_counts e) (last_delta_counts e)
     (position_in e) v (velocity_ema_ips e) (last_vel_ms e).
Definition set_velocity_ema_ips v e :=
  mk (detected e) (counts e) (last_ab e) (last_counts e) (last_delta_counts e)
     (position_in e) (velocity_ips e) v (last_vel_ms e).
Definition set_last_vel_ms v e :=
  mk (detected e) (counts e) (last_ab e) (last_counts e) (last_delta_counts e)
     (position_in e) (velocity_ips e) (velocity_ema_ips e) v.
End Encoder.

Module Motor.
Record t := mk {
  target_steps : Z;          (* volatile int32_t *)
  current_steps : Z;         (* volatile int32_t *)
  velocity_ips : F32.t;
  base_velocity_ips : F32.t;
  in_motion : bool;
  direction : bool;          (* true = forward, false = reverse *)
  step_pin_state : bool;
  step_interval_us : Z;      (* uint32_t *)
  pulse_counter : Z;         (* volatile uint32_t *)
  motion_complete_flag : bool;
  target_position_in : F32.t;
  closed_loop_enabled : bool
}.

Definition set_target_steps v m :=
  mk v (current_steps m) (velocity_ips m) (base_velocity_ips m) (in_motion m)
     (direction m) (step_pin_state m) (step_interval_us m) (pulse_counter m)
     (motion_complete_flag m) (target_position_in m) (closed_loop_enabled m).
Definition set_current_steps v m :=
  mk (target_steps m) v (velocity_ips m) (base_velocity_ips m) (in_motion m)
     (direction m) (step_pin_state m) (step_interval_us m) (pulse_counter m)
     (motion_complete_flag m) (target_position_in m) (closed_loop_enabled m).
Definition set_velocity_ips v m :=
  mk (target_steps m) (current_steps m) v (base_velocity_ips m) (in_motion m)
     (direction m) (step_pin_state m) (step_interval_us m) (pulse_counter m)
     (motion_complete_flag m) (target_position_in m) (closed_loop_enabled m).
Definition set_base_velocity_ips v m :=
  mk (target_steps m) (current_steps m) (velocity_ips m) v (in_motion m)
     (direction m) (step_pin_state m) (step_interval_us m) (pulse_counter m)
     (motion_complete_flag m) (target_position_in m) (closed_loop_enabled m).
Definition set_in_motion v m :=
  mk (target_steps m) (current_steps m) (velocity_ips m) (base_velocity_ips m) v
     (direction m) (step_pin_state m) (step_interval_us m) (pulse_counter m)
     (motion_complete_flag m) (target_position_in m) (closed_loop_enabled m).
Definition set_direction v m :=
  mk (target_steps m) (current_steps m) (velocity_ips m) (base_velocity_ips m)
     (in_motion m) v (step_pin_state m) (step_interval_us m) (pulse_counter m)
     (motion_complete_flag m) (target_position_in m) (closed_loop_enabled m).
Definition set_step_pin_state v m :=
  mk (target_steps m) (current_steps m) (velocity_ips m) (base_velocity_ips m)
     (in_motion m) (direction m) v (step_interval_us m) (pulse_counter m)
     (motion_complete_flag m) (target_position_in m) (closed_loop_enabled m).
Definition set_step_interval_us v m :=
  mk (target_steps m) (current_steps m) (velocity_ips m) (base_velocity_ips m)
     (in_motion m) (direction m) (step_pin_state m) v (pulse_counter m)
     (motion_complete_flag m) (target_position_in m) (closed_loop_enabled m).
Definition set_pulse_counter v m :=
  mk (target_steps m) (current_steps m) (velocity_ips m) (base_velocity_ips m)
     (in_motion m) (direction m) (step_pin_state m) (step_interval_us m) v
     (motion_complete_flag m) (target_position_in m) (closed_loop_enabled m).
Definition set_motion_complete_flag v m :=
  mk (target_steps m) (current_steps m) (velocity_ips m) (base_velocity_ips m)
     (in_motion m) (direction m) (step_pin_state m) (step_interval_us m)
     (pulse_counter m) v (target_position_in m) (closed_loop_enabled m).
Definition set_target_position_in v m :=
  mk (target_steps m) (current_steps m) (velocity_ips m) (base_velocity_ips m)
     (in_motion m) (direction m) (step_pin_state m) (step_interval_us m)
     (pulse_counter m) (motion_complete_flag m) v (closed_loop_enabled m).
Definition set_closed_loop_enabled v m :=
  mk (target_steps m) (current_steps m) (velocity_ips m) (base_velocity_ips m)
     (in_motion m) (direction m) (step_pin_state m) (step_interval_us m)
     (pulse_counter m) (motion_complete_flag m) (target_position_in m) v.
End Motor.

Module ResetButton.
Record t := mk {
  last_level : bool;
  triggered : bool;
  last_edge_ms : Z   (* uint32_t *)
}.
End ResetButton.

(** One line written to the serial port, with the values that the
    [snprintf] format of the source prints. *)
Inductive response :=
| BANNER                                         (* the start-up banner, ending in READY *)
| CMD (line : string)                            (* "CMD <line>" *)
| AT_TARGET (pos : F32.t)                        (* "AT_TARGET %.3f" *)
| AT_TARGET_error (pos err : F32.t)              (* "AT_TARGET %.3f (error: %.4f in)" *)
| ERROR_position (err target actual : F32.t)     (* "ERROR Position error too large: ..." *)
| CORRECTING (err target : F32.t)                (* "CORRECTING error: %.4f in, moving to %.3f" *)
| MOVING_encoder (from to : F32.t)               (* "MOVING encoder: %.3f -> %.3f" *)
| MOVING (from to : F32.t)                       (* "MOVING %.3f -> %.3f" *)
| HOMED
| ENCODER_RESET
| STOPPED_encoder (motor_pos enc_pos : F32.t)    (* "STOPPED motor: %.3f, encoder: %.3f" *)
| STOPPED (pos : F32.t)                          (* "STOPPED %.3f" *)
| ERROR_velocity                                 (* "ERROR Velocity must be > 0" *)
| VELOCITY (v : F32.t)                           (* "VELOCITY %.2f" *)
| ID_ESP32B                                      (* "ID:ESP32B" *)
| ERROR_unknown                                  (* "ERROR Unknown command" *)
| POS (pos vel : F32.t) (enc_counts steps : Z)   (* "POS %.3f %.3f %ld %ld" *)
| STATUS_encoder (moving : bool) (motor_pos : F32.t) (steps : Z)
    (enc_pos : F32.t) (enc_counts : Z) (err vel target : F32.t)
| STATUS_open (moving : bool) (motor_pos : F32.t) (steps : Z) (vel target : F32.t).

(** What the cooperative context does that the outside can observe. *)
Inductive event :=
| Serial (r : response)
| Delay (ms : Z).

Record state := mkState {
  encoder : Encoder.t;
  motor : Motor.t;
  reset_button : ResetButton.t;
  last_status_ms : Z;      (* uint32_t *)
  step_pin : bool;         (* output level of GPIO27 *)
  dir_pin : bool;          (* output level of GPIO14 *)
  timer_alarm : Z;         (* the value given to timerAlarmWrite *)
  trace : list event       (* serial lines and delays, oldest first *)
}.

Definition upd_encoder (f : Encoder.t -> Encoder.t) (st : state) : state :=
  mkState (f (encoder st)) (motor st) (reset_button st) (last_status_ms st)
          (step_pin st) (dir_pin st) (timer_alarm st) (trace st).
Definition upd_motor (f : Motor.t -> Motor.t) (st : state) : state :=
  mkState (encoder st) (f (motor st)) (reset_button st) (last_status_ms st)
          (step_pin st) (dir_pin st) (timer_alarm st) (trace st).
Definition set_reset_button (b : ResetButton.t) (st : state) : state :=
  mkState (encoder st) (motor st) b (last_status_ms st)
          (step_pin st) (dir_pin st) (timer_alarm st) (trace st).
Definition set_last_status_ms (v : Z) (st : state) : state :=
  mkState (encoder st) (motor st) (reset_button st) v
          (step_pin st) (dir_pin st) (timer_alarm st) (trace st).
Definition set_step_pin (v : bool) (st : state) : state :=
  mkState (encoder st) (motor st) (reset_button st) (last_status_ms st)
          v (dir_pin st) (timer_alarm st) (trace st).
Definition set_dir_pin (v : bool) (st : state) : state :=
  mkState (encoder st) (motor st) (reset_button st) (last_status_ms st)
          (step_pin st) v (timer_alarm st) (trace st).
Definition timerAlarmWrite (v : Z) (st : state) : state :=
  mkState (encoder st) (motor st) (reset_button st) (last_status_ms st)
          (step_pin st) (dir_pin st) v (trace st).
Definition emit (e : event) (st : state) : state :=
  mkState (encoder st) (motor st) (reset_button st) (last_status_ms st)
          (step_pin st) (dir_pin st) (timer_alarm st) (trace st ++ [e]).

Definition digitalWrite (pin : Z) (level : bool) (st : state) : state :=
  if pin =? M3_STEP_PIN then set_step_pin level st
  else if pin =? M3_DIR_PIN then set_dir_pin level st
  else st.

Definition sendResponse (msg : response) : state -> state := emit (Serial msg).
Definition delay (ms : Z) : state -> state := emit (Delay ms).

(** Sequencing of statements, in source order. *)
Notation "s |> f" := (f s) (at level 45, left associativity, only parsing).

(** *** Helpers *)

Definition syncMotorStepsWithEncoder (st : state) : state :=
  if negb (Encoder.detected (encoder st)) then st
  else
    let synced_steps :=
      F32.to_i32 (F32.mul (Encoder.position_in (encoder st)) STEPS_PER_IN) in
    upd_motor (Motor.set_current_steps synced_steps) st.

(** The tolerance of the timer routine,
    [(int32_t)(POSITION_TOLERANCE_IN * STEPS_PER_IN)]. *)
Definition TOLERANCE_STEPS : Z :=
  F32.to_i32 (F32.mul POSITION_TOLERANCE_IN STEPS_PER_IN).

(** *** Timer interrupt *)

Definition onTimer (st : state) : state :=
  let m := motor st in
  if Motor.in_motion m then
    let error_steps := wrap32 (Motor.target_steps m - Motor.current_steps m) in
    if abs32 error_steps <=? TOLERANCE_STEPS then
      st |> upd_motor (Motor.set_in_motion false)
         |> upd_motor (Motor.set_motion_complete_flag true)
         |> digitalWrite M3_STEP_PIN LOW
    else if negb (Motor.step_pin_state m) then
      st |> digitalWrite M3_STEP_PIN HIGH
         |> upd_motor (Motor.set_step_pin_state true)
         |> upd_motor (Motor.set_pulse_counter 0)
    else
      let pc := wrapu32 (Motor.pulse_counter m + 1) in
      let st1 := upd_motor (Motor.set_pulse_counter pc) st in
      if 1 <=? pc then
        st1 |> digitalWrite M3_STEP_PIN LOW
            |> upd_motor (Motor.set_step_pin_state false)
            |> upd_motor (fun m =>
                 if Motor.direction m
                 then Motor.set_current_steps (wrap32 (Motor.current_steps m + 1)) m
                 else Motor.set_current_steps (wrap32 (Motor.current_steps m - 1)) m)
      else st1
  else st.

(** *** Quadrature decoder *)

Definition quad_table : list Z :=
  [ 0; -1;  1;  0;
    1;  0;  0; -1;
   -1;  0;  0;  1;
    0;  1; -1;  0 ].

(** [a] and [b] are what [digitalRead] returns for the two channels.  An
    index past the table (which needs [last_ab > 3]) reads as 0 here. *)
Definition handleEncoderChange (a b : bool) (st : state) : state :=
  let e := encoder st in
  let curr := wrapu8 (Z.lor (Z.shiftl (Z.b2z a) 1) (Z.b2z b)) in
  let idx := wrapu8 (Z.lor (Z.shiftl (Encoder.last_ab e) 2) curr) in
  st |> upd_encoder (Encoder.set_counts
                       (wrap32 (Encoder.counts e + nth (Z.to_nat idx) quad_table 0)))
     |> upd_encoder (Encoder.set_last_ab curr).

(** *** Encoder bookkeeping of the main loop *)

Definition readEncoderCount (st : state) : Z := wrap32 (Encoder.counts (encoder st)).

Definition resetEncoderCount (st : state) : state :=
  st |> upd_encoder (Encoder.set_counts 0)
     |> upd_encoder (Encoder.set_last_counts 0).

(** [now] is the value of [millis()]. *)
Definition updateEncoder (now : Z) (st : state) : state :=
  if negb (Encoder.detected (encoder st)) then st
  else
    let current_count := readEncoderCount st in
    let delta := wrap32 (current_count - Encoder.last_counts (encoder st)) in
    let st1 :=
      st |> upd_encoder (Encoder.set_last_counts current_count)
         |> upd_encoder (Encoder.set_last_delta_counts delta)
         |> upd_encoder (Encoder.set_position_in
                           (F32.mul (F32.of_Z current_count) IN_PER_COUNT)) in
    if negb (now =? Encoder.last_vel_ms (encoder st1)) then
      let dt :=
        F32.div (F32.of_Z (wrapu32 (now - Encoder.last_vel_ms (encoder st1))))
                (F32.lit 1000 0) in
      let st2 := upd_encoder (Encoder.set_last_vel_ms now) st1 in
      if F32.ltb F32.zero dt then
        let v :=
          F32.div (F32.mul (F32.of_Z (Encoder.last_delta_counts (encoder st2)))
                           IN_PER_COUNT) dt in
        st2 |> upd_encoder (Encoder.set_velocity_ips v)
            |> upd_encoder (fun e => Encoder.set_velocity_ema_ips
                 (F32.add (F32.mul VEL_ALPHA (Encoder.velocity_ips e))
                          (F32.mul (F32.sub (F32.lit 1 0) VEL_ALPHA)
                                   (Encoder.velocity_ema_ips e))) e)
      else st2
    else st1.

Definition resetEncoder (st : state) : state :=
  st |> resetEncoderCount
     |> upd_encoder (Encoder.set_velocity_ips F32.zero)
     |> upd_encoder (Encoder.set_velocity_ema_ips F32.zero)
     |> upd_encoder (Encoder.set_position_in F32.zero)
     |> sendResponse ENCODER_RESET.

(** [level] is [digitalRead(RESET_PIN)]: HIGH idle, LOW pressed. *)
Definition updateResetButton (now : Z) (level : bool) (st : state) : state :=
  let rb := reset_button st in
  let rb1 :=
    if negb (Bool.eqb level (ResetButton.last_level rb)) then
      ResetButton.mk level
        (if Bool.eqb level HIGH then false else ResetButton.triggered rb) now
    else rb in
  let st1 := set_reset_button rb1 st in
  if negb (ResetButton.triggered rb1) && Bool.eqb level LOW
     && (RESET_DEBOUNCE_MS <? wrapu32 (now - ResetButton.last_edge_ms rb1)) then
    st1 |> resetEncoder
        |> (fun s => set_reset_button
              (ResetButton.mk (ResetButton.last_level (reset_button s)) true
                              (ResetButton.last_edge_ms (reset_button s))) s)
  else st1.

(** *** Timer frequency *)

Definition updateTimerFrequency (st : state) : state :=
  let step_rate0 := F32.mul (Motor.velocity_ips (motor st)) STEPS_PER_IN in
  let step_rate :=
    if F64.ltb (F64.of_f32 step_rate0) (F64.of_Z 10) then F32.lit 10 0 else step_rate0 in
  let interval := F64.to_u32 (F64.div (F64.of_Z 1000000) (F64.of_f32 step_rate)) in
  st |> upd_motor (Motor.set_step_interval_us interval)
     |> timerAlarmWrite (interval / 2).

(** *** Motion commands *)

Definition stop (st : state) : state :=
  let st1 := upd_motor (Motor.set_in_motion false) st in
  let motor_pos_in :=
    F32.div (F32.of_Z (Motor.current_steps (motor st1))) STEPS_PER_IN in
  if Encoder.detected (encoder st1) then
    sendResponse (STOPPED_encoder motor_pos_in (Encoder.position_in (encoder st1))) st1
  else
    sendResponse (STOPPED motor_pos_in) st1.

Definition closedLoopCorrection (st : state) : state :=
  let st0 := if 0 <? CORRECTION_SETTLE_MS then delay CORRECTION_SETTLE_MS st else st in
  let actual_pos := Encoder.position_in (encoder st0) in
  let error_in := F32.sub (Motor.target_position_in (motor st0)) actual_pos in
  if F32.leb (F32.abs error_in) POSITION_TOLERANCE_IN then
    sendResponse (AT_TARGET_error actual_pos error_in) st0
  else if F32.ltb MAX_POSITION_ERROR_IN (F32.abs error_in) then
    st0 |> sendResponse (ERROR_position error_in
                           (Motor.target_position_in (motor st0)) actual_pos)
        |> stop
  else
    let st1 :=
      st0 |> syncMotorStepsWithEncoder
          |> sendResponse (CORRECTING error_in (Motor.target_position_in (motor st0))) in
    let correction_steps := F32.to_i32 (F32.mul error_in STEPS_PER_IN) in
    let st2 :=
      upd_motor (Motor.set_target_steps
                   (wrap32 (Motor.current_steps (motor st1) + correction_steps))) st1 in
    let st3 :=
      if 0 <? correction_steps then
        st2 |> upd_motor (Motor.set_direction true) |> digitalWrite M3_DIR_PIN HIGH
      else
        st2 |> upd_motor (Motor.set_direction false) |> digitalWrite M3_DIR_PIN LOW in
    let st4 :=
      upd_motor (fun m => Motor.set_velocity_ips (Motor.base_velocity_ips m) m) st3 in
    let correction_vel0 :=
      F32.mul (Motor.base_velocity_ips (motor st4)) CORRECTION_VELOCITY_SCALE in
    let correction_vel :=
      if F32.ltb correction_vel0 MIN_CORRECTION_VEL_IPS
      then MIN_CORRECTION_VEL_IPS else correction_vel0 in
    st4 |> upd_motor (Motor.set_velocity_ips correction_vel)
        |> updateTimerFrequency
        |> upd_motor (Motor.set_in_motion true).


Definition gotoPosition (position_in : F32.t) (st : state) : state :=
  let st1 := upd_motor (Motor.set_target_position_in position_in) st in
  let actual_pos :=
    if Encoder.detected (encoder st1) then Encoder.position_in (encoder st1)
    else F32.div (F32.of_Z (Motor.current_steps (motor st1))) STEPS_PER_IN in
  let st2 :=
    if Encoder.detected (encoder st1) then syncMotorStepsWithEncoder st1 else st1 in
  let error_in := F32.sub position_in actual_pos in
  if F32.leb (F32.abs error_in) POSITION_TOLERANCE_IN then
    sendResponse (AT_TARGET actual_pos) st2
  else
    let st3 :=
      upd_motor (Motor.set_target_steps
                   (wrap32 (Motor.current_steps (motor st2)
                            + F32.to_i32 (F32.mul error_in STEPS_PER_IN)))) st2 in
    let st4 :=
      if F32.ltb F32.zero error_in then
        st3 |> upd_motor (Motor.set_direction true) |> digitalWrite M3_DIR_PIN HIGH
      else
        st3 |> upd_motor (Motor.set_direction false) |> digitalWrite M3_DIR_PIN LOW in
    let st5 := st4 |> updateTimerFrequency |> upd_motor (Motor.set_in_motion true) in
    let current_in :=
      F32.div (F32.of_Z (Motor.current_steps (motor st5))) STEPS_PER_IN in
    if Encoder.detected (encoder st5) then
      sendResponse (MOVING_encoder (Encoder.position_in (encoder st5)) position_in) st5
    else
      sendResponse (MOVING current_in position_in) st5.

Definition home (st : state) : state :=
  let st1 :=
    st |> upd_motor (Motor.set_current_steps 0)
       |> upd_motor (Motor.set_target_steps 0)
       |> upd_motor (Motor.set_target_position_in F32.zero)
       |> upd_motor (Motor.set_in_motion false) in
  let st2 :=
    if Encoder.detected (encoder st1) then syncMotorStepsWithEncoder st1 else st1 in
  st2 |> resetEncoder |> sendResponse HOMED.

Definition setVelocity (vel_ips : F32.t) (st : state) : state :=
  if F32.leb vel_ips (F32.of_Z 0) then sendResponse ERROR_velocity st
  else
    let st1 :=
      st |> upd_motor (Motor.set_base_velocity_ips vel_ips)
         |> upd_motor (Motor.set_velocity_ips vel_ips) in
    let st2 := if Motor.in_motion (motor st1) then updateTimerFrequency st1 else st1 in
    sendResponse (VELOCITY vel_ips) st2.

Definition queryStatus (st : state) : state :=
  let motor_pos_in :=
    F32.div (F32.of_Z (Motor.current_steps (motor st))) STEPS_PER_IN in
  if Encoder.detected (encoder st) then
    let error_in := F32.sub (Encoder.position_in (encoder st)) motor_pos_in in
    sendResponse
      (STATUS_encoder (Motor.in_motion (motor st)) motor_pos_in
         (Motor.current_steps (motor st)) (Encoder.position_in (encoder st))
         (readEncoderCount st) error_in (Motor.velocity_ips (motor st))
         (Motor.target_position_in (motor st))) st
  else
    sendResponse
      (STATUS_open (Motor.in_motion (motor st)) motor_pos_in
         (Motor.current_steps (motor st)) (Motor.velocity_ips (motor st))
         (Motor.target_position_in (motor st))) st.

Definition sendStatusUpdate (st : state) : state :=
  if Encoder.detected (encoder st) then
    sendResponse (POS (Encoder.position_in (encoder st))
                      (Encoder.velocity_ema_ips (encoder st))
                      (readEncoderCount st) (Motor.current_steps (motor st))) st
  else
    let pos_in := F32.div (F32.of_Z (Motor.current_steps (motor st))) STEPS_PER_IN in
    sendResponse (POS pos_in F32.zero 0 (Motor.current_steps (motor st))) st.

(** *** Command dispatch *)

(** One received line: its text after [trim()], and what the Arduino
    [String::toFloat] returns for the text after the first character. *)
Record line := mkLine { text : string; toFloat : F32.t }.

Definition is_char (c : ascii) (lower upper : ascii) : bool :=
  Ascii.eqb c lower || Ascii.eqb c upper.

(** [serial] is [None] when [Serial.available()] is zero. *)
Definition processSerialCommand (serial : option line) (st : state) : state :=
  match serial with
  | None => st
  | Some l =>
      match text l with
      | EmptyString => st
      | String command _ =>
          let st1 := sendResponse (CMD (text l)) st in
          if is_char command "g" "G" then gotoPosition (toFloat l) st1
          else if is_char command "h" "H" then home st1
          else if is_char command "s" "S" then stop st1
          else if is_char command "v" "V" then setVelocity (toFloat l) st1
          else if is_char command "r" "R" then resetEncoder st1
          else if is_char command "i" "I" then sendResponse ID_ESP32B st1
          else if Ascii.eqb command "?" then queryStatus st1
          else sendResponse ERROR_unknown st1
      end
  end.

(** *** Main loop *)

(** What one pass of [loop()] reads from the outside: the three calls of
    [millis()], the reset button and the serial port. *)
Record loop_input := mkLoopInput {
  millis_loop : Z;
  millis_encoder : Z;
  millis_button : Z;
  reset_level : bool;
  serial : option line
}.

Definition loop (i : loop_input) (st : state) : state :=
  let now := millis_loop i in
  let st1 :=
    st |> updateEncoder (millis_encoder i)
       |> updateResetButton (millis_button i) (reset_level i) in
  let st2 :=
    if Motor.motion_complete_flag (motor st1) then
      let st1' := upd_motor (Motor.set_motion_complete_flag false) st1 in
      if Motor.closed_loop_enabled (motor st1') then closedLoopCorrection st1'
      else
        let pos_in :=
          F32.div (F32.of_Z (Motor.current_steps (motor st1'))) STEPS_PER_IN in
        sendResponse (AT_TARGET pos_in) st1'
    else st1 in
  let st3 :=
    if STATUS_UPDATE_MS <=? wrapu32 (now - last_status_ms st2) then
      st2 |> set_last_status_ms now |> sendStatusUpdate
    else st2 in
  st3 |> processSerialCommand (serial i) |> delay 2.

(** *** Start-up *)

Record setup_input := mkSetupInput {
  enc_a : bool;            (* digitalRead(ENC_A_PIN) *)
  enc_b : bool;            (* digitalRead(ENC_B_PIN) *)
  reset_pin : bool;        (* digitalRead(RESET_PIN) *)
  millis_enc0 : Z;
  millis_btn0 : Z
}.

(** [initInterruptEncoder] configures the pins, attaches the handlers and
    returns [true]. *)
Definition initInterruptEncoder : bool := true.

(** The state at the end of [setup()].  The trace starts with the
    [delay(500)] after [Serial.begin]; the banner lines are out of the
    protocol and are recorded as one [BANNER]. *)
Definition setup (i : setup_input) : state :=
  let detected := initInterruptEncoder in
  let e :=
    Encoder.mk detected 0
      (wrapu8 (Z.lor (Z.shiftl (Z.b2z (enc_a i)) 1) (Z.b2z (enc_b i))))
      0 0 F32.zero F32.zero F32.zero (millis_enc0 i) in
  let m :=
    Motor.mk 0 0 DEFAULT_VELOCITY_IPS DEFAULT_VELOCITY_IPS false true false 0 0
             false F32.zero detected in
  let rb := ResetButton.mk (reset_pin i) false (millis_btn0 i) in
  mkState e m rb 0 LOW LOW 0 [] |> delay 500 |> updateTimerFrequency |> sendResponse BANNER.

(** *** The firmware as a transition system *)

(** The timer interrupt, an encoder edge interrupt, or one pass of the
    main loop.  Interrupts are taken between passes of the loop. *)
Inductive input :=
| Tick
| Edge (a b : bool)
| Loop (i : loop_input).

Definition step (x : input) (st : state) : state :=
  match x with
  | Tick => onTimer st
  | Edge a b => handleEncoderChange a b st
  | Loop i => loop i st
  end.

Definition run (xs : list input) (st : state) : state :=
  fold_left (fun s x => step x s) xs st.

Definition reachable (st : state) : Prop :=
  exists i xs, st = run xs (setup i).

(** *** Vocabulary of the properties *)

(** The two-bit state of the channels as the handler forms it. *)
Definition ab_state (a b : bool) : Z :=
  wrapu8 (Z.lor (Z.shiftl (Z.b2z a) 1) (Z.b2z b)).

(** The table entry the handler adds for the transition [prev] to [curr]. *)
Definition quad_delta (prev curr : Z) : Z :=
  nth (Z.to_nat (wrapu8 (Z.lor (Z.shiftl prev 2) curr))) quad_table 0.

(** The two directions of rotation.  Counting up, the channel states
    follow each other as 00, 10, 11, 01; counting down, as 00, 01, 11, 10. *)
Inductive rotation := Up | Down.

Definition successor (d : rotation) (ab : Z) : Z :=
  match d, ab with
  | Up, 0 => 2 | Up, 2 => 3 | Up, 3 => 1 | Up, 1 => 0
  | Down, 0 => 1 | Down, 1 => 3 | Down, 3 => 2 | Down, 2 => 0
  | _, _ => ab
  end.

Definition sign (d : rotation) : Z := match d with Up => 1 | Down => -1 end.

(** A valid edge of the rotation [d]: one channel has changed, to the
    state that follows [prev]. *)
Definition valid_edge (d : rotation) (prev curr : Z) : bool :=
  curr =? successor d prev.

(** An out-of-sequence transition: both channels have changed at once, or
    none has. *)
Definition out_of_sequence (prev curr : Z) : bool :=
  (Z.lxor prev curr =? 3) || (Z.lxor prev curr =? 0).

(** Every edge of the sequence is a valid edge of [d] or out of sequence. *)
Fixpoint single_direction (d : rotation) (prev : Z) (es : list (bool * bool)) : bool :=
  match es with
  | [] => true
  | (a, b) :: tl =>
      (valid_edge d prev (ab_state a b) || out_of_sequence prev (ab_state a b))
      && single_direction d (ab_state a b) tl
  end.

Fixpoint valid_edges (d : rotation) (prev : Z) (es : list (bool * bool)) : Z :=
  match es with
  | [] => 0
  | (a, b) :: tl =>
      (if valid_edge d prev (ab_state a b) then 1 else 0)
      + valid_edges d (ab_state a b) tl
  end.

(** The handler run on a sequence of edges. *)
Definition decode (es : list (bool * bool)) (st : state) : state :=
  fold_left (fun s e => handleEncoderChange (fst e) (snd e) s) es st.

(** No integer of the timer routine overflows on this tick: the
    subtraction and [abs] of the error, the step counter one up and one
    down, the pulse counter one up. *)
Definition tick_defined (m : Motor.t) : Prop :=
  in_i32 (Motor.target_steps m) /\ in_i32 (Motor.current_steps m) /\
  INT32_MIN < Motor.target_steps m - Motor.current_steps m <= INT32_MAX /\
  in_i32 (Motor.current_steps m + 1) /\ in_i32 (Motor.current_steps m - 1) /\
  0 <= Motor.pulse_counter m < UINT32_MAX.

(** The line that [stop] writes. *)
Definition stop_response (st : state) : response :=
  let motor_pos_in :=
    F32.div (F32.of_Z (Motor.current_steps (motor st))) STEPS_PER_IN in
  if Encoder.detected (encoder st)
  then STOPPED_encoder motor_pos_in (Encoder.position_in (encoder st))
  else STOPPED motor_pos_in.

(** What the interrupt routines keep between their calls and the main loop
    never writes: the encoder flags, the previous channel state and the
    phase of the pulse. *)
Definition isr_view (st : state) : bool * Z * bool * Z * bool :=
  (Encoder.detected (encoder st), Encoder.last_ab (encoder st),
   Motor.step_pin_state (motor st), Motor.pulse_counter (motor st),
   Motor.closed_loop_enabled (motor st)).

(** The facts about that part that hold from [setup] on. *)
Definition isr_invariant (st : state) : Prop :=
  Encoder.detected (encoder st) = true /\
  Motor.closed_loop_enabled (motor st) = true /\
  0 <= Encoder.last_ab (encoder st) <= 3 /\
  0 <= Motor.pulse_counter (motor st) <= 1 /\
  (Motor.step_pin_state (motor st) = true -> Motor.pulse_counter (motor st) = 0).

(** The encoder position is a binary32 number. *)
Definition position_valid (st : state) : Prop :=
  F32.valid (Encoder.position_in (encoder st)) = true.

(** One turn of the encoder cycle counting up, as interrupts. *)
Definition cycle_up : list input :=
  [Edge true false; Edge true true; Edge false true; Edge false false].

Definition idle_pass (now : Z) : input := Loop (mkLoopInput now now now HIGH None).

Definition command_pass (now : Z) (l : line) : input :=
  Loop (mkLoopInput now now now HIGH (Some l)).

(** [n] timer interrupts in a row. *)
Definition ticks (n : nat) (st : state) : state := run (repeat Tick n) st.

(** What one pulse adds to the step counter. *)
Definition step_sign (m : Motor.t) : Z := if Motor.direction m then 1 else -1.

(** Nothing but the trace differs between [st] and [st']. *)
Definition same_axis (st st' : state) : Prop :=
  encoder st' = encoder st /\ motor st' = motor st /\
  reset_button st' = reset_button st /\ last_status_ms st' = last_status_ms st /\
  step_pin st' = step_pin st /\ dir_pin st' = dir_pin st /\
  timer_alarm st' = timer_alarm st.

(** The first character of the line is none of the command letters. *)
Definition unknown_command (c : ascii) : bool :=
  negb (is_char c "g" "G" || is_char c "h" "H" || is_char c "s" "S"
        || is_char c "v" "V" || is_char c "r" "R" || is_char c "i" "I"
        || Ascii.eqb c "?").

(** The step output and the phase of the pulse, which only the timer
    routine writes. *)
Definition pulse_view (st : state) : bool * bool * Z :=
  (step_pin st, Motor.step_pin_state (motor st), Motor.pulse_counter (motor st)).

(** The position that [gotoPosition] takes as the actual one. *)
Definition actual_position (st : state) : F32.t :=
  if Encoder.detected (encoder st) then Encoder.position_in (encoder st)
  else F32.div (F32.of_Z (Motor.current_steps (motor st))) STEPS_PER_IN.

(** The step counter that [syncMotorStepsWithEncoder] computes from the
    position that [updateEncoder] computes from [c] counts. *)
Definition synced_steps_of_counts (c : Z) : Z :=
  F32.to_i32 (F32.mul (F32.mul (F32.of_Z c) IN_PER_COUNT) STEPS_PER_IN).

(** The [n] integers from [lo] on. *)
Fixpoint zrange (lo : Z) (n : nat) : list Z :=
  match n with
  | O => []
  | S k => lo :: zrange (lo + 1) k
  end.

(** The counts from -10000 to 10000, about 0.93 m of travel each way. *)
Definition counts_range : list Z := zrange (-10000) (Z.to_nat 20001).

Definition sync_check (c : Z) : bool := synced_steps_of_counts c =? 4 * c.

(** The first character is one of the commands that only answer: the
    identity, the status query, or no command at all. *)
Definition answers_only (c : ascii) : bool :=
  unknown_command c || is_char c "i" "I" || Ascii.eqb c "?".

(** A velocity that is a zero, a negative number or minus infinity. *)
Definition zero_or_negative (v : F32.t) : bool :=
  match v with
  | S754_zero _ => true
  | S754_infinity s => s
  | S754_nan => false
  | S754_finite s _ _ => s
  end.

(** The reset button is read pressed as on the pass before, no reset has
    been made since it was pressed, and the press is older than the
    debounce time. *)
Definition reset_due (now : Z) (level : bool) (rb : ResetButton.t) : bool :=
  Bool.eqb level LOW && Bool.eqb (ResetButton.last_level rb) LOW
  && negb (ResetButton.triggered rb)
  && (RESET_DEBOUNCE_MS <? wrapu32 (now - ResetButton.last_edge_ms rb)).

(** One correction check and the timer interrupt that follows it. *)
Definition check_and_tick (st : state) : state := onTimer (closedLoopCorrection st).

End Backstop.

(** ** The blade and fixture axes: [esp32a_axis12/src/main.cpp] *)

Module Axis12.

Import Int.

Definition HIGH : bool := true.
Definition LOW : bool := false.

Definition M1_DIR_PIN : Z := 33.
Definition M2_DIR_PIN : Z := 26.

Definition M1_PULSES_PER_REV : Z := 22333.
Definition M1_DIR_CW : bool := false.
Definition MAX_FREQ_HZ : F64.t := F64.of_Z 375000.
Definition M2_DIR_FWD : bool := false.
Definition M2_STEPS_PER_MM : F64.t := F64.of_Z 750.
Definition PWM_DUTY_CYCLE : Z := 50.
Definition MIN_FREQ_HZ : F64.t := F64.of_Z 1.

(** *** State *)

Module M1.
Record t := mk {
  running : bool;
  rpm : Z;            (* uint16_t *)
  freq_hz : F64.t
}.
End M1.

Module M2.
Record t := mk {
  in_motion : bool;
  direction_fwd : bool;
  vel_mm_s : F64.t;
  freq_hz : F64.t
}.
End M2.

(** One MCPWM timer with its operator A, as far as the firmware drives it:
    the frequency given to [mcpwm_set_frequency], the duty in percent given
    to [mcpwm_set_duty], and whether the output is forced low
    ([mcpwm_set_signal_low]) or follows the duty ([mcpwm_set_duty_type]). *)
Module Pwm.
Record t := mk {
  frequency : Z;      (* uint32_t, Hz *)
  duty : Z;
  signal_low : bool
}.

(** The output carries pulses. *)
Definition pulsing (p : t) : bool := negb (signal_low p) && (0 <? duty p).
End Pwm.

Inductive timer := MCPWM_TIMER_0 | MCPWM_TIMER_1.

Inductive response :=
| CMD (line : string)                 (* "CMD <line>" *)
| ID_ESP32A                           (* "ID:ESP32A" *)
| STATUS (m1_run : bool) (rpm : Z) (m2_moving : bool) (vel : F64.t) (fwd : bool)
| ERROR_M1_subcommand                 (* "ERROR M1 unknown subcommand" *)
| ERROR_M2_subcommand                 (* "ERROR M2 unknown subcommand" *)
| ERROR_unknown                       (* "ERROR Unknown command" *)
| ERROR_M1_range                      (* "ERROR M1 RPM out of range (100-6000)" *)
| M1_RUN (rpm : Z) (freq : F64.t)     (* "M1_RUN rpm=%d freq=%.1f" *)
| M1_STOPPED
| M2_FWD
| ERROR_M2_HOME_ACTIVE
| M2_REV
| M2_STOPPED
| ERROR_M2_range                      (* "ERROR M2 velocity out of range (1-400 mm/s)" *)
| M2_VEL_SET (vel : F64.t).           (* "M2_VEL_SET vel=%.1f" *)

Record state := mkState {
  m1 : M1.t;
  m2 : M2.t;
  heartbeat_counter : Z;   (* uint32_t *)
  last_status_ms : Z;      (* unsigned long *)
  pwm0 : Pwm.t;            (* MCPWM unit 0, timer 0: the M1 step output *)
  pwm1 : Pwm.t;            (* MCPWM unit 0, timer 1: the M2 step output *)
  m1_dir_pin : bool;       (* output level of GPIO33 *)
  m2_dir_pin : bool;       (* output level of GPIO26 *)
  out : list response      (* lines written to the serial port, oldest first *)
}.

Definition set_m1 v st :=
  mkState v (m2 st) (heartbeat_counter st) (last_status_ms st) (pwm0 st) (pwm1 st)
          (m1_dir_pin st) (m2_dir_pin st) (out st).
Definition set_m2 v st :=
  mkState (m1 st) v (heartbeat_counter st) (last_status_ms st) (pwm0 st) (pwm1 st)
          (m1_dir_pin st) (m2_dir_pin st) (out st).
Definition set_heartbeat_counter v st :=
  mkState (m1 st) (m2 st) v (last_status_ms st) (pwm0 st) (pwm1 st)
          (m1_dir_pin st) (m2_dir_pin st) (out st).
Definition set_last_status_ms v st :=
  mkState (m1 st) (m2 st) (heartbeat_counter st) v (pwm0 st) (pwm1 st)
          (m1_dir_pin st) (m2_dir_pin st) (out st).
Definition upd_pwm (tm : timer) (f : Pwm.t -> Pwm.t) st :=
  match tm with
  | MCPWM_TIMER_0 =>
      mkState (m1 st) (m2 st) (heartbeat_counter st) (last_status_ms st)
              (f (pwm0 st)) (pwm1 st) (m1_dir_pin st) (m2_dir_pin st) (out st)
  | MCPWM_TIMER_1 =>
      mkState (m1 st) (m2 st) (heartbeat_counter st) (last_status_ms st)
              (pwm0 st) (f (pwm1 st)) (m1_dir_pin st) (m2_dir_pin st) (out st)
  end.
Definition digitalWrite (pin : Z) (level : bool) st :=
  if pin =? M1_DIR_PIN then
    mkState (m1 st) (m2 st) (heartbeat_counter st) (last_status_ms st)
            (pwm0 st) (pwm1 st) level (m2_dir_pin st) (out st)
  else if pin =? M2_DIR_PIN then
    mkState (m1 st) (m2 st) (heartbeat_counter st) (last_status_ms st)
            (pwm0 st) (pwm1 st) (m1_dir_pin st) level (out st)
  else st.
Definition sendResponse (msg : response) st :=
  mkState (m1 st) (m2 st) (heartbeat_counter st) (last_status_ms st)
          (pwm0 st) (pwm1 st) (m1_dir_pin st) (m2_dir_pin st) (out st ++ [msg]).

Notation "s |> f" := (f s) (at level 45, left associativity, only parsing).

(** *** MCPWM driver calls *)

Definition mcpwm_set_frequency (tm : timer) (hz : Z) : state -> state :=
  upd_pwm tm (fun p => Pwm.mk hz (Pwm.duty p) (Pwm.signal_low p)).
Definition mcpwm_set_duty (tm : timer) (d : Z) : state -> state :=
  upd_pwm tm (fun p => Pwm.mk (Pwm.frequency p) d (Pwm.signal_low p)).
Definition mcpwm_set_duty_type (tm : timer) : state -> state :=
  upd_pwm tm (fun p => Pwm.mk (Pwm.frequency p) (Pwm.duty p) false).
Definition mcpwm_set_signal_low (tm : timer) : state -> state :=
  upd_pwm tm (fun p => Pwm.mk (Pwm.frequency p) (Pwm.duty p) true).

(** The clamp shared by [m1_pwm_set_frequency] and [m2_pwm_set_frequency]. *)
Definition clamp_freq (freq_hz : F64.t) : F64.t :=
  let f1 := if F64.ltb freq_hz MIN_FREQ_HZ then MIN_FREQ_HZ else freq_hz in
  if F64.ltb MAX_FREQ_HZ f1 then MAX_FREQ_HZ else f1.

Definition m1_pwm_set_frequency (freq_hz : F64.t) : state -> state :=
  mcpwm_set_frequency MCPWM_TIMER_0 (F64.to_u32 (clamp_freq freq_hz)).

Definition pwm_enable (tm : timer) (enable : bool) (st : state) : state :=
  if enable then
    st |> mcpwm_set_duty tm PWM_DUTY_CYCLE |> mcpwm_set_duty_type tm
  else
    st |> mcpwm_set_signal_low tm |> mcpwm_set_duty tm 0.

Definition m1_pwm_enable : bool -> state -> state := pwm_enable MCPWM_TIMER_0.

Definition m2_pwm_set_frequency (freq_hz : F64.t) : state -> state :=
  mcpwm_set_frequency MCPWM_TIMER_1 (F64.to_u32 (clamp_freq freq_hz)).

Definition m2_pwm_enable : bool -> state -> state := pwm_enable MCPWM_TIMER_1.

(** *** M1 *)

Definition m1_set_rpm (rpm : Z) (st : state) : state :=
  if (rpm <? 100) || (6000 <? rpm) then sendResponse ERROR_M1_range st
  else
    let f0 :=
      F64.div (F64.mul (F64.of_Z rpm) (F64.of_Z M1_PULSES_PER_REV)) (F64.of_Z 60) in
    let f := if F64.ltb MAX_FREQ_HZ f0 then MAX_FREQ_HZ else f0 in
    st |> set_m1 (M1.mk (M1.running (m1 st)) rpm f)
       |> m1_pwm_set_frequency f
       |> m1_pwm_enable true
       |> (fun s => set_m1 (M1.mk true (M1.rpm (m1 s)) (M1.freq_hz (m1 s))) s)
       |> sendResponse (M1_RUN rpm f).

Definition m1_stop (st : state) : state :=
  st |> m1_pwm_enable false
     |> (fun s => set_m1 (M1.mk false (M1.rpm (m1 s)) F64.zero) s)
     |> sendResponse M1_STOPPED.

(** *** M2 *)

(** [level] is [digitalRead(M2_HOME_PIN)]; the sensor pulls the pin low. *)
Definition is_m2_home_active (level : bool) : bool := Bool.eqb level LOW.

Definition m2_feed_forward (st : state) : state :=
  let st1 :=
    st |> digitalWrite M2_DIR_PIN (if M2_DIR_FWD then HIGH else LOW)
       |> (fun s => set_m2 (M2.mk (M2.in_motion (m2 s)) true (M2.vel_mm_s (m2 s))
                                  (M2.freq_hz (m2 s))) s)
       |> (fun s => set_m2 (M2.mk true (M2.direction_fwd (m2 s)) (M2.vel_mm_s (m2 s))
                                  (M2.freq_hz (m2 s))) s) in
  let vel :=
    if F64.eqb (M2.vel_mm_s (m2 st1)) (F64.of_Z 0) then F64.of_Z 120
    else M2.vel_mm_s (m2 st1) in
  let f := F64.mul vel M2_STEPS_PER_MM in
  st1 |> set_m2 (M2.mk (M2.in_motion (m2 st1)) (M2.direction_fwd (m2 st1)) vel f)
      |> m2_pwm_set_frequency f
      |> m2_pwm_enable true
      |> sendResponse M2_FWD.

Definition m2_feed_reverse (home_level : bool) (st : state) : state :=
  if is_m2_home_active home_level then sendResponse ERROR_M2_HOME_ACTIVE st
  else
    let st1 :=
      st |> digitalWrite M2_DIR_PIN (if M2_DIR_FWD then LOW else HIGH)
         |> (fun s => set_m2 (M2.mk (M2.in_motion (m2 s)) false (M2.vel_mm_s (m2 s))
                                    (M2.freq_hz (m2 s))) s)
         |> (fun s => set_m2 (M2.mk true (M2.direction_fwd (m2 s)) (M2.vel_mm_s (m2 s))
                                    (M2.freq_hz (m2 s))) s) in
    let vel :=
      if F64.eqb (M2.vel_mm_s (m2 st1)) (F64.of_Z 0) then F64.of_Z 120
      else M2.vel_mm_s (m2 st1) in
    let f := F64.mul vel M2_STEPS_PER_MM in
    st1 |> set_m2 (M2.mk (M2.in_motion (m2 st1)) (M2.direction_fwd (m2 st1)) vel f)
        |> m2_pwm_set_frequency f
        |> m2_pwm_enable true
        |> sendResponse M2_REV.

Definition m2_stop (st : state) : state :=
  st |> m2_pwm_enable false
     |> (fun s => set_m2 (M2.mk false (M2.direction_fwd (m2 s))
                                (M2.vel_mm_s (m2 s)) F64.zero) s)
     |> sendResponse M2_STOPPED.

Definition m2_set_velocity (vel_mm_s : F64.t) (st : state) : state :=
  if F64.ltb vel_mm_s (F64.of_Z 1) || F64.ltb (F64.of_Z 400) vel_mm_s then
    sendResponse ERROR_M2_range st
  else
    let st1 :=
      set_m2 (M2.mk (M2.in_motion (m2 st)) (M2.direction_fwd (m2 st)) vel_mm_s
                    (M2.freq_hz (m2 st))) st in
    let st2 :=
      if M2.in_motion (m2 st1) then
        let f := F64.mul (M2.vel_mm_s (m2 st1)) M2_STEPS_PER_MM in
        st1 |> set_m2 (M2.mk (M2.in_motion (m2 st1)) (M2.direction_fwd (m2 st1))
                             (M2.vel_mm_s (m2 st1)) f)
            |> m2_pwm_set_frequency f
      else st1 in
    sendResponse (M2_VEL_SET vel_mm_s) st2.

Definition m2_check_home_stop (home_level : bool) (st : state) : state :=
  if M2.in_motion (m2 st) && negb (M2.direction_fwd (m2 st))
     && is_m2_home_active home_level
  then m2_stop st else st.

Definition queryStatus (st : state) : state :=
  sendResponse (STATUS (M1.running (m1 st)) (M1.rpm (m1 st)) (M2.in_motion (m2 st))
                       (M2.vel_mm_s (m2 st)) (M2.direction_fwd (m2 st))) st.

(** *** Command dispatch *)

(** One received line: its text after [trim()], and what the Arduino
    [String::toInt] and [String::toFloat] return for the text after the
    second character. *)
Record line := mkLine { text : string; toInt : Z; toFloat : F32.t }.

Definition is_char (c : ascii) (lower upper : ascii) : bool :=
  Ascii.eqb c lower || Ascii.eqb c upper.

(** [String::charAt], which returns 0 past the end. *)
Definition charAt (s : string) (n : nat) : ascii :=
  match String.get n s with Some c => c | None => Ascii.zero end.

(** [serial] is [None] when [Serial.available()] is zero; [home_level] is
    the level of the home pin if the command reads it. *)
Definition processSerialCommand (serial : option line) (home_level : bool)
    (st : state) : state :=
  match serial with
  | None => st
  | Some l =>
      match text l with
      | EmptyString => st
      | String command _ =>
          let st1 := sendResponse (CMD (text l)) st in
          if is_char command "i" "I" then sendResponse ID_ESP32A st1
          else if Ascii.eqb command "?" then queryStatus st1
          else if Ascii.eqb command "1" then
            let subcmd := charAt (text l) 1 in
            if is_char subcmd "r" "R" then m1_set_rpm (wrapu16 (toInt l)) st1
            else if is_char subcmd "s" "S" then m1_stop st1
            else sendResponse ERROR_M1_subcommand st1
          else if Ascii.eqb command "2" then
            let subcmd := charAt (text l) 1 in
            if is_char subcmd "f" "F" then m2_feed_forward st1
            else if is_char subcmd "b" "B" then m2_feed_reverse home_level st1
            else if is_char subcmd "s" "S" then m2_stop st1
            else if is_char subcmd "v" "V" then
              m2_set_velocity (F64.of_f32 (toFloat l)) st1
            else sendResponse ERROR_M2_subcommand st1
          else sendResponse ERROR_unknown st1
      end
  end.

(** *** Main loop *)

(** What one pass of [loop()] reads from the outside.  The home pin is
    read once by a reverse command and once by the home check. *)
Record loop_input := mkLoopInput {
  serial : option line;
  home_at_command : bool;
  home_at_check : bool;
  millis : Z
}.

Definition loop (i : loop_input) (st : state) : state :=
  let st1 :=
    st |> processSerialCommand (serial i) (home_at_command i)
       |> m2_check_home_stop (home_at_check i) in
  let now := millis i in
  if 100 <=? wrapu32 (now - last_status_ms st1) then
    st1 |> set_last_status_ms now
        |> (fun s => set_heartbeat_counter (wrapu32 (heartbeat_counter s + 1)) s)
  else st1.

(** The state at the end of [setup()]: both records zeroed, both outputs
    forced low with duty 0 at the 1000 Hz of [mcpwm_init].  The start-up
    banner is not part of the protocol and is left out of [out]. *)
Definition setup : state :=
  mkState (M1.mk false 0 F64.zero) (M2.mk false false F64.zero F64.zero) 0 0
          (Pwm.mk 1000 0 true) (Pwm.mk 1000 0 true)
          (if M1_DIR_CW then HIGH else LOW) LOW [].


(** *** Vocabulary of the properties *)

(** Nothing but the serial output differs between [st] and [st']. *)
Definition same_machine (st st' : state) : Prop :=
  m1 st' = m1 st /\ m2 st' = m2 st /\
  heartbeat_counter st' = heartbeat_counter st /\
  last_status_ms st' = last_status_ms st /\
  pwm0 st' = pwm0 st /\ pwm1 st' = pwm1 st /\
  m1_dir_pin st' = m1_dir_pin st /\ m2_dir_pin st' = m2_dir_pin st.

(** The frequency that [m1_set_rpm] stores for an accepted [rpm]. *)
Definition m1_frequency (rpm : Z) : F64.t :=
  let f0 :=
    F64.div (F64.mul (F64.of_Z rpm) (F64.of_Z M1_PULSES_PER_REV)) (F64.of_Z 60) in
  if F64.ltb MAX_FREQ_HZ f0 then MAX_FREQ_HZ else f0.

(** The whole range of accepted speeds, 100 to 6000 rpm. *)
Definition accepted_rpms : list Z := map (fun n => 100 + Z.of_nat n) (seq 0 (Z.to_nat 5901)).

(** What is checked of the frequency of one accepted speed, with
    [q] the integer part of [rpm * 22333 / 60]: the clamp of
    [m1_pwm_set_frequency] changes nothing, the timer gets [q] capped at
    375000, the stored double lies from that integer to the next, and it
    is the cap exactly from 1008 rpm on. *)
Definition rpm_check (rpm : Z) : bool :=
  let f := m1_frequency rpm in
  let hz := Z.min (rpm * M1_PULSES_PER_REV / 60) 375000 in
  sf_eqb (clamp_freq f) f
  && (F64.to_u32 (clamp_freq f) =? hz)
  && F64.leb (F64.of_Z hz) f && F64.ltb f (F64.of_Z (hz + 1))
  && Bool.eqb (sf_eqb f MAX_FREQ_HZ) (1008 <=? rpm)
  && F64.valid f.

(** The line is a forward feed command, [2f] or [2F]. *)
Definition is_forward_feed (serial : option line) : bool :=
  match serial with
  | Some l =>
      match text l with
      | String command _ =>
          Ascii.eqb command "2" && is_char (charAt (text l) 1) "f" "F"
      | EmptyString => false
      end
  | None => false
  end.

(** M2 feeds in reverse. *)
Definition reverse_in_flight (st : state) : bool :=
  M2.in_motion (m2 st) && negb (M2.direction_fwd (m2 st)).

(** The controller as a transition system: passes of the main loop from
    the state after [setup]. *)
Definition run (passes : list loop_input) (st : state) : state :=
  fold_left (fun s i => loop i s) passes st.

Definition reachable (st : state) : Prop := exists passes, st = run passes setup.

(** The pulse outputs agree with the state records: an output carries
    pulses exactly when its motor is flagged as running; a running M1 has an
    accepted speed, the frequency stored for it, and that frequency in its
    timer; a feeding M2 has its velocity times 750 as frequency, that
    frequency in its timer, and its direction pin as its direction flag; a
    stopped motor has frequency 0. *)
Definition outputs_follow_flags (st : state) : Prop :=
  Pwm.pulsing (pwm0 st) = M1.running (m1 st) /\
  Pwm.pulsing (pwm1 st) = M2.in_motion (m2 st) /\
  (M1.rpm (m1 st) = 0 \/ 100 <= M1.rpm (m1 st) <= 6000) /\
  (M1.running (m1 st) = true ->
     100 <= M1.rpm (m1 st) <= 6000 /\
     M1.freq_hz (m1 st) = m1_frequency (M1.rpm (m1 st)) /\
     Pwm.frequency (pwm0 st) = Z.min (M1.rpm (m1 st) * M1_PULSES_PER_REV / 60) 375000) /\
  (M1.running (m1 st) = false -> M1.freq_hz (m1 st) = F64.zero) /\
  (M2.in_motion (m2 st) = true ->
     M2.freq_hz (m2 st) = F64.mul (M2.vel_mm_s (m2 st)) M2_STEPS_PER_MM /\
     Pwm.frequency (pwm1 st) = F64.to_u32 (clamp_freq (M2.freq_hz (m2 st))) /\
     m2_dir_pin st = negb (M2.direction_fwd (m2 st))) /\
  (M2.in_motion (m2 st) = false -> M2.freq_hz (m2 st) = F64.zero).

(** The whole velocities that [m2_set_velocity] accepts, 1 to 400 mm/s. *)
Definition whole_velocities : list Z := map (fun n => 1 + Z.of_nat n) (seq 0 400).

(** What is checked of one whole velocity [v], given as the [float] that
    the dispatcher widens to a [double]: the widening is exact, the range
    test accepts it, it is not the 0 that selects the default, and the
    timer frequency for it is [750 * v]. *)
Definition velocity_check (v : Z) : bool :=
  let x := F64.of_f32 (F32.of_Z v) in
  sf_eqb x (F64.of_Z v)
  && negb (F64.ltb x (F64.of_Z 1)) && negb (F64.ltb (F64.of_Z 400) x)
  && negb (F64.eqb x (F64.of_Z 0))
  && (F64.to_u32 (clamp_freq (F64.mul x M2_STEPS_PER_MM)) =? 750 * v).

(** The first character of the line is none of the command letters. *)
Definition unknown_command (c : ascii) : bool :=
  negb (is_char c "i" "I" || Ascii.eqb c "?" || Ascii.eqb c "1" || Ascii.eqb c "2").

End Axis12.

(** * Properties of the blade and fixture controller *)

Section Axis12Properties.

Import Axis12.

Lemma sendResponse_same_machine (msg : response) (st : state) :
  same_machine st (sendResponse msg st).
Proof. repeat split. Qed.

Lemma m1_set_rpm_rejected (rpm : Z) (st : state) :
  rpm < 100 \/ 6000 < rpm ->
  m1_set_rpm rpm st = sendResponse ERROR_M1_range st.
Proof.
  intros H. unfold m1_set_rpm.
  destruct (rpm <? 100) eqn:E1; [reflexivity|].
  destruct (6000 <? rpm) eqn:E2; [reflexivity|].
  apply Z.ltb_ge in E1. apply Z.ltb_ge in E2. lia.
Qed.

Lemma m1_set_rpm_accepted (rpm : Z) (st : state) :
  100 <= rpm <= 6000 ->
  m1_set_rpm rpm st =
    mkState (M1.mk true rpm (m1_frequency rpm)) (m2 st) (heartbeat_counter st)
            (last_status_ms st)
            (Pwm.mk (F64.to_u32 (clamp_freq (m1_frequency rpm))) PWM_DUTY_CYCLE false)
            (pwm1 st) (m1_dir_pin st) (m2_dir_pin st)
            (out st ++ [M1_RUN rpm (m1_frequency rpm)]).
Proof.
  intros H. unfold m1_set_rpm.
  replace (rpm <? 100) with false by (symmetry; apply Z.ltb_ge; lia).
  replace (6000 <? rpm) with false by (symmetry; apply Z.ltb_ge; lia).
  reflexivity.
Qed.

Lemma m2_set_velocity_rejected (v : F64.t) (st : state) :
  F64.ltb v (F64.of_Z 1) = true \/ F64.ltb (F64.of_Z 400) v = true ->
  m2_set_velocity v st = sendResponse ERROR_M2_range st.
Proof.
  intros [H | H]; unfold m2_set_velocity; rewrite H;
    [reflexivity | now rewrite orb_true_r].
Qed.

Lemma m2_set_velocity_accepted (v : F64.t) (st : state) :
  F64.ltb v (F64.of_Z 1) = false -> F64.ltb (F64.of_Z 400) v = false ->
  M2.vel_mm_s (m2 (m2_set_velocity v st)) = v /\
  M2.in_motion (m2 (m2_set_velocity v st)) = M2.in_motion (m2 st) /\
  M2.direction_fwd (m2 (m2_set_velocity v st)) = M2.direction_fwd (m2 st) /\
  out (m2_set_velocity v st) = out st ++ [M2_VEL_SET v].
Proof.
  intros H1 H2. unfold m2_set_velocity. rewrite H1, H2.
  cbn [orb set_m2 m2 M2.in_motion].
  destruct (M2.in_motion (m2 st)) eqn:E; cbn; rewrite ?E; auto.
Qed.

(** C8.  The two speed commands accept an argument exactly at either bound
    of their range (rpm 100 and 6000 for M1, 1.0 and 400.0 mm/s for M2) and
    answer an argument one unit beyond either bound (99, 6001; 0.0, 401.0),
    as any argument outside the range, with the range error alone: the
    machine state is the one before, no field, frequency or pulse output
    has changed. *)
Theorem speed_bounds (st : state) :
  (forall rpm, rpm = 100 \/ rpm = 6000 ->
     M1.rpm (m1 (m1_set_rpm rpm st)) = rpm /\
     M1.running (m1 (m1_set_rpm rpm st)) = true /\
     out (m1_set_rpm rpm st) = out st ++ [M1_RUN rpm (m1_frequency rpm)]) /\
  (forall rpm, rpm = 99 \/ rpm = 6001 \/ rpm < 100 \/ 6000 < rpm ->
     same_machine st (m1_set_rpm rpm st) /\
     out (m1_set_rpm rpm st) = out st ++ [ERROR_M1_range]) /\
  (forall v, v = F64.of_Z 1 \/ v = F64.of_Z 400 ->
     M2.vel_mm_s (m2 (m2_set_velocity v st)) = v /\
     out (m2_set_velocity v st) = out st ++ [M2_VEL_SET v]) /\
  (forall v, v = F64.of_Z 0 \/ v = F64.of_Z 401 \/
             F64.ltb v (F64.of_Z 1) = true \/ F64.ltb (F64.of_Z 400) v = true ->
     same_machine st (m2_set_velocity v st) /\
     out (m2_set_velocity v st) = out st ++ [ERROR_M2_range]).
Proof.
  split; [|split; [|split]].
  - intros rpm H.
    destruct H; subst; rewrite m1_set_rpm_accepted by lia; repeat split.
  - intros rpm H. rewrite m1_set_rpm_rejected by lia.
    split; [apply sendResponse_same_machine | reflexivity].
  - intros v H.
    destruct H; subst;
      (edestruct m2_set_velocity_accepted as (A & _ & _ & B);
       [| | split; [exact A | exact B]]; reflexivity).
  - intros v H. rewrite m2_set_velocity_rejected.
    + split; [apply sendResponse_same_machine | reflexivity].
    + destruct H as [-> | [-> | [H | H]]]; auto.
Qed.

Lemma speed_bounds_witness :
  same_machine setup (m1_set_rpm 6001 setup) /\
  out (m1_set_rpm 6001 setup) = [ERROR_M1_range] /\
  M1.rpm (m1 (m1_set_rpm 100 setup)) = 100 /\
  same_machine setup (m2_set_velocity (F64.of_Z 401) setup) /\
  M2.vel_mm_s (m2 (m2_set_velocity (F64.of_Z 400) setup)) = F64.of_Z 400.
Proof.
  destruct (speed_bounds setup) as (A & B & C & D).
  destruct (B 6001 (or_intror (or_introl eq_refl))) as [B1 B2].
  destruct (A 100 (or_introl eq_refl)) as [A1 _].
  destruct (D (F64.of_Z 401) (or_intror (or_introl eq_refl))) as [D1 _].
  destruct (C (F64.of_Z 400) (or_intror eq_refl)) as [C1 _].
  repeat split; assumption.
Defined.


(** C9.  A reverse feed asked for while the home sensor is asserted is
    answered with the one error line and nothing else happens: the pulse
    output of M2 is not touched, and the motion flag, direction, velocity
    and frequency are the ones before (so a stopped M2 stays stopped).
    The same holds for the command lines [2b] and [2B] that reach it. *)
Theorem reverse_blocked_at_home (level : bool) (st : state) :
  is_m2_home_active level = true ->
  same_machine st (m2_feed_reverse level st) /\
  out (m2_feed_reverse level st) = out st ++ [ERROR_M2_HOME_ACTIVE] /\
  Pwm.pulsing (pwm1 (m2_feed_reverse level st)) = Pwm.pulsing (pwm1 st) /\
  (M2.in_motion (m2 st) = false ->
   M2.in_motion (m2 (m2_feed_reverse level st)) = false) /\
  (forall l, text l = "2b"%string \/ text l = "2B"%string ->
     same_machine st (processSerialCommand (Some l) level st) /\
     out (processSerialCommand (Some l) level st)
       = out st ++ [CMD (text l); ERROR_M2_HOME_ACTIVE]).
Proof.
  intros H.
  assert (R : m2_feed_reverse level st = sendResponse ERROR_M2_HOME_ACTIVE st)
    by (unfold m2_feed_reverse; now rewrite H).
  rewrite R.
  split; [apply sendResponse_same_machine|].
  split; [reflexivity|]. split; [reflexivity|]. split; [auto|].
  intros l E.
  assert (R' : processSerialCommand (Some l) level st
               = sendResponse ERROR_M2_HOME_ACTIVE (sendResponse (CMD (text l)) st)).
  { unfold processSerialCommand.
    destruct E as [E | E]; rewrite E; cbn -[m2_feed_reverse];
      unfold m2_feed_reverse; now rewrite H. }
  rewrite R'. split; [repeat split|].
  cbn. now rewrite <- app_assoc.
Qed.

Lemma reverse_blocked_at_home_witness :
  same_machine setup (m2_feed_reverse LOW setup) /\
  out (m2_feed_reverse LOW setup) = [ERROR_M2_HOME_ACTIVE] /\
  M2.in_motion (m2 (m2_feed_reverse LOW setup)) = false.
Proof.
  destruct (reverse_blocked_at_home LOW setup eq_refl) as (A & B & _ & C & _).
  split; [exact A | split; [exact B | exact (C eq_refl)]].
Defined.


(** *** The home check of the main loop *)

(** What a command leaves behind for the home check: the output has only
    grown, and M2 either still feeds in reverse or has been stopped by the
    command itself. *)
Definition still_reverse_or_stopped (st st1 : state) : Prop :=
  exists mid,
    out st1 = out st ++ mid /\
    (reverse_in_flight st1 = true \/
     (M2.in_motion (m2 st1) = false /\ Pwm.pulsing (pwm1 st1) = false /\
      In M2_STOPPED mid)).

Lemma m2_stop_stops (st : state) :
  M2.in_motion (m2 (m2_stop st)) = false /\
  Pwm.pulsing (pwm1 (m2_stop st)) = false /\
  out (m2_stop st) = out st ++ [M2_STOPPED].
Proof. repeat split. Qed.

Lemma still_reverse_frame (st st1 : state) (msgs : list response) :
  m2 st1 = m2 st -> out st1 = out st ++ msgs ->
  reverse_in_flight st = true -> still_reverse_or_stopped st st1.
Proof.
  intros Hm Ho Hr. exists msgs. split; [assumption|].
  left. unfold reverse_in_flight in *. now rewrite Hm.
Qed.

Lemma still_reverse_trans (st st1 st2 : state) :
  (exists msgs, out st1 = out st ++ msgs /\ m2 st1 = m2 st /\ pwm1 st1 = pwm1 st) ->
  still_reverse_or_stopped st1 st2 -> still_reverse_or_stopped st st2.
Proof.
  intros (msgs & Ho & _ & _) (mid & Ho2 & H).
  exists (msgs ++ mid). split.
  - now rewrite Ho2, Ho, app_assoc.
  - destruct H as [H | (A & B & C)]; [now left | right].
    repeat split; trivial. apply in_or_app. now right.
Qed.

Lemma m1_set_rpm_frame (rpm : Z) (st : state) :
  m2 (m1_set_rpm rpm st) = m2 st /\
  exists msg, out (m1_set_rpm rpm st) = out st ++ [msg].
Proof.
  unfold m1_set_rpm. destruct ((rpm <? 100) || (6000 <? rpm)).
  - split; [reflexivity | now eexists].
  - split; [reflexivity | now eexists].
Qed.

Lemma m2_feed_reverse_reverse (level : bool) (st : state) :
  reverse_in_flight st = true ->
  reverse_in_flight (m2_feed_reverse level st) = true /\
  exists msg, out (m2_feed_reverse level st) = out st ++ [msg].
Proof.
  intros H. unfold m2_feed_reverse.
  destruct (is_m2_home_active level).
  - split; [exact H | now eexists].
  - split; [reflexivity | now eexists].
Qed.

Lemma m2_set_velocity_reverse (v : F64.t) (st : state) :
  reverse_in_flight st = true ->
  reverse_in_flight (m2_set_velocity v st) = true /\
  exists msg, out (m2_set_velocity v st) = out st ++ [msg].
Proof.
  intros H. unfold m2_set_velocity.
  destruct (F64.ltb v (F64.of_Z 1) || F64.ltb (F64.of_Z 400) v).
  - split; [exact H | now eexists].
  - unfold reverse_in_flight in *.
    cbn [set_m2 m2 M2.in_motion M2.direction_fwd].
    destruct (M2.in_motion (m2 st)) eqn:E; [|discriminate].
    split; [exact H | now eexists].
Qed.

Lemma command_leaves_reverse_or_stopped (serial : option line) (level : bool)
    (st : state) :
  reverse_in_flight st = true -> is_forward_feed serial = false ->
  still_reverse_or_stopped st (processSerialCommand serial level st).
Proof.
  intros Hr Hf.
  assert (Hnil : still_reverse_or_stopped st st).
  { exists []. split; [now rewrite app_nil_r | now left]. }
  destruct serial as [l|]; [|exact Hnil].
  unfold processSerialCommand, is_forward_feed in *.
  destruct (text l) as [|command rest] eqn:Et; [exact Hnil|].
  set (st1 := sendResponse (CMD (String command rest)) st).
  assert (H1 : exists msgs, out st1 = out st ++ msgs /\ m2 st1 = m2 st
                            /\ pwm1 st1 = pwm1 st) by (now eexists).
  assert (Hr1 : reverse_in_flight st1 = true) by exact Hr.
  apply (still_reverse_trans st st1); [exact H1|]. clearbody st1. clear H1 Hr Hnil.
  assert (Hmsg : forall msg,
             still_reverse_or_stopped st1 (sendResponse msg st1)).
  { intros msg. now apply (still_reverse_frame _ _ [msg]). }
  destruct (is_char command "i" "I"); [apply Hmsg|].
  destruct (Ascii.eqb command "?"); [apply Hmsg|].
  destruct (Ascii.eqb command "1").
  { destruct (is_char _ "r" "R").
    - destruct (m1_set_rpm_frame (Int.wrapu16 (toInt l)) st1) as (A & msg & B).
      now apply (still_reverse_frame _ _ [msg]).
    - destruct (is_char _ "s" "S"); [|apply Hmsg].
      now apply (still_reverse_frame _ _ [M1_STOPPED]). }
  destruct (Ascii.eqb command "2"); [|apply Hmsg].
  cbn [andb] in Hf. rewrite Hf.
  destruct (is_char _ "b" "B").
  { destruct (m2_feed_reverse_reverse level st1 Hr1) as (A & msg & B).
    exists [msg]. split; [exact B | now left]. }
  destruct (is_char _ "s" "S").
  { exists [M2_STOPPED]. split; [reflexivity|]. right.
    repeat split. now left. }
  destruct (is_char _ "v" "V"); [|apply Hmsg].
  destruct (m2_set_velocity_reverse (F64.of_f32 (toFloat l)) st1 Hr1) as (A & msg & B).
  exists [msg]. split; [exact B | now left].
Qed.

Lemma loop_heartbeat_frame (i : loop_input) (st : state) :
  m2 (loop i st)
    = m2 (m2_check_home_stop (home_at_check i)
            (processSerialCommand (serial i) (home_at_command i) st)) /\
  pwm1 (loop i st)
    = pwm1 (m2_check_home_stop (home_at_check i)
              (processSerialCommand (serial i) (home_at_command i) st)) /\
  out (loop i st)
    = out (m2_check_home_stop (home_at_check i)
             (processSerialCommand (serial i) (home_at_command i) st)).
Proof.
  unfold loop.
  destruct (100 <=? _); repeat split.
Qed.

Lemma m2_check_home_stop_safe (level : bool) (st : state) :
  reverse_in_flight (m2_check_home_stop level st) && is_m2_home_active level = false.
Proof.
  unfold m2_check_home_stop, reverse_in_flight.
  destruct (M2.in_motion (m2 st)) eqn:E1, (M2.direction_fwd (m2 st)) eqn:E2,
           (is_m2_home_active level) eqn:E3;
    cbn; rewrite ?E1, ?E2; reflexivity.
Qed.

(** C10, as the code has it.  After every pass of the main loop M2 is not
    at once in motion, in reverse and at an asserted home sensor (the
    sensor as the home check of that pass read it).  A pass that starts
    with a reverse feed in flight and whose home check reads the sensor
    asserted ends with the pulse output of M2 off, the motion flag
    cleared and the stopped line written, provided the command of that
    pass, if any, is not a forward feed. *)
Theorem home_stop_each_pass (i : loop_input) (st : state) :
  reverse_in_flight (loop i st) && is_m2_home_active (home_at_check i) = false /\
  (reverse_in_flight st = true ->
   is_m2_home_active (home_at_check i) = true ->
   is_forward_feed (serial i) = false ->
   M2.in_motion (m2 (loop i st)) = false /\
   Pwm.pulsing (pwm1 (loop i st)) = false /\
   exists mid, out (loop i st) = out st ++ mid /\ In M2_STOPPED mid).
Proof.
  destruct (loop_heartbeat_frame i st) as (Em & Ep & Eo).
  split.
  - unfold reverse_in_flight. rewrite Em. apply m2_check_home_stop_safe.
  - intros Hr Hh Hf. rewrite Em, Ep, Eo.
    destruct (command_leaves_reverse_or_stopped (serial i) (home_at_command i) st Hr Hf)
      as (mid & Ho & H).
    set (st1 := processSerialCommand (serial i) (home_at_command i) st) in *.
    unfold m2_check_home_stop. destruct H as [H | (A & B & C)].
    + unfold reverse_in_flight in H. rewrite H, Hh. cbn [andb].
      repeat split. exists (mid ++ [M2_STOPPED]). split.
      * cbn. now rewrite Ho, app_assoc.
      * apply in_or_app. right. now left.
    + rewrite A. cbn [andb]. repeat split; trivial. now exists mid.
Qed.

Lemma home_stop_each_pass_witness :
  let st := m2_feed_reverse HIGH setup in
  let i := mkLoopInput None HIGH LOW 5 in
  M2.in_motion (m2 (loop i st)) = false /\
  Pwm.pulsing (pwm1 (loop i st)) = false /\
  exists mid, out (loop i st) = out st ++ mid /\ In M2_STOPPED mid.
Proof.
  exact (proj2 (home_stop_each_pass (mkLoopInput None HIGH LOW 5)
                  (m2_feed_reverse HIGH setup)) eq_refl eq_refl eq_refl).
Defined.

(** C10 as the claim puts it fails when the pass that sees the sensor
    asserted first processes a forward feed: the feed turns around and
    goes on, nothing is stopped. *)
Lemma home_stop_forward_counterexample :
  let st := m2_feed_reverse HIGH setup in
  let i := mkLoopInput (Some (mkLine "2f" 0 F32.zero)) LOW LOW 5 in
  reverse_in_flight st = true /\
  is_m2_home_active (home_at_command i) = true /\
  is_m2_home_active (home_at_check i) = true /\
  ~ (M2.in_motion (m2 (loop i st)) = false /\
     Pwm.pulsing (pwm1 (loop i st)) = false /\
     In M2_STOPPED (out (loop i st))).
Proof.
  cbv zeta. repeat split.
  intros (H & _). vm_compute in H. discriminate H.
Qed.


(** *** The frequency of M1 *)

Lemma sf_eqb_eq (x y : spec_float) : sf_eqb x y = true -> x = y.
Proof.
  destruct x, y; cbn; try discriminate; intros H.
  - now apply eqb_prop in H; subst.
  - now apply eqb_prop in H; subst.
  - reflexivity.
  - apply andb_prop in H. destruct H as [H E]. apply andb_prop in H.
    destruct H as [S M]. apply eqb_prop in S. apply Pos.eqb_eq in M.
    apply Z.eqb_eq in E. now subst.
Qed.

Lemma accepted_rpms_complete (rpm : Z) :
  100 <= rpm <= 6000 -> In rpm accepted_rpms.
Proof.
  intros H. unfold accepted_rpms.
  replace rpm with (100 + Z.of_nat (Z.to_nat (rpm - 100))) by lia.
  apply (in_map (fun n => 100 + Z.of_nat n)), in_seq. lia.
Qed.

Lemma rpm_check_all : forallb rpm_check accepted_rpms = true.
Proof. vm_compute. reflexivity. Qed.

Lemma rpm_check_accepted (rpm : Z) : 100 <= rpm <= 6000 -> rpm_check rpm = true.
Proof.
  intros H. apply (proj1 (forallb_forall rpm_check accepted_rpms) rpm_check_all).
  now apply accepted_rpms_complete.
Qed.

(** C7, as the code has it.  For every accepted speed, 100 to 6000 rpm,
    the stored frequency is rpm * 22333 / 60 computed in double precision
    and capped at 375000.0 (the lower bound 1.0 is never reached: the
    clamp of the driver call changes nothing); it is the cap exactly from
    1008 rpm on.  The response line reports the speed and this stored
    frequency.  The frequency programmed into the timer is its integer
    part, the integer part of rpm * 22333 / 60 capped at 375000, and the
    pulse train of M1 is on. *)
Theorem m1_frequency_programmed (rpm : Z) (st : state) :
  100 <= rpm <= 6000 ->
  let st' := m1_set_rpm rpm st in
  let f0 := F64.div (F64.mul (F64.of_Z rpm) (F64.of_Z M1_PULSES_PER_REV)) (F64.of_Z 60) in
  let hz := Z.min (rpm * M1_PULSES_PER_REV / 60) 375000 in
  M1.rpm (m1 st') = rpm /\
  M1.running (m1 st') = true /\
  M1.freq_hz (m1 st') = (if F64.ltb MAX_FREQ_HZ f0 then MAX_FREQ_HZ else f0) /\
  clamp_freq (M1.freq_hz (m1 st')) = M1.freq_hz (m1 st') /\
  (M1.freq_hz (m1 st') = MAX_FREQ_HZ <-> 1008 <= rpm) /\
  F64.leb (F64.of_Z hz) (M1.freq_hz (m1 st')) = true /\
  F64.ltb (M1.freq_hz (m1 st')) (F64.of_Z (hz + 1)) = true /\
  out st' = out st ++ [M1_RUN rpm (M1.freq_hz (m1 st'))] /\
  Pwm.frequency (pwm0 st') = hz /\
  Pwm.pulsing (pwm0 st') = true.
Proof.
  intros H st' f0 hz. subst st'.
  rewrite (m1_set_rpm_accepted rpm st H).
  cbn [m1 M1.rpm M1.running M1.freq_hz out pwm0 Pwm.frequency].
  pose proof (rpm_check_accepted rpm H) as C. unfold rpm_check in C.
  repeat (apply andb_prop in C; let C' := fresh "C" in destruct C as [C C']).
  fold hz in C, C0, C1, C2, C3, C4.
  apply sf_eqb_eq in C. apply Z.eqb_eq in C4. apply eqb_prop in C1.
  repeat split; try assumption; try reflexivity.
  - intros E. rewrite E in C1. change (sf_eqb MAX_FREQ_HZ MAX_FREQ_HZ) with true in C1.
    symmetry in C1. now apply Z.leb_le in C1.
  - intros E. apply Z.leb_le in E. rewrite E in C1. now apply sf_eqb_eq.
Qed.

Lemma m1_frequency_programmed_witness :
  M1.rpm (m1 (m1_set_rpm 3500 setup)) = 3500 /\
  M1.freq_hz (m1 (m1_set_rpm 3500 setup)) = MAX_FREQ_HZ /\
  out (m1_set_rpm 3500 setup) = [M1_RUN 3500 MAX_FREQ_HZ] /\
  Pwm.frequency (pwm0 (m1_set_rpm 3500 setup)) = 375000.
Proof.
  destruct (m1_frequency_programmed 3500 setup ltac:(lia))
    as (A & _ & _ & _ & B & _ & _ & C & D & _).
  split; [exact A|]. split; [apply B; lia|].
  split; [rewrite C; rewrite (proj2 B) by lia; reflexivity | exact D].
Defined.

(** C7 as the claim puts it fails below 1008 rpm wherever
    rpm * 22333 / 60 is not a whole number: at 100 rpm the timer is given
    37221 Hz, which is neither rpm * 22333 / 60 nor the frequency that is
    stored and reported. *)
Lemma m1_frequency_truncated_counterexample :
  let st' := m1_set_rpm 100 setup in
  Pwm.frequency (pwm0 st') = 37221 /\
  60 * Pwm.frequency (pwm0 st') <> 100 * M1_PULSES_PER_REV /\
  F64.of_Z (Pwm.frequency (pwm0 st')) <> M1.freq_hz (m1 st') /\
  F64.eqb (F64.of_Z (Pwm.frequency (pwm0 st'))) (M1.freq_hz (m1 st')) = false.
Proof.
  cbv zeta. split; [reflexivity|]. split; [|split].
  - vm_compute. discriminate.
  - vm_compute. discriminate.
  - vm_compute. reflexivity.
Qed.

End Axis12Properties.

(** * Properties of the positioning axis *)

Section BackstopProperties.

Import Int Backstop.

Lemma wrap32_small (z : Z) : in_i32 z -> wrap32 z = z.
Proof.
  unfold in_i32, INT32_MIN, INT32_MAX, wrap32. intros H.
  rewrite Z.mod_small; lia.
Qed.

(** *** The quadrature decoder *)

Lemma ab_state_range (a b : bool) : 0 <= ab_state a b <= 3.
Proof. destruct a, b; vm_compute; split; discriminate. Qed.

Lemma handleEncoderChange_spec (a b : bool) (st : state) :
  Encoder.counts (encoder (handleEncoderChange a b st))
    = wrap32 (Encoder.counts (encoder st)
              + quad_delta (Encoder.last_ab (encoder st)) (ab_state a b)) /\
  Encoder.last_ab (encoder (handleEncoderChange a b st)) = ab_state a b.
Proof. split; reflexivity. Qed.

Lemma two_bits (z : Z) : 0 <= z <= 3 -> z = 0 \/ z = 1 \/ z = 2 \/ z = 3.
Proof. lia. Qed.

Lemma quad_delta_cases (d : rotation) (prev curr : Z) :
  0 <= prev <= 3 -> 0 <= curr <= 3 ->
  (valid_edge d prev curr = true -> quad_delta prev curr = sign d) /\
  (out_of_sequence prev curr = true -> quad_delta prev curr = 0) /\
  (quad_delta prev curr = -1 \/ quad_delta prev curr = 0 \/ quad_delta prev curr = 1).
Proof.
  intros Hp Hc.
  destruct (two_bits prev Hp) as [-> | [-> | [-> | ->]]];
    destruct (two_bits curr Hc) as [-> | [-> | [-> | ->]]];
    destruct d; vm_compute; repeat split; intros; try discriminate; auto.
Qed.

Lemma quad_delta_bounds (prev curr : Z) :
  0 <= prev <= 3 -> 0 <= curr <= 3 -> -1 <= quad_delta prev curr <= 1.
Proof.
  intros Hp Hc. destruct (quad_delta_cases Up prev curr Hp Hc) as (_ & _ & H). lia.
Qed.

Lemma edge_step (d : rotation) (a b : bool) (st : state) :
  0 <= Encoder.last_ab (encoder st) <= 3 ->
  in_i32 (Encoder.counts (encoder st) - 1) ->
  in_i32 (Encoder.counts (encoder st) + 1) ->
  let prev := Encoder.last_ab (encoder st) in
  let st' := handleEncoderChange a b st in
  Encoder.counts (encoder st')
    = Encoder.counts (encoder st) + quad_delta prev (ab_state a b) /\
  (valid_edge d prev (ab_state a b) = true ->
     Encoder.counts (encoder st') = Encoder.counts (encoder st) + sign d) /\
  (out_of_sequence prev (ab_state a b) = true ->
     Encoder.counts (encoder st') = Encoder.counts (encoder st)).
Proof.
  intros Hp Hlo Hhi prev st'.
  destruct (handleEncoderChange_spec a b st) as [Hc _]. fold st' in Hc. fold prev in Hc.
  pose proof (quad_delta_bounds prev (ab_state a b) Hp (ab_state_range a b)) as Hb.
  destruct (quad_delta_cases d prev (ab_state a b) Hp (ab_state_range a b)) as (Hv & Ho & _).
  assert (E : Encoder.counts (encoder st')
              = Encoder.counts (encoder st) + quad_delta prev (ab_state a b)).
  { rewrite Hc. apply wrap32_small. unfold in_i32 in *. lia. }
  split; [exact E|]. split; intros H.
  - rewrite E, (Hv H). reflexivity.
  - rewrite E, (Ho H). lia.
Qed.

Lemma decode_invariant (d : rotation) (es : list (bool * bool)) :
  forall st,
    0 <= Encoder.last_ab (encoder st) <= 3 ->
    single_direction d (Encoder.last_ab (encoder st)) es = true ->
    in_i32 (Encoder.counts (encoder st) - Z.of_nat (List.length es)) ->
    in_i32 (Encoder.counts (encoder st) + Z.of_nat (List.length es)) ->
    0 <= Encoder.last_ab (encoder (decode es st)) <= 3 /\
    Encoder.counts (encoder (decode es st))
      = Encoder.counts (encoder st)
        + sign d * valid_edges d (Encoder.last_ab (encoder st)) es /\
    0 <= valid_edges d (Encoder.last_ab (encoder st)) es <= Z.of_nat (List.length es).
Proof.
  induction es as [|[a b] tl IH]; intros st Hp Hs Hlo Hhi.
  - cbn. repeat split; lia.
  - cbn [single_direction] in Hs. apply andb_prop in Hs. destruct Hs as [Hk Hs].
    cbn [List.length] in Hlo, Hhi. rewrite Nat2Z.inj_succ in Hlo, Hhi.
    unfold in_i32 in *.
    destruct (edge_step d a b st Hp) as (_ & Hv & Ho);
      [unfold in_i32; lia | unfold in_i32; lia |].
    destruct (handleEncoderChange_spec a b st) as [_ Hab].
    set (st1 := handleEncoderChange a b st) in *.
    assert (Hc1 : Encoder.counts (encoder st1)
                  = Encoder.counts (encoder st)
                    + sign d * (if valid_edge d (Encoder.last_ab (encoder st)) (ab_state a b)
                                then 1 else 0)).
    { destruct (valid_edge d _ _) eqn:E.
      - rewrite (Hv eq_refl). lia.
      - cbn [orb] in Hk. rewrite (Ho Hk). lia. }
    assert (Hd : -1 <= sign d <= 1) by (destruct d; cbn; lia).
    assert (Hk01 : 0 <= (if valid_edge d (Encoder.last_ab (encoder st)) (ab_state a b)
                         then 1 else 0) <= 1) by (destruct (valid_edge d _ _); lia).
    destruct (IH st1) as (Hp' & Hc' & Hn').
    + rewrite Hab. apply ab_state_range.
    + rewrite Hab. exact Hs.
    + rewrite Hc1. nia.
    + rewrite Hc1. nia.
    + change (decode ((a, b) :: tl) st) with (decode tl st1).
      cbn [valid_edges List.length]. rewrite Nat2Z.inj_succ.
      rewrite Hab in Hc', Hn'.
      split; [exact Hp'|]. split; [rewrite Hc', Hc1; ring | lia].
Qed.

Lemma single_direction_app (d : rotation) (es1 es2 : list (bool * bool)) :
  forall st,
    single_direction d (Encoder.last_ab (encoder st)) (es1 ++ es2) = true ->
    single_direction d (Encoder.last_ab (encoder st)) es1 = true /\
    single_direction d (Encoder.last_ab (encoder (decode es1 st))) es2 = true.
Proof.
  induction es1 as [|[a b] tl IH]; intros st H.
  - split; [reflexivity | exact H].
  - cbn [app single_direction] in *. apply andb_prop in H. destruct H as [Hk H].
    destruct (handleEncoderChange_spec a b st) as [_ Hab].
    rewrite <- Hab in H. destruct (IH _ H) as [H1 H2].
    rewrite Hk. cbn [andb]. rewrite <- Hab. split; assumption.
Qed.


(** C2.  An encoder edge adds to the raw count the entry of the 16-entry
    table at (previous state << 2) | current state; the entries are -1, 0
    and 1; a transition in which both channels or none changed reads 0.
    Along a sequence of edges each of which is a valid edge of one
    direction of rotation or such an out-of-sequence transition, the count
    moves by exactly one, always the same way, on each valid edge and not
    at all on the others; at the end it has moved by the number of valid
    edges.  The count is a 32-bit integer: the sums are taken as long as
    they do not overflow. *)
Theorem quadrature_decoder :
  List.length quad_table = 16%nat /\
  Forall (fun x => x = -1 \/ x = 0 \/ x = 1) quad_table /\
  (forall a b st,
     Encoder.counts (encoder (handleEncoderChange a b st))
       = wrap32 (Encoder.counts (encoder st)
                 + nth (Z.to_nat (wrapu8 (Z.lor (Z.shiftl (Encoder.last_ab (encoder st)) 2)
                                                (ab_state a b))))
                       quad_table 0) /\
     Encoder.last_ab (encoder (handleEncoderChange a b st)) = ab_state a b) /\
  (forall a b st,
     0 <= Encoder.last_ab (encoder st) <= 3 ->
     in_i32 (Encoder.counts (encoder st) - 1) ->
     in_i32 (Encoder.counts (encoder st) + 1) ->
     Encoder.counts (encoder (handleEncoderChange a b st))
       = Encoder.counts (encoder st)
         + quad_delta (Encoder.last_ab (encoder st)) (ab_state a b)) /\
  (forall prev curr,
     0 <= prev <= 3 -> 0 <= curr <= 3 ->
     out_of_sequence prev curr = true -> quad_delta prev curr = 0) /\
  (forall d es st,
     0 <= Encoder.last_ab (encoder st) <= 3 ->
     single_direction d (Encoder.last_ab (encoder st)) es = true ->
     in_i32 (Encoder.counts (encoder st) - Z.of_nat (List.length es)) ->
     in_i32 (Encoder.counts (encoder st) + Z.of_nat (List.length es)) ->
     Encoder.counts (encoder (decode es st))
       = Encoder.counts (encoder st)
         + sign d * valid_edges d (Encoder.last_ab (encoder st)) es /\
     forall es1 a b es2,
       es = es1 ++ (a, b) :: es2 ->
       let s1 := decode es1 st in
       let s2 := handleEncoderChange a b s1 in
       (valid_edge d (Encoder.last_ab (encoder s1)) (ab_state a b) = true /\
        Encoder.counts (encoder s2) = Encoder.counts (encoder s1) + sign d) \/
       (out_of_sequence (Encoder.last_ab (encoder s1)) (ab_state a b) = true /\
        Encoder.counts (encoder s2) = Encoder.counts (encoder s1))).
Proof.
  split; [reflexivity|].
  split; [unfold quad_table; repeat (apply Forall_cons; [lia|]); apply Forall_nil|].
  split; [intros; split; reflexivity|].
  split; [intros a b st Hp Hlo Hhi; apply (edge_step Up a b st Hp Hlo Hhi)|].
  split; [intros prev curr Hp Hc; apply (quad_delta_cases Up prev curr Hp Hc)|].
  intros d es st Hp Hs Hlo Hhi.
  split; [apply (decode_invariant d es st Hp Hs Hlo Hhi)|].
  intros es1 a b es2 -> s1 s2.
  destruct (single_direction_app d es1 ((a, b) :: es2) st Hs) as [H1 H2].
  rewrite length_app in Hlo, Hhi. cbn [List.length] in Hlo, Hhi.
  rewrite Nat2Z.inj_add, Nat2Z.inj_succ in Hlo, Hhi.
  assert (Hd : -1 <= sign d <= 1) by (destruct d; cbn; lia).
  destruct (decode_invariant d es1 st Hp H1) as (Hp1 & Hc1 & Hn1);
    [unfold in_i32 in *; lia | unfold in_i32 in *; lia |].
  fold s1 in Hp1, Hc1, H2.
  cbn [single_direction] in H2. apply andb_prop in H2. destruct H2 as [Hk _].
  destruct (edge_step d a b s1 Hp1) as (_ & Hv & Ho);
    [unfold in_i32 in *; nia | unfold in_i32 in *; nia |].
  apply orb_prop in Hk. destruct Hk as [Hk | Hk]; [left | right]; auto.
Qed.

Lemma quadrature_decoder_witness :
  let st := setup (mkSetupInput false false true 0 0) in
  let es := [(true, false); (true, true); (false, false); (true, false);
             (true, false)] in
  Encoder.counts (encoder (decode es st)) = 3.
Proof.
  destruct quadrature_decoder as (_ & _ & _ & _ & _ & H).
  destruct (H Up [(true, false); (true, true); (false, false); (true, false);
                  (true, false)]
              (setup (mkSetupInput false false true 0 0))) as [E _].
  - vm_compute. split; discriminate.
  - reflexivity.
  - vm_compute. split; discriminate.
  - vm_compute. split; discriminate.
  - exact E.
Defined.


(** *** The timer routine *)

Lemma TOLERANCE_STEPS_value : TOLERANCE_STEPS = 8.
Proof. vm_compute. reflexivity. Qed.

Lemma abs32_error (m : Motor.t) :
  tick_defined m ->
  abs32 (wrap32 (Motor.target_steps m - Motor.current_steps m))
    = Z.abs (Motor.target_steps m - Motor.current_steps m).
Proof.
  intros (_ & _ & H & _). unfold abs32.
  rewrite (wrap32_small (_ - _)) by (unfold in_i32, INT32_MIN, INT32_MAX in *; lia).
  apply wrap32_small. unfold in_i32, INT32_MIN, INT32_MAX in *. lia.
Qed.

Lemma onTimer_idle (st : state) :
  Motor.in_motion (motor st) = false -> onTimer st = st.
Proof. intros H. unfold onTimer. now rewrite H. Qed.

Lemma onTimer_arrived (st : state) :
  Motor.in_motion (motor st) = true -> tick_defined (motor st) ->
  Z.abs (Motor.target_steps (motor st) - Motor.current_steps (motor st))
    <= TOLERANCE_STEPS ->
  onTimer st
    = digitalWrite M3_STEP_PIN LOW
        (upd_motor (Motor.set_motion_complete_flag true)
           (upd_motor (Motor.set_in_motion false) st)).
Proof.
  intros Hm Hd He. unfold onTimer. rewrite Hm, (abs32_error _ Hd).
  now rewrite (proj2 (Z.leb_le _ _) He).
Qed.

Lemma onTimer_rising (st : state) :
  Motor.in_motion (motor st) = true -> tick_defined (motor st) ->
  TOLERANCE_STEPS
    < Z.abs (Motor.target_steps (motor st) - Motor.current_steps (motor st)) ->
  Motor.step_pin_state (motor st) = false ->
  onTimer st
    = upd_motor (Motor.set_pulse_counter 0)
        (upd_motor (Motor.set_step_pin_state true)
           (digitalWrite M3_STEP_PIN HIGH st)).
Proof.
  intros Hm Hd He Hs. unfold onTimer. rewrite Hm, (abs32_error _ Hd), Hs.
  now rewrite (proj2 (Z.leb_gt _ _) He).
Qed.

Lemma onTimer_falling (st : state) :
  Motor.in_motion (motor st) = true -> tick_defined (motor st) ->
  TOLERANCE_STEPS
    < Z.abs (Motor.target_steps (motor st) - Motor.current_steps (motor st)) ->
  Motor.step_pin_state (motor st) = true ->
  step_pin (onTimer st) = LOW /\
  Motor.step_pin_state (motor (onTimer st)) = false /\
  Motor.in_motion (motor (onTimer st)) = true /\
  Motor.target_steps (motor (onTimer st)) = Motor.target_steps (motor st) /\
  Motor.motion_complete_flag (motor (onTimer st))
    = Motor.motion_complete_flag (motor st) /\
  Motor.direction (motor (onTimer st)) = Motor.direction (motor st) /\
  Motor.current_steps (motor (onTimer st))
    = if Motor.direction (motor st)
      then Motor.current_steps (motor st) + 1
      else Motor.current_steps (motor st) - 1.
Proof.
  intros Hm Hd He Hs. unfold onTimer. rewrite Hm, (abs32_error _ Hd), Hs.
  rewrite (proj2 (Z.leb_gt _ _) He). cbn [negb].
  destruct Hd as (_ & _ & _ & Hu & Hl & Hp).
  assert (Ep : wrapu32 (Motor.pulse_counter (motor st) + 1)
               = Motor.pulse_counter (motor st) + 1).
  { unfold wrapu32. apply Z.mod_small. unfold UINT32_MAX in Hp. lia. }
  rewrite Ep. replace (1 <=? Motor.pulse_counter (motor st) + 1) with true
    by (symmetry; apply Z.leb_le; lia).
  cbn. destruct (Motor.direction (motor st)) eqn:Ed; cbn; rewrite ?Hm, ?Ed;
    repeat split; trivial; now apply wrap32_small.
Qed.

(** C1.  A tick with [in_motion] false changes nothing.  A tick with
    [in_motion] true and the step error within the tolerance (8 steps)
    clears [in_motion], drives the step output low, raises the
    motion-complete flag and leaves the step counter alone.  Otherwise the
    tick is one phase of a pulse: with the pulse state low it drives the
    output high and counts nothing; with the pulse state high it drives the
    output low and moves the step counter by exactly one, up when the
    direction is forward and down when it is reverse.  From the low phase,
    two ticks make one whole pulse.  The integers are 32-bit: the statement
    is for ticks on which none overflows. *)
Theorem onTimer_tick (st : state) :
  let m := motor st in
  let error_steps := Motor.target_steps m - Motor.current_steps m in
  TOLERANCE_STEPS = 8 /\
  (Motor.in_motion m = false -> onTimer st = st) /\
  (Motor.in_motion m = true -> tick_defined m ->
     (Z.abs error_steps <= TOLERANCE_STEPS ->
        Motor.in_motion (motor (onTimer st)) = false /\
        step_pin (onTimer st) = LOW /\
        Motor.motion_complete_flag (motor (onTimer st)) = true /\
        Motor.current_steps (motor (onTimer st)) = Motor.current_steps m /\
        Motor.target_steps (motor (onTimer st)) = Motor.target_steps m) /\
     (TOLERANCE_STEPS < Z.abs error_steps ->
        Motor.in_motion (motor (onTimer st)) = true /\
        Motor.motion_complete_flag (motor (onTimer st))
          = Motor.motion_complete_flag m /\
        Motor.target_steps (motor (onTimer st)) = Motor.target_steps m /\
        (Motor.step_pin_state m = false ->
           step_pin (onTimer st) = HIGH /\
           Motor.step_pin_state (motor (onTimer st)) = true /\
           Motor.current_steps (motor (onTimer st)) = Motor.current_steps m /\
           step_pin (onTimer (onTimer st)) = LOW /\
           Motor.step_pin_state (motor (onTimer (onTimer st))) = false /\
           Motor.current_steps (motor (onTimer (onTimer st)))
             = (if Motor.direction m then Motor.current_steps m + 1
                else Motor.current_steps m - 1)) /\
        (Motor.step_pin_state m = true ->
           step_pin (onTimer st) = LOW /\
           Motor.step_pin_state (motor (onTimer st)) = false /\
           Motor.current_steps (motor (onTimer st))
             = (if Motor.direction m then Motor.current_steps m + 1
                else Motor.current_steps m - 1)))).
Proof.
  intros m error_steps. subst m error_steps.
  split; [exact TOLERANCE_STEPS_value|].
  split; [apply onTimer_idle|].
  intros Hm Hd. split; intros He.
  - rewrite (onTimer_arrived st Hm Hd He). repeat split.
  - assert (Hf : Motor.step_pin_state (motor st) = true ->
                 step_pin (onTimer st) = LOW /\
                 Motor.step_pin_state (motor (onTimer st)) = false /\
                 Motor.current_steps (motor (onTimer st))
                 = (if Motor.direction (motor st)
                    then Motor.current_steps (motor st) + 1
                    else Motor.current_steps (motor st) - 1)).
    { intros Hs. destruct (onTimer_falling st Hm Hd He Hs) as (A & B & _ & _ & _ & _ & C).
      auto. }
    destruct (Motor.step_pin_state (motor st)) eqn:Hs.
    + destruct (onTimer_falling st Hm Hd He Hs) as (A & B & C & D & E & _ & F).
      repeat split; trivial; try discriminate; apply Hf; reflexivity.
    + rewrite (onTimer_rising st Hm Hd He Hs).
      set (st1 := upd_motor (Motor.set_pulse_counter 0)
                    (upd_motor (Motor.set_step_pin_state true)
                       (digitalWrite M3_STEP_PIN HIGH st))).
      assert (Hd1 : tick_defined (motor st1)).
      { destruct Hd as (A & B & C & D & E & F). repeat split; try apply A;
          try apply B; try apply C; try apply D; try apply E; cbn;
          unfold UINT32_MAX; lia. }
      destruct (onTimer_falling st1 Hm Hd1 He eq_refl) as (A & B & _ & _ & _ & _ & F).
      repeat split; trivial; try discriminate.
Qed.

Lemma onTimer_tick_witness :
  let st := run [command_pass 10 (mkLine "g1.0" (F32.lit 10 1))]
                (setup (mkSetupInput false false true 0 0)) in
  step_pin (onTimer st) = HIGH /\
  step_pin (onTimer (onTimer st)) = LOW /\
  Motor.current_steps (motor (onTimer (onTimer st))) = 1.
Proof.
  cbv zeta.
  set (st := run [command_pass 10 (mkLine "g1.0" (F32.lit 10 1))]
                 (setup (mkSetupInput false false true 0 0))).
  destruct (onTimer_tick st) as (_ & _ & H).
  assert (Hd : tick_defined (motor st))
    by (vm_compute; repeat split; discriminate).
  destruct (H eq_refl Hd) as (_ & H2).
  assert (He : TOLERANCE_STEPS
               < Z.abs (Motor.target_steps (motor st) - Motor.current_steps (motor st)))
    by (vm_compute; reflexivity).
  destruct (H2 He) as (_ & _ & _ & H3 & _).
  destruct (H3 eq_refl) as (A & _ & _ & B & _ & C).
  split; [exact A | split; [exact B | exact C]].
Defined.


(** *** Stop and home *)

Lemma run_reachable (i : setup_input) (xs : list input) : reachable (run xs (setup i)).
Proof. now exists i, xs. Qed.

Lemma stop_spec (st : state) :
  stop st = sendResponse (stop_response st) (upd_motor (Motor.set_in_motion false) st).
Proof.
  unfold stop, stop_response. cbn [upd_motor encoder motor Motor.set_in_motion
    Motor.current_steps].
  destruct (Encoder.detected (encoder st)); reflexivity.
Qed.

(** C5 on the code.  After [g1.0], one timer tick (the rising edge of the
    first pulse) and [s], the axis is reachable, out of motion, and its step
    output is still high: [stop] clears [in_motion] and writes no pin.  No
    tick changes that state any more. *)
Theorem stop_leaves_step_output_high :
  let st := run [command_pass 10 (mkLine "g1.0" (F32.lit 10 1)); Tick;
                 command_pass 20 (mkLine "s" F32.zero)]
                (setup (mkSetupInput false false true 0 0)) in
  reachable st /\
  Motor.in_motion (motor st) = false /\
  step_pin st = HIGH /\
  onTimer st = st /\
  (forall st0, step_pin (stop st0) = step_pin st0).
Proof.
  cbv zeta. split; [apply run_reachable|].
  split; [vm_compute; reflexivity|].
  split; [vm_compute; reflexivity|].
  split; [apply onTimer_idle; vm_compute; reflexivity|].
  intros st0. rewrite stop_spec. reflexivity.
Qed.

Lemma home_spec (st : state) :
  let st' := home st in
  Motor.current_steps (motor st')
    = (if Encoder.detected (encoder st)
       then F32.to_i32 (F32.mul (Encoder.position_in (encoder st)) STEPS_PER_IN)
       else 0) /\
  Motor.target_steps (motor st') = 0 /\
  Motor.target_position_in (motor st') = F32.zero /\
  Motor.in_motion (motor st') = false /\
  Encoder.counts (encoder st') = 0 /\
  Encoder.position_in (encoder st') = F32.zero /\
  trace st' = trace st ++ [Serial ENCODER_RESET; Serial HOMED].
Proof.
  unfold home, syncMotorStepsWithEncoder.
  generalize STEPS_PER_IN. intros spi.
  destruct st as [e m rb ls sp dp ta tr].
  cbn [upd_motor encoder motor Encoder.detected].
  generalize (F32.mul (Encoder.position_in e) spi). intros x.
  destruct (Encoder.detected e); cbn [negb];
    (split; [reflexivity|]); (split; [reflexivity|]); (split; [reflexivity|]);
    (split; [reflexivity|]); (split; [reflexivity|]); (split; [reflexivity|]);
    cbn; now rewrite <- app_assoc.
Qed.

(** C6 on the code.  With the encoder two quadrature cycles (8 counts)
    away from zero, [h] leaves the open-loop step counter at 32, the
    encoder position converted to steps, not at 0: [home] zeroes the
    counter and then synchronises it with the encoder position before the
    encoder is reset.  The encoder, the targets and the motion flag are
    reset and HOMED is written. *)
Theorem home_keeps_encoder_steps :
  let st := run (cycle_up ++ cycle_up ++
                 [idle_pass 10; command_pass 20 (mkLine "h" F32.zero)])
                (setup (mkSetupInput false false true 0 0)) in
  reachable st /\
  Motor.current_steps (motor st) = 32 /\
  Motor.target_steps (motor st) = 0 /\
  Motor.in_motion (motor st) = false /\
  Encoder.counts (encoder st) = 0 /\
  Encoder.position_in (encoder st) = F32.zero /\
  In (Serial HOMED) (trace st).
Proof.
  cbv zeta. split; [apply run_reachable|].
  vm_compute. repeat split. auto 10.
Qed.


(** *** Rounding of a binary32 product *)

Lemma digits2_pos_bounds (p : positive) :
  2 ^ (Zpos (digits2_pos p) - 1) <= Zpos p < 2 ^ Zpos (digits2_pos p).
Proof.
  induction p as [p IH | p IH |]; cbn [digits2_pos].
  - rewrite Pos2Z.inj_succ.
    replace (Z.succ (Zpos (digits2_pos p)) - 1) with (Z.succ (Zpos (digits2_pos p) - 1)) by lia.
    rewrite !Z.pow_succ_r by lia. lia.
  - rewrite Pos2Z.inj_succ.
    replace (Z.succ (Zpos (digits2_pos p)) - 1) with (Z.succ (Zpos (digits2_pos p) - 1)) by lia.
    rewrite !Z.pow_succ_r by lia. lia.
  - cbn. lia.
Qed.

Lemma digits2_pos_unique (p : positive) (k : Z) :
  2 ^ (k - 1) <= Zpos p < 2 ^ k -> Zpos (digits2_pos p) = k.
Proof.
  intros [Hl Hu]. pose proof (digits2_pos_bounds p) as [Bl Bu].
  assert (Hk : 0 < k).
  { destruct (Z_lt_le_dec 0 k) as [|Hk]; [assumption|].
    destruct (Z.eq_dec k 0) as [->|]; [cbn in Hu; lia|].
    rewrite Z.pow_neg_r in Hu by lia. lia. }
  destruct (Z_lt_le_dec (Zpos (digits2_pos p)) k) as [H1|H1].
  - assert (2 ^ Zpos (digits2_pos p) <= 2 ^ (k - 1)) by (apply Z.pow_le_mono_r; lia). lia.
  - destruct (Z_lt_le_dec k (Zpos (digits2_pos p))) as [H2|H2]; [|lia].
    assert (2 ^ k <= 2 ^ (Zpos (digits2_pos p) - 1)) by (apply Z.pow_le_mono_r; lia). lia.
Qed.

Lemma shr_1_m (r : shr_record) :
  0 <= shr_m r -> shr_m (shr_1 r) = shr_m r / 2.
Proof.
  destruct r as [m r s]. cbn [shr_m]. intros H.
  rewrite <- Z.div2_div.
  destruct m as [|[p|p|]|p]; try reflexivity; lia.
Qed.

Lemma shr_iter_m (p : positive) :
  forall r, 0 <= shr_m r ->
    shr_m (iter_pos shr_1 p r) = shr_m r / 2 ^ Zpos p.
Proof.
  assert (Hpos : forall r, 0 <= shr_m r -> 0 <= shr_m (shr_1 r)).
  { intros r H. rewrite shr_1_m by assumption. apply Z.div_pos; lia. }
  induction p as [p IH | p IH |]; intros r H; cbn [iter_pos].
  - assert (H1 := Hpos r H).
    assert (H2 : 0 <= shr_m (iter_pos shr_1 p (shr_1 r))).
    { rewrite IH by assumption. apply Z.div_pos; [assumption|]. apply Z.pow_pos_nonneg; lia. }
    rewrite IH, IH, shr_1_m by assumption.
    rewrite !Z.div_div by (try apply Z.pow_pos_nonneg; lia).
    f_equal. replace (Zpos p~1) with (1 + Zpos p + Zpos p) by lia.
    rewrite !Z.pow_add_r by lia. rewrite Z.pow_1_r. ring.
  - assert (H2 : 0 <= shr_m (iter_pos shr_1 p r)).
    { rewrite IH by assumption. apply Z.div_pos; [assumption|]. apply Z.pow_pos_nonneg; lia. }
    rewrite IH, IH by assumption.
    rewrite !Z.div_div by (try apply Z.pow_pos_nonneg; lia).
    f_equal. replace (Zpos p~0) with (Zpos p + Zpos p) by lia.
    rewrite !Z.pow_add_r by lia. ring.
  - rewrite shr_1_m by assumption. now rewrite Z.pow_1_r.
Qed.

Lemma trunc_mag_nonpos (m : positive) (e : Z) :
  e <= 0 -> trunc_mag m e = Zpos m / 2 ^ (- e).
Proof.
  intros H. destruct e as [|p|p]; [| lia |].
  - cbn. now rewrite Z.div_1_r.
  - cbn [trunc_mag Z.opp]. apply Z.shiftr_div_pow2. lia.
Qed.

Lemma round_nearest_even_bounds (q : Z) (l : location) :
  q <= round_nearest_even q l <= q + 1.
Proof.
  destruct l as [|[| |]]; cbn [round_nearest_even]; try lia.
  destruct (Z.even q); lia.
Qed.

(** The product of two binary32 mantissas [P], at the exponent [E], in the
    range where the result is a normal number below 1 ulp = 1: rounding
    keeps the sign, and the integer part of the result is the integer
    part of the exact product, or one more. *)
Lemma round_product_trunc (s : bool) (P : positive) (E : Z) :
  24 < Zpos (digits2_pos P) ->
  -149 <= E + (Zpos (digits2_pos P) - 24) < 0 ->
  exists m2 e2,
    binary_round_aux 24 128 s (Zpos P) E loc_Exact = S754_finite s m2 e2 /\
    Zpos P / 2 ^ (- E) <= trunc_mag m2 e2 <= Zpos P / 2 ^ (- E) + 1.
Proof.
  intros Hd He.
  pose proof (digits2_pos_bounds P) as [Pl Pu].
  set (d := Zpos (digits2_pos P)) in *.
  unfold binary_round_aux. unfold shr_fexp at 1. cbn [Zdigits2]. fold d.
  unfold fexp at 1, emin. rewrite Z.max_l by lia.
  destruct (d + E - 24 - E) as [|n|n] eqn:En; try lia.
  cbn [shr shr_record_of_loc].
  set (mrs := iter_pos shr_1 n _).
  assert (Hq : shr_m mrs = Zpos P / 2 ^ Zpos n)
    by (subst mrs; now rewrite shr_iter_m by (cbn; lia)).
  assert (H2n : 0 < 2 ^ Zpos n) by (apply Z.pow_pos_nonneg; lia).
  assert (Edn : d - 1 = 23 + Zpos n) by lia.
  assert (Edn' : d = 24 + Zpos n) by lia.
  rewrite Edn in Pl. rewrite Edn' in Pu. rewrite Z.pow_add_r in Pl, Pu by lia.
  change (2 ^ 23) with 8388608 in Pl. change (2 ^ 24) with 16777216 in Pu.
  assert (Hql : 8388608 <= shr_m mrs)
    by (rewrite Hq; apply Z.div_le_lower_bound; lia).
  assert (Hqu : shr_m mrs < 16777216)
    by (rewrite Hq; apply Z.div_lt_upper_bound; lia).
  pose proof (round_nearest_even_bounds (shr_m mrs) (loc_of_shr_record mrs)) as Hr.
  set (r := round_nearest_even _ _) in *.
  set (k := - (E + Zpos n)).
  assert (Hk : 0 < k) by (subst k; lia).
  assert (H2k : 0 < 2 ^ k) by (apply Z.pow_pos_nonneg; lia).
  assert (HT : Zpos P / 2 ^ (- E) = shr_m mrs / 2 ^ k).
  { rewrite Hq, Z.div_div by lia. f_equal.
    rewrite <- Z.pow_add_r by lia. f_equal. subst k. lia. }
  assert (Hrk : Zpos P / 2 ^ (- E) <= r / 2 ^ k <= Zpos P / 2 ^ (- E) + 1).
  { rewrite HT. split.
    - apply Z.div_le_mono; lia.
    - apply Z.le_trans with ((shr_m mrs + 1 * 2 ^ k) / 2 ^ k).
      + apply Z.div_le_mono; nia.
      + rewrite Z.div_add by lia. lia. }
  destruct r as [|pr|pr] eqn:Er; try lia.
  destruct (Z_lt_le_dec (Zpos pr) 16777216) as [Hlt | Hge].
  - assert (Hdr : Zpos (digits2_pos pr) = 24)
      by (apply digits2_pos_unique; change (2 ^ (24 - 1)) with 8388608;
          change (2 ^ 24) with 16777216; lia).
    unfold shr_fexp. cbn [Zdigits2]. rewrite Hdr.
    unfold fexp, emin. rewrite Z.max_l by lia.
    replace (24 + (E + Zpos n) - 24 - (E + Zpos n)) with 0 by lia.
    cbn [shr shr_record_of_loc shr_m].
    replace (E + Zpos n <=? 128 - 24) with true by (symmetry; apply Z.leb_le; lia).
    exists pr, (E + Zpos n). split; [reflexivity|].
    rewrite trunc_mag_nonpos by lia. fold k. exact Hrk.
  - assert (Epr : pr = 16777216%positive) by lia. subst pr.
    unfold shr_fexp. cbn [Zdigits2 digits2_pos Pos.succ].
    unfold fexp, emin. rewrite Z.max_l by lia.
    replace (25 + (E + Zpos n) - 24 - (E + Zpos n)) with 1 by lia.
    cbn [shr shr_record_of_loc shr_m iter_pos shr_1].
    replace (E + Zpos n + 1 <=? 128 - 24) with true by (symmetry; apply Z.leb_le; lia).
    exists 8388608%positive, (E + Zpos n + 1). split; [reflexivity|].
    rewrite trunc_mag_nonpos by lia.
    replace (Zpos 8388608 / 2 ^ (- (E + Zpos n + 1))) with (16777216 / 2 ^ k);
      [exact Hrk|].
    replace k with (1 + - (E + Zpos n + 1)) by (subst k; lia).
    rewrite Z.pow_add_r by lia. change (2 ^ 1) with 2.
    rewrite <- Z.div_div by (try apply Z.pow_pos_nonneg; lia). reflexivity.
Qed.

(** *** Results of binary32 operations are binary32 numbers *)

Lemma fexp32 (z : Z) : fexp 24 128 z = Z.max (z - 24) (-149).
Proof. reflexivity. Qed.

Lemma digits2_pos_shiftr (p q : positive) (n : Z) :
  0 <= n -> Zpos q = Zpos p / 2 ^ n ->
  Zpos (digits2_pos q) = Zpos (digits2_pos p) - n.
Proof.
  intros Hn Hq. pose proof (digits2_pos_bounds p) as [Pl Pu].
  set (d := Zpos (digits2_pos p)) in *.
  assert (H2n : 0 < 2 ^ n) by (apply Z.pow_pos_nonneg; lia).
  assert (Hnd : n < d).
  { destruct (Z_lt_le_dec n d) as [|H]; [assumption|].
    assert (2 ^ d <= 2 ^ n) by (apply Z.pow_le_mono_r; lia).
    rewrite Z.div_small in Hq by lia. lia. }
  apply digits2_pos_unique. rewrite Hq. split.
  - apply Z.div_le_lower_bound; [lia|].
    rewrite <- Z.pow_add_r by lia. now replace (n + (d - n - 1)) with (d - 1) by lia.
  - apply Z.div_lt_upper_bound; [lia|].
    rewrite <- Z.pow_add_r by lia. now replace (n + (d - n)) with d by lia.
Qed.

Lemma digits2_pos_mono (p q : positive) :
  Zpos p <= Zpos q -> Zpos (digits2_pos p) <= Zpos (digits2_pos q).
Proof.
  intros H. pose proof (digits2_pos_bounds p) as [Pl _].
  pose proof (digits2_pos_bounds q) as [_ Qu].
  destruct (Z_lt_le_dec (Zpos (digits2_pos q)) (Zpos (digits2_pos p))) as [C|]; [|assumption].
  assert (2 ^ Zpos (digits2_pos q) <= 2 ^ (Zpos (digits2_pos p) - 1))
    by (apply Z.pow_le_mono_r; lia).
  lia.
Qed.

(** One alignment step of the rounding: the mantissa is shifted right to
    the exponent of its format, and what is left of it is canonical. *)
Lemma shr_fexp_canonical (p : positive) (e : Z) (l : location) :
  e <= fexp 24 128 (Zpos (digits2_pos p) + e) ->
  let mrs := fst (shr_fexp 24 128 (Zpos p) e l) in
  let e' := snd (shr_fexp 24 128 (Zpos p) e l) in
  e' = fexp 24 128 (Zpos (digits2_pos p) + e) /\
  0 <= shr_m mrs <= Zpos p /\
  (shr_m mrs = 0 -> e' = -149) /\
  (forall q, shr_m mrs = Zpos q -> fexp 24 128 (Zpos (digits2_pos q) + e') = e').
Proof.
  intros He. unfold shr_fexp. cbn [Zdigits2].
  set (d := Zpos (digits2_pos p)) in *.
  destruct (fexp 24 128 (d + e) - e) as [|n|n] eqn:En; try lia; cbn [shr fst snd].
  - assert (E : fexp 24 128 (d + e) = e) by lia.
    split; [now rewrite E|].
    split; [destruct l as [|[| |]]; cbn; lia|].
    split; [destruct l as [|[| |]]; cbn; discriminate|].
    intros q Hq. assert (q = p) by (destruct l as [|[| |]]; cbn in Hq; congruence).
    subst q. exact E.
  - assert (E : e + Zpos n = fexp 24 128 (d + e)) by lia.
    assert (H2n : 0 < 2 ^ Zpos n) by (apply Z.pow_pos_nonneg; lia).
    assert (Hm : shr_m (iter_pos shr_1 n (shr_record_of_loc (Zpos p) l))
                 = Zpos p / 2 ^ Zpos n).
    { rewrite shr_iter_m; destruct l as [|[| |]]; cbn [shr_record_of_loc shr_m];
        try reflexivity; lia. }
    rewrite Hm. split; [exact E|].
    split; [split; [apply Z.div_pos; lia | apply Z.div_le_upper_bound; nia]|].
    split.
    + intros H0.
      pose proof (digits2_pos_bounds p) as [Pl _]. fold d in Pl.
      assert (Hdn : d <= Zpos n).
      { destruct (Z_lt_le_dec (Zpos n) d) as [C|]; [|assumption].
        assert (2 ^ Zpos n <= 2 ^ (d - 1)) by (apply Z.pow_le_mono_r; lia).
        assert (1 <= Zpos p / 2 ^ Zpos n)
          by (apply Z.div_le_lower_bound; lia).
        lia. }
      rewrite fexp32 in E. lia.
    + intros q Hq.
      rewrite (digits2_pos_shiftr p q (Zpos n)) by (try lia; now rewrite <- Hq).
      fold d. replace (d - Zpos n + (e + Zpos n)) with (d + e) by lia.
      symmetry. exact E.
Qed.

Lemma binary_round_aux_valid (s : bool) (p : positive) (e : Z) (l : location) :
  e <= fexp 24 128 (Zpos (digits2_pos p) + e) ->
  valid_binary 24 128 (binary_round_aux 24 128 s (Zpos p) e l) = true.
Proof.
  intros He. unfold binary_round_aux.
  destruct (shr_fexp_canonical p e l He) as (E1 & Hq & Hz & Hc).
  destruct (shr_fexp 24 128 (Zpos p) e l) as [mrs e1]. cbn [fst snd] in *.
  pose proof (round_nearest_even_bounds (shr_m mrs) (loc_of_shr_record mrs)) as Hr.
  set (r := round_nearest_even _ _) in *.
  destruct r as [|pr|pr] eqn:Er.
  - unfold shr_fexp, shr. cbn [Zdigits2 shr_record_of_loc].
    destruct (fexp 24 128 (0 + e1) - e1) as [|n|n]; try reflexivity.
    rewrite shr_iter_m by (cbn; lia). cbn [shr_m].
    rewrite Z.div_0_l by (apply Z.pow_nonzero; lia). reflexivity.
  - assert (He1 : e1 <= fexp 24 128 (Zpos (digits2_pos pr) + e1)).
    { destruct (shr_m mrs) as [|q|q] eqn:Eq; [| |lia].
      - rewrite (Hz eq_refl). rewrite fexp32. lia.
      - specialize (Hc q eq_refl).
        assert (Zpos (digits2_pos q) <= Zpos (digits2_pos pr))
          by (apply digits2_pos_mono; lia).
        rewrite fexp32 in *. lia. }
    destruct (shr_fexp_canonical pr e1 loc_Exact He1) as (E2 & Hq2 & _ & Hc2).
    destruct (shr_fexp 24 128 (Zpos pr) e1 loc_Exact) as [mrs2 e2]. cbn [fst snd] in *.
    destruct (shr_m mrs2) as [|m2|m2] eqn:Em2; try reflexivity.
    destruct (e2 <=? 128 - 24) eqn:Eb; [|reflexivity].
    cbn [valid_binary]. unfold bounded, canonical_mantissa.
    rewrite (Hc2 m2 eq_refl), Z.eqb_refl. exact Eb.
  - lia.
Qed.

Lemma digits2_pos_shiftl (p : positive) (k : positive) :
  Zpos (digits2_pos (Pos.iter xO p k)) = Zpos (digits2_pos p) + Zpos k.
Proof.
  pose proof (digits2_pos_bounds p) as [Pl Pu].
  assert (H2k : 0 < 2 ^ Zpos k) by (apply Z.pow_pos_nonneg; lia).
  apply digits2_pos_unique.
  change (Pos.iter xO p k) with (shift_pos k p). rewrite shift_pos_correct.
  change (Z.pow_pos 2 k) with (2 ^ Zpos k).
  replace (Zpos (digits2_pos p) + Zpos k - 1) with (Zpos k + (Zpos (digits2_pos p) - 1)) by lia.
  replace (Zpos (digits2_pos p) + Zpos k) with (Zpos k + Zpos (digits2_pos p)) by lia.
  rewrite !Z.pow_add_r by lia. nia.
Qed.

Lemma binary_round_valid (s : bool) (m : positive) (e : Z) :
  valid_binary 24 128 (binary_round 24 128 s m e) = true.
Proof.
  unfold binary_round, shl_align.
  destruct (fexp 24 128 (Zpos (digits2_pos m) + e) - e) as [|k|k] eqn:Ek;
    apply binary_round_aux_valid; try lia.
  rewrite digits2_pos_shiftl.
  replace (Zpos (digits2_pos m) + Zpos k + fexp 24 128 (Zpos (digits2_pos m) + e))
    with (Zpos (digits2_pos m) + e) by lia.
  lia.
Qed.

Lemma F32_sub_valid (x y : F32.t) :
  F32.valid x = true -> F32.valid y = true -> F32.valid (F32.sub x y) = true.
Proof.
  unfold F32.valid, F32.sub. change F32.prec with 24. change F32.emax with 128.
  intros Hx Hy.
  destruct x as [sx | sx | | sx mx ex], y as [sy | sy | | sy my ey];
    cbn [SFsub]; try reflexivity; try assumption;
    try (destruct sx, sy; reflexivity).
  unfold binary_normalize.
  destruct (_ - _) as [|m|m]; [reflexivity | | ]; apply binary_round_valid.
Qed.

Lemma canonical32 (m : positive) (e : Z) :
  bounded 24 128 m e = true ->
  -149 <= e /\ Zpos (digits2_pos m) <= 24 /\ (-149 < e -> Zpos (digits2_pos m) = 24).
Proof.
  unfold bounded, canonical_mantissa. intros H. apply andb_prop in H.
  destruct H as [H _]. apply Z.eqb_eq in H. rewrite fexp32 in H. lia.
Qed.

Lemma digits2_pos_mul (p q : positive) :
  Zpos (digits2_pos p) + Zpos (digits2_pos q) - 1 <= Zpos (digits2_pos (p * q)).
Proof.
  pose proof (digits2_pos_bounds p) as [Pl _].
  pose proof (digits2_pos_bounds q) as [Ql _].
  pose proof (digits2_pos_bounds (p * q)) as [_ Mu].
  rewrite Pos2Z.inj_mul in Mu.
  set (a := Zpos (digits2_pos p)) in *. set (b := Zpos (digits2_pos q)) in *.
  set (d := Zpos (digits2_pos (p * q))) in *.
  destruct (Z_lt_le_dec d (a + b - 1)) as [C|]; [|assumption].
  assert (H : 2 ^ d <= 2 ^ (a - 1 + (b - 1))) by (apply Z.pow_le_mono_r; lia).
  rewrite Z.pow_add_r in H by lia.
  assert (0 < 2 ^ (a - 1)) by (apply Z.pow_pos_nonneg; lia).
  assert (0 < 2 ^ (b - 1)) by (apply Z.pow_pos_nonneg; lia).
  nia.
Qed.

Lemma F32_mul_valid (x y : F32.t) :
  F32.valid x = true -> F32.valid y = true -> F32.valid (F32.mul x y) = true.
Proof.
  unfold F32.valid, F32.mul. change F32.prec with 24. change F32.emax with 128.
  intros Hx Hy.
  destruct x as [sx | sx | | sx mx ex], y as [sy | sy | | sy my ey];
    cbn [SFmul]; try reflexivity.
  cbn [valid_binary] in Hx, Hy.
  destruct (canonical32 mx ex Hx) as (Ex & Dx & Nx).
  destruct (canonical32 my ey Hy) as (Ey & Dy & Ny).
  apply binary_round_aux_valid. rewrite fexp32.
  pose proof (digits2_pos_mul mx my) as Hd.
  pose proof (digits2_pos_bounds mx) as [_ _].
  assert (1 <= Zpos (digits2_pos mx)) by lia.
  assert (1 <= Zpos (digits2_pos my)) by lia.
  destruct (Z.eq_dec ex (-149)), (Z.eq_dec ey (-149)); lia.
Qed.

Lemma F32_of_Z_valid (z : Z) : F32.valid (F32.of_Z z) = true.
Proof.
  unfold F32.valid, F32.of_Z, binary_normalize.
  change F32.prec with 24. change F32.emax with 128.
  destruct z; [reflexivity | |]; apply binary_round_valid.
Qed.

(** *** The correction check *)

Lemma POSITION_TOLERANCE_IN_value :
  POSITION_TOLERANCE_IN = S754_finite false 8454660 (-30).
Proof. vm_compute. reflexivity. Qed.

Lemma MAX_POSITION_ERROR_IN_value :
  MAX_POSITION_ERROR_IN = S754_finite false 13421773 (-26).
Proof. vm_compute. reflexivity. Qed.

Lemma STEPS_PER_IN_value : STEPS_PER_IN = S754_finite false 8925210 (-13).
Proof. vm_compute. reflexivity. Qed.

Lemma above_max_not_within_tolerance (x : F32.t) :
  F32.ltb MAX_POSITION_ERROR_IN x = true -> F32.leb x POSITION_TOLERANCE_IN = false.
Proof.
  rewrite MAX_POSITION_ERROR_IN_value, POSITION_TOLERANCE_IN_value.
  unfold F32.ltb, F32.leb, SFltb, SFleb.
  destruct x as [s | s | | s m e]; cbn [SFcompare]; try discriminate;
    destruct s; try discriminate; try reflexivity.
  destruct (Z.compare_spec (-26) e), (Z.compare_spec e (-30));
    try discriminate; try reflexivity; try lia.
Qed.

Lemma equal_max_is_max (x : F32.t) :
  F32.eqb x MAX_POSITION_ERROR_IN = true -> x = MAX_POSITION_ERROR_IN.
Proof.
  rewrite MAX_POSITION_ERROR_IN_value. unfold F32.eqb, SFeqb.
  destruct x as [s | s | | s m e]; cbn [SFcompare]; try discriminate;
    destruct s; try discriminate.
  destruct (Z.compare_spec e (-26)); try discriminate.
  destruct (Pos.compare_cont Eq m 13421773) eqn:E; try discriminate.
  apply Pos.compare_eq in E. now subst.
Qed.

Lemma finite_ltb (m1 m2 : positive) (e1 e2 : Z) :
  SFltb (S754_finite false m1 e1) (S754_finite false m2 e2) = true ->
  e1 < e2 \/ (e1 = e2 /\ (m1 < m2)%positive).
Proof.
  unfold SFltb. cbn [SFcompare].
  destruct (Z.compare_spec e1 e2) as [E | E | E]; try discriminate; [|now left].
  destruct (Pos.compare_cont Eq m1 m2) eqn:C; try discriminate.
  intros _. right. split; [exact E | exact C].
Qed.

Lemma finite_leb (m1 m2 : positive) (e1 e2 : Z) :
  SFleb (S754_finite false m1 e1) (S754_finite false m2 e2) = true ->
  e1 < e2 \/ (e1 = e2 /\ (m1 <= m2)%positive).
Proof.
  unfold SFleb. cbn [SFcompare].
  destruct (Z.compare_spec e1 e2) as [E | E | E]; try discriminate; [|now left].
  destruct (Pos.compare_cont Eq m1 m2) eqn:C; try discriminate;
    intros _; right; (split; [exact E|]); unfold Pos.le, Pos.compare;
    rewrite C; discriminate.
Qed.

(** The binary32 numbers whose magnitude lies above the tolerance and up
    to the maximal error. *)
Lemma error_in_band (e : F32.t) :
  F32.valid e = true ->
  F32.ltb POSITION_TOLERANCE_IN (F32.abs e) = true ->
  F32.leb (F32.abs e) MAX_POSITION_ERROR_IN = true ->
  exists s m ex,
    e = S754_finite s m ex /\ -30 <= ex <= -26 /\
    8388608 <= Zpos m < 16777216 /\
    (ex = -30 -> 8454660 < Zpos m) /\ (ex = -26 -> Zpos m <= 13421773).
Proof.
  rewrite POSITION_TOLERANCE_IN_value, MAX_POSITION_ERROR_IN_value.
  unfold F32.valid, F32.ltb, F32.leb, F32.abs.
  destruct e as [s | s | | s m ex]; cbn [SFabs valid_binary];
    try (intros _ H; discriminate H); try (intros _ _ H; discriminate H).
  intros Hv Hl Hu. exists s, m, ex.
  apply finite_ltb in Hl. apply finite_leb in Hu.
  assert (Hl' : -30 < ex \/ (-30 = ex /\ 8454660 < Zpos m))
    by (destruct Hl as [H | [H1 H2]]; [left | right; split]; assumption).
  assert (Hu' : ex < -26 \/ (ex = -26 /\ Zpos m <= 13421773))
    by (destruct Hu as [H | [H1 H2]]; [left | right; split]; assumption).
  clear Hl Hu.
  apply canonical32 in Hv. destruct Hv as (_ & _ & Hd).
  pose proof (digits2_pos_bounds m) as Hb.
  assert (Hex : -30 <= ex <= -26) by (clear Hb Hd; lia).
  rewrite Hd in Hb by lia.
  change (2 ^ (24 - 1)) with 8388608 in Hb. change (2 ^ 24) with 16777216 in Hb.
  split; [reflexivity|]. split; [exact Hex|]. split; [exact Hb|].
  clear Hb Hd; split; intros E; lia.
Qed.

(** The correction in steps of an error in that band: its sign is the
    sign of the error and its magnitude is from 8 to 218 steps. *)
Lemma correction_steps_in_band (e : F32.t) :
  F32.valid e = true ->
  F32.ltb POSITION_TOLERANCE_IN (F32.abs e) = true ->
  F32.leb (F32.abs e) MAX_POSITION_ERROR_IN = true ->
  let cs := F32.to_i32 (F32.mul e STEPS_PER_IN) in
  (F32.ltb F32.zero e = true /\ 8 <= cs <= 218) \/
  (F32.ltb F32.zero e = false /\ -218 <= cs <= -8).
Proof.
  intros Hv Hl Hu cs.
  destruct (error_in_band e Hv Hl Hu) as (s & m & ex & -> & Hex & Hm & Hlo & Hhi).
  subst cs. rewrite STEPS_PER_IN_value.
  unfold F32.mul. cbn [SFmul].
  change F32.prec with 24. change F32.emax with 128.
  rewrite xorb_false_r.
  pose proof (digits2_pos_bounds (m * 8925210)) as [Pl Pu].
  rewrite Pos2Z.inj_mul in Pl, Pu.
  assert (Hd : 47 <= Zpos (digits2_pos (m * 8925210)) <= 48).
  { set (d := Zpos (digits2_pos (m * 8925210))) in *. split.
    - destruct (Z_lt_le_dec d 47) as [H|H]; [|assumption].
      assert (2 ^ d <= 2 ^ 46) by (apply Z.pow_le_mono_r; lia).
      change (2 ^ 46) with 70368744177664 in *. lia.
    - destruct (Z_lt_le_dec 48 d) as [H|H]; [|assumption].
      assert (2 ^ 48 <= 2 ^ (d - 1)) by (apply Z.pow_le_mono_r; lia).
      change (2 ^ 48) with 281474976710656 in *. lia. }
  destruct (round_product_trunc s (m * 8925210) (ex + -13)) as (m2 & e2 & -> & Ht);
    [lia | lia |].
  rewrite Pos2Z.inj_mul in Ht.
  assert (Hb : 8 <= trunc_mag m2 e2 <= 218).
  { assert (C : ex = -30 \/ ex = -29 \/ ex = -28 \/ ex = -27 \/ ex = -26) by lia.
    destruct C as [-> | [-> | [-> | [-> | ->]]]]; cbn [Z.add Z.opp Z.pos_sub] in Ht.
    - specialize (Hlo eq_refl). change (2 ^ 43) with 8796093022208 in Ht.
      revert Ht. Z.div_mod_to_equations. lia.
    - change (2 ^ 42) with 4398046511104 in Ht.
      revert Ht. Z.div_mod_to_equations. lia.
    - change (2 ^ 41) with 2199023255552 in Ht.
      revert Ht. Z.div_mod_to_equations. lia.
    - change (2 ^ 40) with 1099511627776 in Ht.
      revert Ht. Z.div_mod_to_equations. lia.
    - specialize (Hhi eq_refl). change (2 ^ 39) with 549755813888 in Ht.
      revert Ht. Z.div_mod_to_equations. lia. }
  unfold F32.to_i32, float_to_int, INT32_MIN, INT32_MAX, F32.ltb, SFltb, F32.zero.
  cbn [SFcompare]. destruct s; cbn [cond_Zopp]; [right | left];
    (split; [reflexivity | lia]).
Qed.

(** An error in that band passes both tests of the correction check. *)
Lemma band_takes_correction_branch (e : F32.t) :
  F32.valid e = true ->
  F32.ltb POSITION_TOLERANCE_IN (F32.abs e) = true ->
  F32.leb (F32.abs e) MAX_POSITION_ERROR_IN = true ->
  F32.leb (F32.abs e) POSITION_TOLERANCE_IN = false /\
  F32.ltb MAX_POSITION_ERROR_IN (F32.abs e) = false.
Proof.
  intros Hv Hlo Hhi.
  destruct (error_in_band e Hv Hlo Hhi) as (s & m & ex & E & Hex & _ & Hm1 & Hm2).
  rewrite E, POSITION_TOLERANCE_IN_value, MAX_POSITION_ERROR_IN_value.
  unfold F32.leb, F32.ltb, F32.abs. cbn [SFabs]. clear E Hv Hlo Hhi.
  split.
  - destruct (SFleb _ _) eqn:C; [exfalso | reflexivity].
    apply finite_leb in C. destruct C as [C | [C1 C2]]; [lia|].
    specialize (Hm1 C1). apply Pos2Z.pos_le_pos in C2.
    apply (Z.lt_irrefl (Zpos m)). eapply Z.le_lt_trans; eassumption.
  - destruct (SFltb _ _) eqn:C; [exfalso | reflexivity].
    apply finite_ltb in C. destruct C as [C | [C1 C2]]; [lia|].
    symmetry in C1. specialize (Hm2 C1). apply Pos2Z.pos_lt_pos in C2.
    apply (Z.lt_irrefl (Zpos m)). eapply Z.le_lt_trans; eassumption.
Qed.

Local Opaque F32.mul F32.sub F32.div F32.add F32.abs F32.to_i32 F32.of_Z F32.lit
      F64.div F64.of_Z F64.of_f32 F64.to_u32 F64.ltb F32.ltb F32.leb
      STEPS_PER_IN POSITION_TOLERANCE_IN MAX_POSITION_ERROR_IN
      CORRECTION_VELOCITY_SCALE MIN_CORRECTION_VEL_IPS.

Lemma closedLoopCorrection_alarm (st : state) :
  let error_in :=
    F32.sub (Motor.target_position_in (motor st)) (Encoder.position_in (encoder st)) in
  F32.ltb MAX_POSITION_ERROR_IN (F32.abs error_in) = true ->
  closedLoopCorrection st
    = stop (sendResponse
              (ERROR_position error_in (Motor.target_position_in (motor st))
                 (Encoder.position_in (encoder st)))
              (delay CORRECTION_SETTLE_MS st)).
Proof.
  intros e H. unfold closedLoopCorrection.
  change (0 <? CORRECTION_SETTLE_MS) with true. cbv iota.
  change (Encoder.position_in (encoder (delay CORRECTION_SETTLE_MS st)))
    with (Encoder.position_in (encoder st)).
  change (Motor.target_position_in (motor (delay CORRECTION_SETTLE_MS st)))
    with (Motor.target_position_in (motor st)).
  fold e. rewrite (above_max_not_within_tolerance _ H), H. reflexivity.
Qed.

Lemma closedLoopCorrection_correcting (st : state) :
  let error_in :=
    F32.sub (Motor.target_position_in (motor st)) (Encoder.position_in (encoder st)) in
  let correction_steps := F32.to_i32 (F32.mul error_in STEPS_PER_IN) in
  let synced :=
    if Encoder.detected (encoder st)
    then F32.to_i32 (F32.mul (Encoder.position_in (encoder st)) STEPS_PER_IN)
    else Motor.current_steps (motor st) in
  let base := Motor.base_velocity_ips (motor st) in
  F32.leb (F32.abs error_in) POSITION_TOLERANCE_IN = false ->
  F32.ltb MAX_POSITION_ERROR_IN (F32.abs error_in) = false ->
  let st' := closedLoopCorrection st in
  trace st' = trace st ++ [Delay CORRECTION_SETTLE_MS;
                           Serial (CORRECTING error_in
                                     (Motor.target_position_in (motor st)))] /\
  Motor.current_steps (motor st') = synced /\
  Motor.target_steps (motor st') = wrap32 (synced + correction_steps) /\
  Motor.direction (motor st') = (0 <? correction_steps) /\
  dir_pin st' = (0 <? correction_steps) /\
  Motor.velocity_ips (motor st')
    = (if F32.ltb (F32.mul base CORRECTION_VELOCITY_SCALE) MIN_CORRECTION_VEL_IPS
       then MIN_CORRECTION_VEL_IPS
       else F32.mul base CORRECTION_VELOCITY_SCALE) /\
  Motor.base_velocity_ips (motor st') = base /\
  Motor.in_motion (motor st') = true /\
  Motor.target_position_in (motor st') = Motor.target_position_in (motor st) /\
  encoder st' = encoder st /\
  step_pin st' = step_pin st.
Proof.
  intros e cs synced base H1 H2 st'. subst st'. unfold closedLoopCorrection.
  change (0 <? CORRECTION_SETTLE_MS) with true. cbv iota.
  change (Encoder.position_in (encoder (delay CORRECTION_SETTLE_MS st)))
    with (Encoder.position_in (encoder st)).
  change (Motor.target_position_in (motor (delay CORRECTION_SETTLE_MS st)))
    with (Motor.target_position_in (motor st)).
  fold e. rewrite H1, H2. fold cs.
  unfold syncMotorStepsWithEncoder, updateTimerFrequency.
  cbn [delay emit encoder motor Encoder.detected negb].
  subst synced.
  destruct (Encoder.detected (encoder st)); cbn [negb];
    destruct (0 <? cs); cbn; rewrite <- ?app_assoc; repeat split.
Qed.

(** 1000000.0 / 10.0 as the code computes it. *)
Lemma floor_interval :
  F64.to_u32 (F64.div (F64.of_Z 1000000) (F64.of_f32 (F32.lit 10 0))) = 100000.
Proof. vm_compute. reflexivity. Qed.

(** The smallest correction velocity is under 10 steps per second. *)
Lemma min_correction_rate_below_floor :
  F64.ltb (F64.of_f32 (F32.mul MIN_CORRECTION_VEL_IPS STEPS_PER_IN)) (F64.of_Z 10) = true.
Proof. vm_compute. reflexivity. Qed.

(** The timer that a correction move programs, from its own velocity. *)
Lemma closedLoopCorrection_timer (st : state) :
  let error_in :=
    F32.sub (Motor.target_position_in (motor st)) (Encoder.position_in (encoder st)) in
  F32.leb (F32.abs error_in) POSITION_TOLERANCE_IN = false ->
  F32.ltb MAX_POSITION_ERROR_IN (F32.abs error_in) = false ->
  let st' := closedLoopCorrection st in
  let rate := F32.mul (Motor.velocity_ips (motor st')) STEPS_PER_IN in
  Motor.step_interval_us (motor st')
    = F64.to_u32
        (F64.div (F64.of_Z 1000000)
           (F64.of_f32 (if F64.ltb (F64.of_f32 rate) (F64.of_Z 10)
                        then F32.lit 10 0 else rate))) /\
  timer_alarm st' = Motor.step_interval_us (motor st') / 2.
Proof.
  intros e H1 H2 st' rate. subst rate st'. unfold closedLoopCorrection.
  change (0 <? CORRECTION_SETTLE_MS) with true. cbv iota.
  change (Encoder.position_in (encoder (delay CORRECTION_SETTLE_MS st)))
    with (Encoder.position_in (encoder st)).
  change (Motor.target_position_in (motor (delay CORRECTION_SETTLE_MS st)))
    with (Motor.target_position_in (motor st)).
  fold e. rewrite H1, H2.
  unfold syncMotorStepsWithEncoder, updateTimerFrequency.
  cbn [delay emit encoder motor Encoder.detected negb].
  destruct (Encoder.detected (encoder st)); cbn [negb];
    destruct (0 <? _); cbn; split; reflexivity.
Qed.

(** C4.  In the correction check an error whose magnitude equals
    [MAX_POSITION_ERROR_IN] raises no alarm: the check goes on to the
    correction move (CORRECTING is written, motion is enabled).  An error
    whose magnitude is greater writes the alarm line, then stops: motion
    is disabled, no correction move is set up (step counter, step target,
    direction and velocity are the ones before), and the original target
    position stays. *)
Theorem correction_alarm_boundary (st : state) :
  let target := Motor.target_position_in (motor st) in
  let actual := Encoder.position_in (encoder st) in
  let error_in := F32.sub target actual in
  let st' := closedLoopCorrection st in
  (F32.eqb (F32.abs error_in) MAX_POSITION_ERROR_IN = true ->
     trace st' = trace st ++ [Delay CORRECTION_SETTLE_MS;
                              Serial (CORRECTING error_in target)] /\
     Motor.in_motion (motor st') = true /\
     Motor.target_position_in (motor st') = target) /\
  (F32.ltb MAX_POSITION_ERROR_IN (F32.abs error_in) = true ->
     trace st' = trace st ++ [Delay CORRECTION_SETTLE_MS;
                              Serial (ERROR_position error_in target actual);
                              Serial (stop_response st)] /\
     Motor.in_motion (motor st') = false /\
     Motor.target_position_in (motor st') = target /\
     Motor.target_steps (motor st') = Motor.target_steps (motor st) /\
     Motor.current_steps (motor st') = Motor.current_steps (motor st) /\
     Motor.direction (motor st') = Motor.direction (motor st) /\
     Motor.velocity_ips (motor st') = Motor.velocity_ips (motor st) /\
     timer_alarm st' = timer_alarm st /\
     dir_pin st' = dir_pin st).
Proof.
  intros target actual e st'. subst st'. split; intros H.
  - apply equal_max_is_max in H.
    destruct (closedLoopCorrection_correcting st) as (A & _ & _ & _ & _ & _ & _ & B & C & _).
    + fold target actual e. rewrite H. vm_compute. reflexivity.
    + fold target actual e. rewrite H. vm_compute. reflexivity.
    + auto.
  - rewrite (closedLoopCorrection_alarm st H), stop_spec.
    split; [cbn; rewrite <- !app_assoc; reflexivity | repeat split].
Qed.

Lemma correction_alarm_boundary_witness :
  let st :=
    upd_motor (Motor.set_target_position_in (F32.lit 5 1))
      (setup (mkSetupInput false false true 0 0)) in
  Motor.in_motion (motor (closedLoopCorrection st)) = false /\
  Motor.target_position_in (motor (closedLoopCorrection st)) = F32.lit 5 1.
Proof.
  cbv zeta.
  destruct (correction_alarm_boundary
              (upd_motor (Motor.set_target_position_in (F32.lit 5 1))
                 (setup (mkSetupInput false false true 0 0)))) as [_ H].
  destruct (H ltac:(vm_compute; reflexivity)) as (_ & A & B & _).
  split; [exact A | exact B].
Defined.






(** *** What holds in every reachable state *)

Ltac split_ifs :=
  repeat match goal with
         | |- context [if ?c then _ else _] => destruct c
         end.

Ltac frame f := intros; unfold f; cbv zeta; split_ifs; reflexivity.

Lemma sync_view st : isr_view (syncMotorStepsWithEncoder st) = isr_view st.
Proof. frame syncMotorStepsWithEncoder. Qed.

Lemma updateEncoder_view now st : isr_view (updateEncoder now st) = isr_view st.
Proof. frame updateEncoder. Qed.

Lemma resetEncoder_view st : isr_view (resetEncoder st) = isr_view st.
Proof. reflexivity. Qed.

Lemma updateResetButton_view now level st :
  isr_view (updateResetButton now level st) = isr_view st.
Proof. frame updateResetButton. Qed.

Lemma updateTimerFrequency_view st : isr_view (updateTimerFrequency st) = isr_view st.
Proof. reflexivity. Qed.

Lemma stop_view st : isr_view (stop st) = isr_view st.
Proof. frame stop. Qed.

Lemma closedLoopCorrection_view st : isr_view (closedLoopCorrection st) = isr_view st.
Proof.
  unfold closedLoopCorrection. cbv zeta.
  change (0 <? CORRECTION_SETTLE_MS) with true. cbv iota.
  split_ifs; rewrite ?stop_view; try reflexivity;
    unfold syncMotorStepsWithEncoder; split_ifs; reflexivity.
Qed.

Lemma gotoPosition_view pos st : isr_view (gotoPosition pos st) = isr_view st.
Proof. unfold gotoPosition, syncMotorStepsWithEncoder. cbv zeta. split_ifs; reflexivity. Qed.

Lemma home_view st : isr_view (home st) = isr_view st.
Proof. unfold home, syncMotorStepsWithEncoder. cbv zeta. split_ifs; reflexivity. Qed.

Lemma setVelocity_view v st : isr_view (setVelocity v st) = isr_view st.
Proof. frame setVelocity. Qed.

Lemma queryStatus_view st : isr_view (queryStatus st) = isr_view st.
Proof. frame queryStatus. Qed.

Lemma sendStatusUpdate_view st : isr_view (sendStatusUpdate st) = isr_view st.
Proof. frame sendStatusUpdate. Qed.

Lemma processSerialCommand_view l st :
  isr_view (processSerialCommand l st) = isr_view st.
Proof.
  unfold processSerialCommand. destruct l as [l|]; [|reflexivity].
  destruct (text l); [reflexivity|].
  split_ifs;
    rewrite ?gotoPosition_view, ?home_view, ?stop_view, ?setVelocity_view,
            ?resetEncoder_view, ?queryStatus_view; reflexivity.
Qed.

Lemma flag_view b st :
  isr_view (upd_motor (Motor.set_motion_complete_flag b) st) = isr_view st.
Proof. reflexivity. Qed.

Lemma last_status_view v st : isr_view (set_last_status_ms v st) = isr_view st.
Proof. reflexivity. Qed.

Lemma emit_view e st : isr_view (emit e st) = isr_view st.
Proof. reflexivity. Qed.

Lemma loop_view i st : isr_view (loop i st) = isr_view st.
Proof.
  unfold loop, delay, sendResponse. cbv zeta.
  rewrite emit_view, processSerialCommand_view.
  split_ifs;
    rewrite ?sendStatusUpdate_view, ?last_status_view, ?emit_view,
            ?closedLoopCorrection_view, ?flag_view,
            ?updateResetButton_view, ?updateEncoder_view;
    reflexivity.
Qed.

Lemma isr_invariant_view st st' :
  isr_view st' = isr_view st -> isr_invariant st -> isr_invariant st'.
Proof.
  unfold isr_view, isr_invariant. intros E. injection E as -> -> -> -> ->. auto.
Qed.

Lemma onTimer_invariant st : isr_invariant st -> isr_invariant (onTimer st).
Proof.
  intros (A & B & C & D & E). unfold onTimer, isr_invariant. cbv zeta.
  destruct (Motor.in_motion (motor st)); [|auto].
  destruct (abs32 _ <=? TOLERANCE_STEPS); [cbn; auto|].
  destruct (Motor.step_pin_state (motor st)) eqn:Es; cbn [negb].
  - rewrite (E eq_refl). change (1 <=? wrapu32 (0 + 1)) with true. cbv iota.
    destruct (Motor.direction (motor st)) eqn:Ed; cbn; rewrite ?Ed; cbn;
      repeat split; auto; try lia; discriminate.
  - cbn. repeat split; auto; lia.
Qed.

Lemma handleEncoderChange_invariant a b st :
  isr_invariant st -> isr_invariant (handleEncoderChange a b st).
Proof.
  intros (A & B & C & D & E). unfold isr_invariant.
  destruct (handleEncoderChange_spec a b st) as [_ Hab]. rewrite Hab.
  split; [exact A|]. split; [exact B|]. split; [apply ab_state_range|].
  split; [exact D | exact E].
Qed.

Lemma setup_invariant i : isr_invariant (setup i).
Proof.
  unfold isr_invariant.
  split; [reflexivity|]. split; [reflexivity|].
  split; [apply (ab_state_range (enc_a i) (enc_b i))|].
  split; [cbn; lia | discriminate].
Qed.

(** Every reachable state has the encoder present and the closed loop
    enabled, a two-bit previous channel state, and a pulse counter that is 0
    whenever the pulse is in its high phase. *)
Lemma reachable_invariant st : reachable st -> isr_invariant st.
Proof.
  intros (i & xs & ->). unfold run.
  assert (H : forall s, isr_invariant s ->
                isr_invariant (fold_left (fun s x => step x s) xs s)).
  { induction xs as [|x xs IH]; intros s Hs; [exact Hs|].
    cbn [fold_left]. apply IH. destruct x as [|a b|j]; cbn [step].
    - now apply onTimer_invariant.
    - now apply handleEncoderChange_invariant.
    - apply (isr_invariant_view s); [apply loop_view | exact Hs]. }
  apply H, setup_invariant.
Qed.


Lemma IN_PER_COUNT_valid : F32.valid IN_PER_COUNT = true.
Proof. vm_compute. reflexivity. Qed.

Lemma updateEncoder_position now st :
  position_valid st -> position_valid (updateEncoder now st).
Proof.
  unfold position_valid, updateEncoder. cbv zeta. intros H.
  destruct (negb (Encoder.detected (encoder st))); [exact H|].
  split_ifs;
    unfold upd_encoder;
    cbn [encoder Encoder.position_in Encoder.set_last_counts Encoder.set_last_vel_ms
         Encoder.set_last_delta_counts Encoder.set_position_in Encoder.set_velocity_ips
         Encoder.set_velocity_ema_ips];
    (apply F32_mul_valid; [apply F32_of_Z_valid | apply IN_PER_COUNT_valid]).
Qed.

Lemma resetEncoder_position st : position_valid (resetEncoder st).
Proof. reflexivity. Qed.

Lemma updateResetButton_position now level st :
  position_valid st -> position_valid (updateResetButton now level st).
Proof.
  unfold position_valid, updateResetButton. cbv zeta. intros H.
  split_ifs; try exact H; reflexivity.
Qed.

Lemma closedLoopCorrection_encoder st : encoder (closedLoopCorrection st) = encoder st.
Proof.
  unfold closedLoopCorrection, stop, syncMotorStepsWithEncoder. cbv zeta.
  change (0 <? CORRECTION_SETTLE_MS) with true. cbv iota.
  split_ifs; reflexivity.
Qed.

Lemma gotoPosition_encoder pos st : encoder (gotoPosition pos st) = encoder st.
Proof.
  unfold gotoPosition, syncMotorStepsWithEncoder. cbv zeta. split_ifs; reflexivity.
Qed.

Lemma stop_encoder st : encoder (stop st) = encoder st.
Proof. frame stop. Qed.

Lemma setVelocity_encoder v st : encoder (setVelocity v st) = encoder st.
Proof. frame setVelocity. Qed.

Lemma queryStatus_encoder st : encoder (queryStatus st) = encoder st.
Proof. frame queryStatus. Qed.

Lemma sendStatusUpdate_encoder st : encoder (sendStatusUpdate st) = encoder st.
Proof. frame sendStatusUpdate. Qed.

Lemma processSerialCommand_position l st :
  position_valid st -> position_valid (processSerialCommand l st).
Proof.
  unfold position_valid, processSerialCommand. intros H.
  destruct l as [l|]; [|exact H]. destruct (text l); [exact H|].
  split_ifs;
    rewrite ?gotoPosition_encoder, ?stop_encoder, ?setVelocity_encoder,
            ?queryStatus_encoder;
    try exact H; reflexivity.
Qed.

Lemma loop_position i st : position_valid st -> position_valid (loop i st).
Proof.
  intros H. unfold loop. cbv zeta.
  apply (processSerialCommand_position (serial i)).
  assert (H1 : position_valid
                 (updateResetButton (millis_button i) (reset_level i)
                    (updateEncoder (millis_encoder i) st)))
    by now apply updateResetButton_position, updateEncoder_position.
  unfold position_valid in *.
  split_ifs;
    rewrite ?sendStatusUpdate_encoder; cbn [encoder set_last_status_ms sendResponse emit];
    rewrite ?closedLoopCorrection_encoder; exact H1.
Qed.

(** In every reachable state the encoder position is a binary32 number. *)
Lemma reachable_position st : reachable st -> position_valid st.
Proof.
  intros (i & xs & ->). unfold run.
  assert (H : forall s, position_valid s ->
                position_valid (fold_left (fun s x => step x s) xs s)).
  { induction xs as [|x xs IH]; intros s Hs; [exact Hs|].
    cbn [fold_left]. apply IH. destruct x as [|a b|j]; cbn [step].
    - unfold position_valid, onTimer in *. cbv zeta. split_ifs; exact Hs.
    - exact Hs.
    - now apply loop_position. }
  apply H. reflexivity.
Qed.

(** The main loop passes a raised motion-complete flag to the correction
    check, after the encoder update, when the closed loop is enabled. *)
Lemma loop_correction_check i st :
  Motor.motion_complete_flag (motor st) = true ->
  Motor.closed_loop_enabled (motor st) = true ->
  let st1 :=
    upd_motor (Motor.set_motion_complete_flag false)
      (updateResetButton (millis_button i) (reset_level i)
         (updateEncoder (millis_encoder i) st)) in
  let st2 := closedLoopCorrection st1 in
  let st3 :=
    if STATUS_UPDATE_MS <=? wrapu32 (millis_loop i - last_status_ms st2)
    then sendStatusUpdate (set_last_status_ms (millis_loop i) st2)
    else st2 in
  loop i st = delay 2 (processSerialCommand (serial i) st3).
Proof.
  intros Hf Hc.
  assert (Hm : motor (updateResetButton (millis_button i) (reset_level i)
                        (updateEncoder (millis_encoder i) st)) = motor st).
  { unfold updateResetButton, updateEncoder. cbv zeta. split_ifs; reflexivity. }
  unfold loop. cbv zeta. rewrite Hm, Hf.
  change (Motor.closed_loop_enabled (motor (upd_motor _ ?s)))
    with (Motor.closed_loop_enabled (motor s)).
  rewrite Hm, Hc. reflexivity.
Qed.

End BackstopProperties.

(** * More of the axis controller *)

Section Axis12More.

Import Axis12.

Lemma default_velocity_not_zero : F64.eqb (F64.of_Z 120) (F64.of_Z 0) = false.
Proof. vm_compute. reflexivity. Qed.

Lemma default_frequency :
  F64.to_u32 (clamp_freq (F64.mul (F64.of_Z 120) M2_STEPS_PER_MM)) = 90000.
Proof. vm_compute. reflexivity. Qed.

Lemma whole_velocities_complete (v : Z) : 1 <= v <= 400 -> In v whole_velocities.
Proof.
  intros H. unfold whole_velocities.
  replace v with (1 + Z.of_nat (Z.to_nat (v - 1))) by lia.
  apply (in_map (fun n => 1 + Z.of_nat n)), in_seq. lia.
Qed.

Lemma velocity_check_all : forallb velocity_check whole_velocities = true.
Proof. vm_compute. reflexivity. Qed.

Lemma velocity_check_whole (v : Z) : 1 <= v <= 400 -> velocity_check v = true.
Proof.
  intros H. apply (proj1 (forallb_forall velocity_check whole_velocities) velocity_check_all).
  now apply whole_velocities_complete.
Qed.

Local Opaque F64.mul F64.div F64.of_Z F64.of_f32 F64.to_u32 F64.ltb F64.eqb clamp_freq
      m1_frequency F32.of_Z.

(** *** Stopping twice *)

(** X1.  A stop command on a stopped motor writes the stopped line again and
    changes nothing else; a stop turns the pulse output off, clears the
    flag and the frequency, and keeps the speed, the direction and the
    other motor. *)
Theorem stop_idempotent (st : state) :
  m1_stop (m1_stop st) = sendResponse M1_STOPPED (m1_stop st) /\
  m2_stop (m2_stop st) = sendResponse M2_STOPPED (m2_stop st) /\
  M1.running (m1 (m1_stop st)) = false /\
  M1.freq_hz (m1 (m1_stop st)) = F64.zero /\
  Pwm.pulsing (pwm0 (m1_stop st)) = false /\
  M1.rpm (m1 (m1_stop st)) = M1.rpm (m1 st) /\
  m2 (m1_stop st) = m2 st /\ pwm1 (m1_stop st) = pwm1 st /\
  M2.in_motion (m2 (m2_stop st)) = false /\
  M2.freq_hz (m2 (m2_stop st)) = F64.zero /\
  Pwm.pulsing (pwm1 (m2_stop st)) = false /\
  M2.vel_mm_s (m2 (m2_stop st)) = M2.vel_mm_s (m2 st) /\
  M2.direction_fwd (m2 (m2_stop st)) = M2.direction_fwd (m2 st) /\
  m2_dir_pin (m2_stop st) = m2_dir_pin st /\
  m1 (m2_stop st) = m1 st /\ pwm0 (m2_stop st) = pwm0 st.
Proof. repeat split. Qed.

(** *** The pulse outputs and the state records *)

Lemma sendResponse_follow msg st :
  outputs_follow_flags st -> outputs_follow_flags (sendResponse msg st).
Proof. exact (fun H => H). Qed.

Lemma m1_set_rpm_follow rpm st :
  outputs_follow_flags st -> outputs_follow_flags (m1_set_rpm rpm st).
Proof.
  intros H.
  destruct (Z_lt_le_dec rpm 100) as [Hlo|Hlo];
    [rewrite m1_set_rpm_rejected by lia; exact H|].
  destruct (Z_lt_le_dec 6000 rpm) as [Hhi|Hhi];
    [rewrite m1_set_rpm_rejected by lia; exact H|].
  rewrite m1_set_rpm_accepted by lia.
  destruct H as (_ & B & _ & _ & _ & F & G).
  pose proof (rpm_check_accepted rpm (conj Hlo Hhi)) as C. unfold rpm_check in C.
  repeat (apply andb_prop in C; let C' := fresh "C" in destruct C as [C C']).
  apply Z.eqb_eq in C4.
  unfold outputs_follow_flags.
  cbn [m1 m2 pwm0 pwm1 m2_dir_pin M1.running M1.rpm M1.freq_hz Pwm.frequency].
  split; [reflexivity|]. split; [exact B|]. split; [right; lia|].
  split; [intros _; split; [lia | split; [reflexivity | exact C4]]|].
  split; [discriminate|]. split; assumption.
Qed.

Lemma m1_stop_follow st : outputs_follow_flags st -> outputs_follow_flags (m1_stop st).
Proof.
  intros (_ & B & C & _ & _ & F & G). unfold outputs_follow_flags, m1_stop.
  cbn [m1 m2 pwm0 pwm1 m2_dir_pin M1.running M1.rpm M1.freq_hz m1_pwm_enable
       pwm_enable mcpwm_set_signal_low mcpwm_set_duty upd_pwm set_m1 sendResponse].
  split; [reflexivity|]. split; [exact B|]. split; [exact C|].
  split; [discriminate|]. split; [reflexivity|]. split; assumption.
Qed.

Lemma m2_stop_follow st : outputs_follow_flags st -> outputs_follow_flags (m2_stop st).
Proof.
  intros (A & _ & C & D & E & _ & _). unfold outputs_follow_flags, m2_stop.
  cbn [m1 m2 pwm0 pwm1 m2_dir_pin M2.in_motion M2.freq_hz m2_pwm_enable
       pwm_enable mcpwm_set_signal_low mcpwm_set_duty upd_pwm set_m2 sendResponse].
  split; [exact A|]. split; [reflexivity|]. split; [exact C|].
  split; [exact D|]. split; [exact E|]. split; [discriminate | reflexivity].
Qed.

Lemma m2_feed_forward_follow st :
  outputs_follow_flags st -> outputs_follow_flags (m2_feed_forward st).
Proof.
  intros (A & _ & C & D & E & _ & _). unfold outputs_follow_flags, m2_feed_forward.
  cbv zeta.
  cbn [m1 m2 pwm0 pwm1 m2_dir_pin M2.in_motion M2.freq_hz M2.vel_mm_s M2.direction_fwd
       m2_pwm_enable m2_pwm_set_frequency pwm_enable mcpwm_set_frequency
       mcpwm_set_duty_type mcpwm_set_duty upd_pwm set_m2 sendResponse digitalWrite
       Pwm.frequency].
  change (M2_DIR_PIN =? M1_DIR_PIN) with false. change (M2_DIR_PIN =? M2_DIR_PIN) with true.
  cbv iota.
  cbn [m1 m2 pwm0 pwm1 m2_dir_pin M2.in_motion M2.freq_hz M2.vel_mm_s M2.direction_fwd].
  split; [exact A|]. split; [reflexivity|]. split; [exact C|].
  split; [exact D|]. split; [exact E|].
  split; [intros _; repeat split | discriminate].
Qed.

Lemma m2_feed_reverse_follow level st :
  outputs_follow_flags st -> outputs_follow_flags (m2_feed_reverse level st).
Proof.
  intros H. unfold m2_feed_reverse.
  destruct (is_m2_home_active level); [exact H|].
  destruct H as (A & _ & C & D & E & _ & _). unfold outputs_follow_flags.
  cbv zeta.
  cbn [m1 m2 pwm0 pwm1 m2_dir_pin M2.in_motion M2.freq_hz M2.vel_mm_s M2.direction_fwd
       m2_pwm_enable m2_pwm_set_frequency pwm_enable mcpwm_set_frequency
       mcpwm_set_duty_type mcpwm_set_duty upd_pwm set_m2 sendResponse digitalWrite
       Pwm.frequency].
  change (M2_DIR_PIN =? M1_DIR_PIN) with false. change (M2_DIR_PIN =? M2_DIR_PIN) with true.
  cbv iota.
  cbn [m1 m2 pwm0 pwm1 m2_dir_pin M2.in_motion M2.freq_hz M2.vel_mm_s M2.direction_fwd].
  split; [exact A|]. split; [reflexivity|]. split; [exact C|].
  split; [exact D|]. split; [exact E|].
  split; [intros _; repeat split | discriminate].
Qed.

Lemma m2_set_velocity_follow v st :
  outputs_follow_flags st -> outputs_follow_flags (m2_set_velocity v st).
Proof.
  intros H. unfold m2_set_velocity.
  destruct (F64.ltb v (F64.of_Z 1) || F64.ltb (F64.of_Z 400) v); [exact H|].
  destruct H as (A & B & C & D & E & F & G). unfold outputs_follow_flags.
  cbn [set_m2 m2 M2.in_motion].
  destruct (M2.in_motion (m2 st)) eqn:Em.
  - destruct (F eq_refl) as (_ & _ & F3).
    cbn [m1 m2 pwm0 pwm1 m2_dir_pin M2.in_motion M2.freq_hz M2.vel_mm_s
         M2.direction_fwd m2_pwm_set_frequency mcpwm_set_frequency upd_pwm set_m2
         sendResponse Pwm.frequency].
    split; [exact A|].
    split; [rewrite <- B; destruct (pwm1 st); reflexivity|].
    split; [exact C|]. split; [exact D|]. split; [exact E|].
    split; [intros _; repeat split; exact F3 | discriminate].
  - cbn [m1 m2 pwm0 pwm1 m2_dir_pin M2.in_motion M2.freq_hz M2.vel_mm_s
         M2.direction_fwd set_m2 sendResponse].
    split; [exact A|]. split; [exact B|]. split; [exact C|]. split; [exact D|].
    split; [exact E|]. split; [discriminate | intros _; exact (G eq_refl)].
Qed.

Lemma processSerialCommand_follow serial level st :
  outputs_follow_flags st -> outputs_follow_flags (processSerialCommand serial level st).
Proof.
  intros H. unfold processSerialCommand.
  destruct serial as [l|]; [|exact H]. destruct (text l) as [|c rest]; [exact H|].
  apply (sendResponse_follow (CMD (String c rest))) in H.
  set (st1 := sendResponse (CMD (String c rest)) st) in *. clearbody st1.
  destruct (is_char c "i" "I"); [exact H|].
  destruct (Ascii.eqb c "?"); [exact H|].
  destruct (Ascii.eqb c "1").
  { destruct (is_char _ "r" "R"); [now apply m1_set_rpm_follow|].
    destruct (is_char _ "s" "S"); [now apply m1_stop_follow | exact H]. }
  destruct (Ascii.eqb c "2"); [|exact H].
  destruct (is_char _ "f" "F"); [now apply m2_feed_forward_follow|].
  destruct (is_char _ "b" "B"); [now apply m2_feed_reverse_follow|].
  destruct (is_char _ "s" "S"); [now apply m2_stop_follow|].
  destruct (is_char _ "v" "V"); [now apply m2_set_velocity_follow | exact H].
Qed.

Lemma loop_follow i st : outputs_follow_flags st -> outputs_follow_flags (loop i st).
Proof.
  intros H. unfold loop. cbv zeta.
  apply (processSerialCommand_follow (serial i) (home_at_command i)) in H.
  assert (H' : outputs_follow_flags
                 (m2_check_home_stop (home_at_check i)
                    (processSerialCommand (serial i) (home_at_command i) st))).
  { unfold m2_check_home_stop.
    destruct (_ && _); [now apply m2_stop_follow | exact H]. }
  destruct (100 <=? _); exact H'.
Qed.

Lemma setup_follow : outputs_follow_flags setup.
Proof.
  unfold outputs_follow_flags, setup.
  cbn [m1 m2 pwm0 pwm1 m2_dir_pin M1.running M1.rpm M1.freq_hz M2.in_motion M2.freq_hz].
  split; [reflexivity|]. split; [reflexivity|]. split; [now left|].
  split; [discriminate|]. split; [reflexivity|]. split; [discriminate | reflexivity].
Qed.

(** X2.  In every reachable state of the controller the pulse outputs agree
    with the state records: an output carries pulses exactly when its motor
    is flagged as running or in motion, a stopped motor has frequency 0, a
    running M1 has an accepted speed and the timer frequency that belongs to
    it, and a feeding M2 has the timer frequency of its velocity and the
    direction pin of its direction flag. *)
Theorem reachable_outputs_follow_flags (st : state) :
  reachable st -> outputs_follow_flags st.
Proof.
  intros (passes & ->). unfold run.
  assert (H : forall s, outputs_follow_flags s ->
                outputs_follow_flags (fold_left (fun s i => loop i s) passes s)).
  { induction passes as [|i passes IH]; intros s Hs; [exact Hs|].
    cbn [fold_left]. apply IH. now apply loop_follow. }
  apply H, setup_follow.
Qed.


Lemma reachable_outputs_follow_flags_witness :
  let st := run [mkLoopInput (Some (mkLine "1r3500" 3500 (F32.of_Z 3500))) HIGH HIGH 5;
                 mkLoopInput (Some (mkLine "2f" 0 F32.zero)) HIGH HIGH 9] setup in
  Pwm.pulsing (pwm0 st) = true /\ Pwm.frequency (pwm0 st) = 375000 /\
  Pwm.pulsing (pwm1 st) = true /\ m2_dir_pin st = LOW.
Proof.
  cbv zeta.
  set (st := run _ setup).
  destruct (reachable_outputs_follow_flags st) as (A & B & _ & D & _ & F & _);
    [eexists; reflexivity|].
  assert (R1 : M1.running (m1 st) = true) by (vm_compute; reflexivity).
  assert (R2 : M2.in_motion (m2 st) = true) by (vm_compute; reflexivity).
  destruct (D R1) as (_ & _ & D3). destruct (F R2) as (_ & _ & F3).
  rewrite A, B, D3, F3. repeat split; try assumption; vm_compute; reflexivity.
Defined.

(** *** One feed command after the other *)

Lemma m2_feed_forward_state (st : state) :
  let vel :=
    if F64.eqb (M2.vel_mm_s (m2 st)) (F64.of_Z 0) then F64.of_Z 120
    else M2.vel_mm_s (m2 st) in
  let f := F64.mul vel M2_STEPS_PER_MM in
  m2_feed_forward st
    = mkState (m1 st) (M2.mk true true vel f) (heartbeat_counter st) (last_status_ms st)
              (pwm0 st) (Pwm.mk (F64.to_u32 (clamp_freq f)) PWM_DUTY_CYCLE false)
              (m1_dir_pin st) LOW (out st ++ [M2_FWD]).
Proof. destruct st. reflexivity. Qed.

Lemma m2_feed_reverse_state (level : bool) (st : state) :
  is_m2_home_active level = false ->
  let vel :=
    if F64.eqb (M2.vel_mm_s (m2 st)) (F64.of_Z 0) then F64.of_Z 120
    else M2.vel_mm_s (m2 st) in
  let f := F64.mul vel M2_STEPS_PER_MM in
  m2_feed_reverse level st
    = mkState (m1 st) (M2.mk true false vel f) (heartbeat_counter st) (last_status_ms st)
              (pwm0 st) (Pwm.mk (F64.to_u32 (clamp_freq f)) PWM_DUTY_CYCLE false)
              (m1_dir_pin st) HIGH (out st ++ [M2_REV]).
Proof. intros H. unfold m2_feed_reverse. rewrite H. destruct st. reflexivity. Qed.

(** X3.  A feed command overrides the feed before it: after a forward feed, a
    reverse feed (with the home sensor clear) leaves M2, its pulse output
    and its direction pin exactly as a reverse feed alone does, and the
    other way round.  Nothing of the first feed survives but its line of
    output and the velocity it may have defaulted. *)
Theorem feed_overrides_feed (level : bool) (st : state) :
  is_m2_home_active level = false ->
  let rev_after_fwd := m2_feed_reverse level (m2_feed_forward st) in
  let fwd_after_rev := m2_feed_forward (m2_feed_reverse level st) in
  m2 rev_after_fwd = m2 (m2_feed_reverse level st) /\
  pwm1 rev_after_fwd = pwm1 (m2_feed_reverse level st) /\
  m2_dir_pin rev_after_fwd = m2_dir_pin (m2_feed_reverse level st) /\
  M2.direction_fwd (m2 rev_after_fwd) = false /\
  m2_dir_pin rev_after_fwd = HIGH /\
  m2 fwd_after_rev = m2 (m2_feed_forward st) /\
  pwm1 fwd_after_rev = pwm1 (m2_feed_forward st) /\
  m2_dir_pin fwd_after_rev = m2_dir_pin (m2_feed_forward st) /\
  M2.direction_fwd (m2 fwd_after_rev) = true /\
  m2_dir_pin fwd_after_rev = LOW /\
  M2.in_motion (m2 rev_after_fwd) = true /\ M2.in_motion (m2 fwd_after_rev) = true /\
  Pwm.pulsing (pwm1 rev_after_fwd) = true /\ Pwm.pulsing (pwm1 fwd_after_rev) = true.
Proof.
  intros H. cbv zeta.
  rewrite !(m2_feed_reverse_state level) by exact H.
  rewrite !m2_feed_forward_state.
  cbn [m1 m2 pwm0 pwm1 m2_dir_pin M2.in_motion M2.freq_hz M2.vel_mm_s M2.direction_fwd].
  destruct (F64.eqb (M2.vel_mm_s (m2 st)) (F64.of_Z 0)) eqn:E;
    rewrite ?default_velocity_not_zero, ?E; repeat split.
Qed.

Lemma feed_overrides_feed_witness :
  M2.direction_fwd (m2 (m2_feed_reverse HIGH (m2_feed_forward setup))) = false /\
  m2_dir_pin (m2_feed_reverse HIGH (m2_feed_forward setup)) = HIGH /\
  M2.in_motion (m2 (m2_feed_reverse HIGH (m2_feed_forward setup))) = true.
Proof.
  destruct (feed_overrides_feed HIGH setup eq_refl)
    as (_ & _ & _ & A & B & _ & _ & _ & _ & _ & C & _).
  split; [exact A | split; [exact B | exact C]].
Defined.

(** *** Lines that are no command *)

(** X4.  Without a line, or with an empty line, the dispatcher does nothing at
    all.  A line whose first character is no command letter, and a line of
    the M1 or M2 family whose second character is no sub-command letter, are
    echoed and answered with their error line; nothing else changes. *)
Theorem dispatcher_rejects (level : bool) (st : state) :
  processSerialCommand None level st = st /\
  (forall l, text l = EmptyString -> processSerialCommand (Some l) level st = st) /\
  (forall l c rest,
     text l = String c rest -> unknown_command c = true ->
     same_machine st (processSerialCommand (Some l) level st) /\
     out (processSerialCommand (Some l) level st)
       = out st ++ [CMD (text l); ERROR_unknown]) /\
  (forall l rest,
     text l = String "1" rest ->
     is_char (charAt (text l) 1) "r" "R" = false ->
     is_char (charAt (text l) 1) "s" "S" = false ->
     same_machine st (processSerialCommand (Some l) level st) /\
     out (processSerialCommand (Some l) level st)
       = out st ++ [CMD (text l); ERROR_M1_subcommand]) /\
  (forall l rest,
     text l = String "2" rest ->
     is_char (charAt (text l) 1) "f" "F" = false ->
     is_char (charAt (text l) 1) "b" "B" = false ->
     is_char (charAt (text l) 1) "s" "S" = false ->
     is_char (charAt (text l) 1) "v" "V" = false ->
     same_machine st (processSerialCommand (Some l) level st) /\
     out (processSerialCommand (Some l) level st)
       = out st ++ [CMD (text l); ERROR_M2_subcommand]).
Proof.
  split; [reflexivity|].
  split; [intros l E; unfold processSerialCommand; now rewrite E|].
  split; [|split].
  - intros l c rest E U. unfold processSerialCommand. rewrite E.
    unfold unknown_command in U. apply negb_true_iff in U.
    apply orb_false_iff in U. destruct U as [U U4].
    apply orb_false_iff in U. destruct U as [U U3].
    apply orb_false_iff in U. destruct U as [U1 U2].
    rewrite U1, U2, U3, U4.
    split; [repeat split | cbn; now rewrite <- app_assoc].
  - intros l rest E R S. unfold processSerialCommand. rewrite E in *.
    cbn [is_char Ascii.eqb Bool.eqb orb]. cbv iota. rewrite R, S.
    split; [repeat split | cbn; now rewrite <- app_assoc].
  - intros l rest E F B S V. unfold processSerialCommand. rewrite E in *.
    cbn [is_char Ascii.eqb Bool.eqb orb]. cbv iota. rewrite F, B, S, V.
    split; [repeat split | cbn; now rewrite <- app_assoc].
Qed.

Lemma dispatcher_rejects_witness :
  out (processSerialCommand (Some (mkLine "x9" 9 F32.zero)) HIGH setup)
    = [CMD "x9"; ERROR_unknown] /\
  out (processSerialCommand (Some (mkLine "2" 0 F32.zero)) HIGH setup)
    = [CMD "2"; ERROR_M2_subcommand].
Proof.
  destruct (dispatcher_rejects HIGH setup) as (_ & _ & A & _ & B).
  split.
  - exact (proj2 (A (mkLine "x9" 9 F32.zero) _ _ eq_refl eq_refl)).
  - exact (proj2 (B (mkLine "2" 0 F32.zero) _ eq_refl eq_refl eq_refl eq_refl eq_refl)).
Defined.


(** *** The speed argument of M1 *)

(** X5.  The speed of an M1 run command is the parsed number reduced to 16
    bits, and the range test is made on that: a number whose low 16 bits lie
    from 100 to 6000 runs M1 at that speed whatever its higher bits, and any
    other number is answered with the range error and changes nothing. *)
Theorem rpm_is_low_16_bits (l : line) (rest : string) (level : bool) (st : state) :
  text l = String "1" (String "r" rest) \/ text l = String "1" (String "R" rest) ->
  let rpm := toInt l mod 65536 in
  let st' := processSerialCommand (Some l) level st in
  (100 <= rpm <= 6000 ->
     M1.rpm (m1 st') = rpm /\ M1.running (m1 st') = true /\
     Pwm.pulsing (pwm0 st') = true /\
     out st' = out st ++ [CMD (text l); M1_RUN rpm (m1_frequency rpm)]) /\
  (rpm < 100 \/ 6000 < rpm ->
     same_machine st st' /\
     out st' = out st ++ [CMD (text l); ERROR_M1_range]).
Proof.
  intros E rpm st'.
  assert (R : st' = m1_set_rpm rpm (sendResponse (CMD (text l)) st)).
  { subst st'. unfold processSerialCommand. destruct E as [E | E]; rewrite E; reflexivity. }
  rewrite R. split; intros H.
  - rewrite m1_set_rpm_accepted by exact H.
    cbn [m1 pwm0 out M1.rpm M1.running sendResponse].
    repeat split. now rewrite <- app_assoc.
  - rewrite m1_set_rpm_rejected by exact H.
    split; [repeat split | cbn; now rewrite <- app_assoc].
Qed.

Lemma rpm_is_low_16_bits_witness :
  M1.rpm (m1 (processSerialCommand (Some (mkLine "1r65636" 65636 (F32.of_Z 65636)))
                HIGH setup)) = 100 /\
  M1.running (m1 (processSerialCommand (Some (mkLine "1r65636" 65636 (F32.of_Z 65636)))
                    HIGH setup)) = true.
Proof.
  destruct (rpm_is_low_16_bits (mkLine "1r65636" 65636 (F32.of_Z 65636)) "65636" HIGH setup
              (or_introl eq_refl)) as [A _].
  destruct (A ltac:(cbn; lia)) as (A1 & A2 & _).
  split; [exact A1 | exact A2].
Defined.

(** *** The velocity of M2 *)

Lemma m2_set_velocity_effect (v : F64.t) (st : state) :
  F64.ltb v (F64.of_Z 1) = false -> F64.ltb (F64.of_Z 400) v = false ->
  let st' := m2_set_velocity v st in
  M2.vel_mm_s (m2 st') = v /\
  M2.in_motion (m2 st') = M2.in_motion (m2 st) /\
  M2.direction_fwd (m2 st') = M2.direction_fwd (m2 st) /\
  Pwm.duty (pwm1 st') = Pwm.duty (pwm1 st) /\
  Pwm.signal_low (pwm1 st') = Pwm.signal_low (pwm1 st) /\
  m1 st' = m1 st /\ pwm0 st' = pwm0 st /\ m2_dir_pin st' = m2_dir_pin st /\
  out st' = out st ++ [M2_VEL_SET v] /\
  (M2.in_motion (m2 st) = true ->
     M2.freq_hz (m2 st') = F64.mul v M2_STEPS_PER_MM /\
     Pwm.frequency (pwm1 st') = F64.to_u32 (clamp_freq (F64.mul v M2_STEPS_PER_MM))) /\
  (M2.in_motion (m2 st) = false ->
     pwm1 st' = pwm1 st /\ M2.freq_hz (m2 st') = M2.freq_hz (m2 st)).
Proof.
  intros H1 H2 st'. subst st'. unfold m2_set_velocity. rewrite H1, H2.
  cbn [orb set_m2 m2 M2.in_motion]. destruct st as [a b hb ls p0 p1 d1 d2 o].
  cbn [m2]. destruct (M2.in_motion b) eqn:E.
  - repeat split; discriminate.
  - repeat split; discriminate.
Qed.

(** X6.  An accepted velocity is stored and changes neither the motion flag,
    the direction, M1, nor whether the pulse output of M2 is on: while M2
    feeds, only the frequency of the running pulse train is set anew, to the
    velocity times 750; while M2 is stopped, its pulse output is not touched
    at all. *)
Theorem velocity_change_keeps_pulse_train (v : F64.t) (st : state) :
  F64.ltb v (F64.of_Z 1) = false -> F64.ltb (F64.of_Z 400) v = false ->
  let st' := m2_set_velocity v st in
  M2.vel_mm_s (m2 st') = v /\
  M2.in_motion (m2 st') = M2.in_motion (m2 st) /\
  M2.direction_fwd (m2 st') = M2.direction_fwd (m2 st) /\
  Pwm.duty (pwm1 st') = Pwm.duty (pwm1 st) /\
  Pwm.signal_low (pwm1 st') = Pwm.signal_low (pwm1 st) /\
  m1 st' = m1 st /\ pwm0 st' = pwm0 st /\ m2_dir_pin st' = m2_dir_pin st /\
  out st' = out st ++ [M2_VEL_SET v] /\
  (M2.in_motion (m2 st) = true ->
     M2.freq_hz (m2 st') = F64.mul v M2_STEPS_PER_MM /\
     Pwm.frequency (pwm1 st') = F64.to_u32 (clamp_freq (F64.mul v M2_STEPS_PER_MM))) /\
  (M2.in_motion (m2 st) = false ->
     pwm1 st' = pwm1 st /\ M2.freq_hz (m2 st') = M2.freq_hz (m2 st)).
Proof. exact (m2_set_velocity_effect v st). Qed.

Lemma velocity_change_keeps_pulse_train_witness :
  let st := m2_feed_forward setup in
  Pwm.frequency (pwm1 (m2_set_velocity (F64.of_Z 200) st))
    = F64.to_u32 (clamp_freq (F64.mul (F64.of_Z 200) M2_STEPS_PER_MM)) /\
  Pwm.signal_low (pwm1 (m2_set_velocity (F64.of_Z 200) st)) = false.
Proof.
  cbv zeta.
  destruct (velocity_change_keeps_pulse_train (F64.of_Z 200) (m2_feed_forward setup))
    as (_ & _ & _ & _ & A & _ & _ & _ & _ & B & _);
    try (vm_compute; reflexivity).
  split; [exact (proj2 (B eq_refl)) | exact A].
Defined.

(** X7.  For every whole velocity from 1 to 400 mm/s, given as the dispatcher
    gives it (a [float] widened to [double]), the velocity is accepted and
    a feed in either direction runs the pulse train at exactly 750 times
    the velocity in hertz; a velocity change during a feed programs the same
    frequency.  With no velocity set (velocity 0), a feed takes the default
    of 120 mm/s and runs at 90000 Hz. *)
Theorem whole_velocity_frequency (v : Z) (level : bool) (st : state) :
  1 <= v <= 400 -> is_m2_home_active level = false ->
  let st1 := m2_set_velocity (F64.of_f32 (F32.of_Z v)) st in
  M2.vel_mm_s (m2 st1) = F64.of_Z v /\
  out st1 = out st ++ [M2_VEL_SET (F64.of_Z v)] /\
  Pwm.frequency (pwm1 (m2_feed_forward st1)) = 750 * v /\
  Pwm.frequency (pwm1 (m2_feed_reverse level st1)) = 750 * v /\
  (M2.in_motion (m2 st) = true -> Pwm.frequency (pwm1 st1) = 750 * v) /\
  (F64.eqb (M2.vel_mm_s (m2 st)) (F64.of_Z 0) = true ->
     Pwm.frequency (pwm1 (m2_feed_forward st)) = 90000 /\
     Pwm.frequency (pwm1 (m2_feed_reverse level st)) = 90000 /\
     M2.vel_mm_s (m2 (m2_feed_forward st)) = F64.of_Z 120).
Proof.
  intros Hv Hh st1.
  pose proof (velocity_check_whole v Hv) as C. unfold velocity_check in C.
  repeat (apply andb_prop in C; let C' := fresh "C" in destruct C as [C C']).
  apply sf_eqb_eq in C. apply negb_true_iff in C1, C2, C3. apply Z.eqb_eq in C0.
  subst st1. rewrite C in *.
  set (st1 := m2_set_velocity (F64.of_Z v) st).
  destruct (m2_set_velocity_effect (F64.of_Z v) st C3 C2)
    as (A1 & A2 & _ & _ & _ & _ & _ & _ & A3 & A4 & _).
  fold st1 in A1, A2, A3, A4.
  split; [exact A1|]. split; [exact A3|].
  rewrite m2_feed_forward_state, (m2_feed_reverse_state level st1 Hh).
  rewrite m2_feed_forward_state, (m2_feed_reverse_state level st Hh).
  cbn [pwm1 Pwm.frequency m2 M2.vel_mm_s]. rewrite A1, C1.
  split; [exact C0|]. split; [exact C0|].
  split; [intros Hm; rewrite (proj2 (A4 Hm)); exact C0|].
  intros E. rewrite E. repeat split; apply default_frequency.
Qed.

Lemma whole_velocity_frequency_witness :
  Pwm.frequency (pwm1 (m2_feed_forward
                         (m2_set_velocity (F64.of_f32 (F32.of_Z 400)) setup))) = 300000 /\
  Pwm.frequency (pwm1 (m2_feed_forward setup)) = 90000.
Proof.
  destruct (whole_velocity_frequency 400 HIGH setup ltac:(lia) eq_refl)
    as (_ & _ & A & _ & _ & B).
  split; [exact A | exact (proj1 (B ltac:(vm_compute; reflexivity)))].
Defined.

End Axis12More.

(** * More of the backstop controller *)

Section BackstopMore.

Import Int Backstop.

Lemma zrange_In (n : nat) (lo c : Z) :
  lo <= c < lo + Z.of_nat n -> In c (zrange lo n).
Proof.
  revert lo. induction n as [|n IH]; intros lo H; [lia|].
  cbn [zrange]. destruct (Z.eq_dec lo c) as [E | E]; [left; exact E|].
  right. apply IH. lia.
Qed.

Lemma counts_range_complete (c : Z) : -10000 <= c <= 10000 -> In c counts_range.
Proof. intros H. unfold counts_range. apply zrange_In. lia. Qed.

Lemma sync_check_all : forallb sync_check counts_range = true.
Proof. vm_cast_no_check (eq_refl true). Qed.

Lemma sync_check_range (c : Z) :
  -10000 <= c <= 10000 -> synced_steps_of_counts c = 4 * c.
Proof.
  intros H. pose proof sync_check_all as A. rewrite forallb_forall in A.
  specialize (A c (counts_range_complete c H)). unfold sync_check in A.
  now apply Z.eqb_eq.
Qed.

Lemma velocity_guard (v : F32.t) : F32.leb v (F32.of_Z 0) = zero_or_negative v.
Proof. destruct v as [s|s| |s m e]; try destruct s; reflexivity. Qed.

Lemma wrap32_cancel (a b : Z) : wrap32 (wrap32 (a + b) - a) = wrap32 b.
Proof.
  unfold wrap32. f_equal.
  replace ((a + b + 2 ^ 31) mod 2 ^ 32 - 2 ^ 31 - a + 2 ^ 31)
    with ((a + b + 2 ^ 31) mod 2 ^ 32 - a) by lia.
  rewrite Zminus_mod_idemp_l. f_equal. lia.
Qed.

Local Opaque TOLERANCE_STEPS STEPS_PER_IN IN_PER_COUNT POSITION_TOLERANCE_IN
      MAX_POSITION_ERROR_IN CORRECTION_VELOCITY_SCALE MIN_CORRECTION_VEL_IPS VEL_ALPHA
      DEFAULT_VELOCITY_IPS F32.mul F32.sub F32.div F32.add F32.of_Z F32.lit F32.to_i32
      F32.leb F32.ltb F32.abs
      F64.div F64.of_Z F64.of_f32 F64.to_u32 F64.ltb.

Ltac case_ifs :=
  repeat match goal with
         | |- context [if ?c then _ else _] => destruct c
         end.

(** *** A whole open-loop move *)

Lemma abs32_difference (t c : Z) :
  INT32_MIN < t - c <= INT32_MAX -> abs32 (wrap32 (t - c)) = Z.abs (t - c).
Proof.
  intros H. unfold abs32.
  rewrite (wrap32_small (t - c)) by (unfold in_i32, INT32_MIN, INT32_MAX in *; lia).
  apply wrap32_small. unfold in_i32, INT32_MIN, INT32_MAX in *. lia.
Qed.

Lemma ticks_succ_succ (n : nat) (st : state) :
  ticks (S (S n)) st = ticks n (onTimer (onTimer st)).
Proof. reflexivity. Qed.

(** From the low phase and outside the tolerance, two ticks make one
    pulse and count one step. *)
Lemma one_pulse (st : state) :
  Motor.in_motion (motor st) = true ->
  Motor.step_pin_state (motor st) = false ->
  in_i32 (Motor.current_steps (motor st) + step_sign (motor st)) ->
  INT32_MIN < Motor.target_steps (motor st) - Motor.current_steps (motor st)
    <= INT32_MAX ->
  TOLERANCE_STEPS
    < Z.abs (Motor.target_steps (motor st) - Motor.current_steps (motor st)) ->
  let st2 := onTimer (onTimer st) in
  Motor.in_motion (motor st2) = true /\
  Motor.step_pin_state (motor st2) = false /\
  Motor.direction (motor st2) = Motor.direction (motor st) /\
  Motor.target_steps (motor st2) = Motor.target_steps (motor st) /\
  Motor.current_steps (motor st2)
    = Motor.current_steps (motor st) + step_sign (motor st) /\
  Motor.motion_complete_flag (motor st2) = Motor.motion_complete_flag (motor st) /\
  step_pin (onTimer st) = HIGH /\ step_pin st2 = LOW.
Proof.
  intros Hm Hs Hc Hd He.
  assert (R : onTimer st
              = upd_motor (Motor.set_pulse_counter 0)
                  (upd_motor (Motor.set_step_pin_state true)
                     (digitalWrite M3_STEP_PIN HIGH st))).
  { unfold onTimer. rewrite Hm, (abs32_difference _ _ Hd), Hs.
    now rewrite (proj2 (Z.leb_gt _ _) He). }
  cbv zeta. rewrite R.
  set (st1 := upd_motor _ _).
  unfold onTimer.
  change (Motor.in_motion (motor st1)) with (Motor.in_motion (motor st)).
  change (Motor.target_steps (motor st1)) with (Motor.target_steps (motor st)).
  change (Motor.current_steps (motor st1)) with (Motor.current_steps (motor st)).
  rewrite Hm, (abs32_difference _ _ Hd), (proj2 (Z.leb_gt _ _) He).
  change (negb (Motor.step_pin_state (motor st1))) with false.
  change (1 <=? wrapu32 (Motor.pulse_counter (motor st1) + 1)) with true.
  cbv iota. unfold step_sign in *. subst st1.
  destruct st as [e m rb ls sp dp ta tr]. cbn [motor] in *.
  destruct m as [t c v bv im d sps si pc f tp cl]. cbn in *.
  subst im sps. destruct d; cbn; rewrite wrap32_small by assumption; repeat split.
Qed.


(** X8.  An open-loop move of [8 + n] steps, started in the low phase of the
    pulse: after exactly [2 * n] ticks the step counter has made [n] steps
    toward the target and stands 8 steps (the tolerance) short of it, with
    the move still on; the next tick ends the move there: motion off,
    motion-complete flag raised, step output low.  The move never counts
    the last 8 steps. *)
Theorem open_loop_move (n : nat) (st : state) :
  Motor.in_motion (motor st) = true ->
  Motor.step_pin_state (motor st) = false ->
  in_i32 (Motor.target_steps (motor st)) ->
  in_i32 (Motor.current_steps (motor st)) ->
  TOLERANCE_STEPS + Z.of_nat n <= INT32_MAX ->
  Motor.target_steps (motor st) - Motor.current_steps (motor st)
    = step_sign (motor st) * (TOLERANCE_STEPS + Z.of_nat n) ->
  let st' := ticks (2 * n) st in
  Motor.current_steps (motor st')
    = Motor.current_steps (motor st) + step_sign (motor st) * Z.of_nat n /\
  Motor.target_steps (motor st') - Motor.current_steps (motor st')
    = step_sign (motor st) * TOLERANCE_STEPS /\
  Motor.in_motion (motor st') = true /\
  Motor.step_pin_state (motor st') = false /\
  Motor.in_motion (motor (onTimer st')) = false /\
  Motor.motion_complete_flag (motor (onTimer st')) = true /\
  step_pin (onTimer st') = LOW /\
  Motor.current_steps (motor (onTimer st')) = Motor.current_steps (motor st').
Proof.
  revert st. induction n as [|n IH]; intros st Hm Hs Ht Hc Hn Hd.
  - cbv zeta. change (ticks (2 * 0) st) with st.
    assert (Hsg : step_sign (motor st) = 1 \/ step_sign (motor st) = -1)
      by (unfold step_sign; destruct (Motor.direction (motor st)); auto).
    pose proof TOLERANCE_STEPS_value as Tv.
    assert (R : onTimer st
                = digitalWrite M3_STEP_PIN LOW
                    (upd_motor (Motor.set_motion_complete_flag true)
                       (upd_motor (Motor.set_in_motion false) st))).
    { unfold onTimer. rewrite Hm, abs32_difference
        by (unfold INT32_MIN, INT32_MAX in *; lia).
      replace (Z.abs _ <=? TOLERANCE_STEPS) with true; [reflexivity|].
      symmetry. apply Z.leb_le. lia. }
    rewrite R. repeat split; try assumption; cbn [Z.of_nat]; lia.
  - cbv zeta. replace (2 * S n)%nat with (S (S (2 * n))) by lia.
    rewrite ticks_succ_succ.
    assert (Hsg : step_sign (motor st) = 1 \/ step_sign (motor st) = -1)
      by (unfold step_sign; destruct (Motor.direction (motor st)); auto).
    pose proof TOLERANCE_STEPS_value as Tv.
    rewrite Nat2Z.inj_succ in Hn, Hd.
    destruct (one_pulse st Hm Hs) as (A & B & C & D & E & _).
    + unfold in_i32, INT32_MIN, INT32_MAX in *. lia.
    + unfold INT32_MIN, INT32_MAX in *. lia.
    + lia.
    + set (st2 := onTimer (onTimer st)) in *.
      assert (Sg : step_sign (motor st2) = step_sign (motor st))
        by (unfold step_sign; now rewrite C).
      destruct (IH st2 A B) as (I1 & I2 & I3 & I4 & I5 & I6 & I7 & I8).
      * now rewrite D.
      * rewrite E. unfold in_i32, INT32_MIN, INT32_MAX in *. lia.
      * lia.
      * rewrite D, E, Sg. lia.
      * rewrite Sg, E in *. rewrite Nat2Z.inj_succ.
        repeat split; try assumption; lia.
Qed.

Lemma open_loop_move_witness :
  let st := run [command_pass 10 (mkLine "g1.0" (F32.lit 10 1))]
                (setup (mkSetupInput false false true 0 0)) in
  Motor.current_steps (motor (ticks (2 * 1081) st)) = 1081 /\
  Motor.in_motion (motor (ticks (2 * 1081) st)) = true /\
  Motor.in_motion (motor (onTimer (ticks (2 * 1081) st))) = false.
Proof.
  cbv zeta.
  set (st := run _ _).
  destruct (open_loop_move 1081 st) as (A & _ & B & _ & C & _);
    try (vm_compute; reflexivity).
  - vm_compute. split; discriminate.
  - vm_compute. split; discriminate.
  - vm_compute. discriminate.
  - split; [exact A | split; [exact B | exact C]].
Defined.


(** *** Bounce on an encoder channel *)

(** X9.  The table is antisymmetric: the entry of a transition and the entry
    of the transition back add up to 0.  So an edge followed by the edge
    back to the state before (a bouncing channel) leaves the count and the
    remembered state as they were, whichever edge it was. *)
Theorem bounce_cancels (a b a0 b0 : bool) (st : state) :
  0 <= Encoder.last_ab (encoder st) <= 3 ->
  in_i32 (Encoder.counts (encoder st) - 1) ->
  in_i32 (Encoder.counts (encoder st) + 1) ->
  ab_state a0 b0 = Encoder.last_ab (encoder st) ->
  let st' := handleEncoderChange a0 b0 (handleEncoderChange a b st) in
  (forall prev curr, 0 <= prev <= 3 -> 0 <= curr <= 3 ->
     quad_delta prev curr + quad_delta curr prev = 0) /\
  Encoder.counts (encoder st') = Encoder.counts (encoder st) /\
  Encoder.last_ab (encoder st') = Encoder.last_ab (encoder st) /\
  motor st' = motor st.
Proof.
  intros Hp Hlo Hhi Hback st'.
  assert (Anti : forall prev curr, 0 <= prev <= 3 -> 0 <= curr <= 3 ->
                   quad_delta prev curr + quad_delta curr prev = 0).
  { intros prev curr H1 H2.
    destruct (two_bits prev H1) as [-> | [-> | [-> | ->]]];
      destruct (two_bits curr H2) as [-> | [-> | [-> | ->]]]; reflexivity. }
  split; [exact Anti|].
  destruct (handleEncoderChange_spec a b st) as [C1 L1].
  destruct (handleEncoderChange_spec a0 b0 (handleEncoderChange a b st)) as [C2 L2].
  fold st' in C2, L2.
  pose proof (quad_delta_bounds _ _ Hp (ab_state_range a b)) as B1.
  pose proof (Anti _ _ Hp (ab_state_range a b)) as A1.
  rewrite wrap32_small in C1 by (unfold in_i32 in *; lia).
  rewrite L1, C1, Hback in C2.
  rewrite wrap32_small in C2 by (unfold in_i32 in *; lia).
  split; [rewrite C2; lia|]. split; [now rewrite L2|]. reflexivity.
Qed.

Lemma bounce_cancels_witness :
  let st := decode [(true, false)] (setup (mkSetupInput false false true 0 0)) in
  Encoder.counts (encoder (handleEncoderChange true false
                             (handleEncoderChange false false st))) = 1.
Proof.
  cbv zeta.
  assert (H1 : 0 <= Encoder.last_ab (encoder (decode [(true, false)]
                 (setup (mkSetupInput false false true 0 0)))) <= 3)
    by (vm_compute; split; discriminate).
  assert (H2 : in_i32 (Encoder.counts (encoder (decode [(true, false)]
                 (setup (mkSetupInput false false true 0 0)))) - 1))
    by (vm_compute; split; discriminate).
  assert (H3 : in_i32 (Encoder.counts (encoder (decode [(true, false)]
                 (setup (mkSetupInput false false true 0 0)))) + 1))
    by (vm_compute; split; discriminate).
  exact (proj1 (proj2 (bounce_cancels false false true false _ H1 H2 H3 eq_refl))).
Defined.

(** *** What the main loop leaves to the interrupts *)

Lemma pulse_view_loop i st : pulse_view (loop i st) = pulse_view st.
Proof.
  assert (S1 : forall s, pulse_view (syncMotorStepsWithEncoder s) = pulse_view s)
    by (intros s; unfold syncMotorStepsWithEncoder; destruct (negb _); reflexivity).
  assert (S2 : forall s, pulse_view (stop s) = pulse_view s)
    by (intros s; unfold stop; cbv zeta; destruct (Encoder.detected _); reflexivity).
  assert (S3 : forall s, pulse_view (closedLoopCorrection s) = pulse_view s).
  { intros s. unfold closedLoopCorrection. cbv zeta.
    repeat match goal with
           | |- context [if ?c then _ else _] => destruct c
           end; rewrite ?S2; try reflexivity;
      unfold syncMotorStepsWithEncoder;
      repeat match goal with
             | |- context [if ?c then _ else _] => destruct c
             end; reflexivity. }
  assert (S4 : forall p s, pulse_view (gotoPosition p s) = pulse_view s).
  { intros p s. unfold gotoPosition, syncMotorStepsWithEncoder. cbv zeta.
    repeat match goal with
           | |- context [if ?c then _ else _] => destruct c
           end; reflexivity. }
  assert (S5 : forall s, pulse_view (home s) = pulse_view s).
  { intros s. unfold home, syncMotorStepsWithEncoder. cbv zeta.
    repeat match goal with
           | |- context [if ?c then _ else _] => destruct c
           end; reflexivity. }
  assert (S6 : forall v s, pulse_view (setVelocity v s) = pulse_view s).
  { intros v s. unfold setVelocity. cbv zeta.
    repeat match goal with
           | |- context [if ?c then _ else _] => destruct c
           end; reflexivity. }
  assert (S7 : forall s, pulse_view (queryStatus s) = pulse_view s)
    by (intros s; unfold queryStatus; cbv zeta; destruct (Encoder.detected _); reflexivity).
  assert (S8 : forall s, pulse_view (sendStatusUpdate s) = pulse_view s)
    by (intros s; unfold sendStatusUpdate; destruct (Encoder.detected _); reflexivity).
  assert (S9 : forall l s, pulse_view (processSerialCommand l s) = pulse_view s).
  { intros l s. unfold processSerialCommand. destruct l as [l|]; [|reflexivity].
    destruct (text l); [reflexivity|].
    repeat match goal with
           | |- context [if ?c then _ else _] => destruct c
           end; rewrite ?S4, ?S5, ?S2, ?S6, ?S7; reflexivity. }
  assert (S10 : forall now s, pulse_view (updateEncoder now s) = pulse_view s).
  { intros now s. unfold updateEncoder. cbv zeta.
    repeat match goal with
           | |- context [if ?c then _ else _] => destruct c
           end; reflexivity. }
  assert (S11 : forall now lv s, pulse_view (updateResetButton now lv s) = pulse_view s).
  { intros now lv s. unfold updateResetButton. cbv zeta.
    repeat match goal with
           | |- context [if ?c then _ else _] => destruct c
           end; reflexivity. }
  unfold loop. cbv zeta.
  change (pulse_view (delay 2 ?s)) with (pulse_view s). rewrite S9.
  repeat match goal with
         | |- context [if ?c then _ else _] => destruct c
         end;
    rewrite ?S8; change (pulse_view (set_last_status_ms ?v ?s)) with (pulse_view s);
    rewrite ?S3;
    change (pulse_view (sendResponse ?m ?s)) with (pulse_view s);
    change (pulse_view (upd_motor (Motor.set_motion_complete_flag false) ?s))
      with (pulse_view s);
    rewrite S11, S10; reflexivity.
Qed.

(** X10.  No pass of the main loop, whatever it reads and whatever command it
    runs, writes the step output, the phase of the pulse, the pulse
    counter, the remembered encoder channels or the encoder and closed-loop
    flags: they change in the interrupt routines only. *)
Theorem main_loop_leaves_pulse_state (i : loop_input) (st : state) :
  step_pin (loop i st) = step_pin st /\
  Motor.step_pin_state (motor (loop i st)) = Motor.step_pin_state (motor st) /\
  Motor.pulse_counter (motor (loop i st)) = Motor.pulse_counter (motor st) /\
  Encoder.last_ab (encoder (loop i st)) = Encoder.last_ab (encoder st) /\
  Encoder.detected (encoder (loop i st)) = Encoder.detected (encoder st) /\
  Motor.closed_loop_enabled (motor (loop i st)) = Motor.closed_loop_enabled (motor st).
Proof.
  pose proof (pulse_view_loop i st) as P. pose proof (loop_view i st) as V.
  unfold pulse_view in P. unfold isr_view in V.
  injection P as P1 P2 P3. injection V as V1 V2 V3 V4 V5.
  repeat split; assumption.
Qed.

(** X11.  Every reachable state has the encoder present and the closed loop
    enabled, a two-bit remembered channel state, and a pulse counter that
    is 0 or 1, and 0 whenever the pulse is in its high phase. *)
Theorem reachable_isr_invariant (st : state) :
  reachable st ->
  Encoder.detected (encoder st) = true /\
  Motor.closed_loop_enabled (motor st) = true /\
  0 <= Encoder.last_ab (encoder st) <= 3 /\
  0 <= Motor.pulse_counter (motor st) <= 1 /\
  (Motor.step_pin_state (motor st) = true -> Motor.pulse_counter (motor st) = 0).
Proof. exact (reachable_invariant st). Qed.

Lemma reachable_isr_invariant_witness :
  let st := run [command_pass 10 (mkLine "g1.0" (F32.lit 10 1)); Tick; Edge true false]
                (setup (mkSetupInput false false true 0 0)) in
  Motor.pulse_counter (motor st) = 0 /\ 0 <= Encoder.last_ab (encoder st) <= 3.
Proof.
  cbv zeta. set (st := run _ _).
  destruct (reachable_isr_invariant st (run_reachable _ _)) as (_ & _ & A & _ & B).
  split; [apply B; vm_compute; reflexivity | exact A].
Defined.

(** *** Encoder counts and motor steps *)

Lemma updateEncoder_fields (now : Z) (st : state) :
  Encoder.detected (encoder st) = true ->
  let st' := updateEncoder now st in
  Encoder.position_in (encoder st')
    = F32.mul (F32.of_Z (wrap32 (Encoder.counts (encoder st)))) IN_PER_COUNT /\
  Encoder.detected (encoder st') = true /\
  Encoder.counts (encoder st') = Encoder.counts (encoder st) /\
  motor st' = motor st.
Proof.
  intros Hd st'. subst st'. unfold updateEncoder, readEncoderCount. rewrite Hd.
  cbn [negb]. cbv zeta. case_ifs; cbn; auto.
Qed.

(** X12.  The encoder gives 1600 counts and the motor takes 6400 steps per turn
    of the pulley.  For every count from -10000 to 10000, the encoder update
    followed by the synchronisation sets the step counter to exactly four
    times the count: the two conversions through inches lose nothing. *)
Theorem sync_after_update (now : Z) (st : state) :
  Encoder.detected (encoder st) = true ->
  -10000 <= Encoder.counts (encoder st) <= 10000 ->
  let st' := syncMotorStepsWithEncoder (updateEncoder now st) in
  Motor.current_steps (motor st') = 4 * Encoder.counts (encoder st) /\
  Encoder.counts (encoder st') = Encoder.counts (encoder st) /\
  Motor.target_steps (motor st') = Motor.target_steps (motor st) /\
  Motor.in_motion (motor st') = Motor.in_motion (motor st).
Proof.
  intros Hd Hc st'. subst st'.
  destruct (updateEncoder_fields now st Hd) as (P & D & C & M).
  unfold syncMotorStepsWithEncoder. rewrite D. cbn [negb].
  cbn [motor upd_motor encoder Motor.current_steps Motor.set_current_steps
       Motor.target_steps Motor.in_motion].
  rewrite P, C, M.
  rewrite wrap32_small by (unfold in_i32, INT32_MIN, INT32_MAX; lia).
  split; [exact (sync_check_range _ Hc)|]. repeat split.
Qed.

Lemma sync_after_update_witness :
  Motor.current_steps
    (motor (syncMotorStepsWithEncoder
              (updateEncoder 20
                 (run (cycle_up ++ cycle_up) (setup (mkSetupInput false false true 0 0))))))
  = 32.
Proof.
  assert (H1 : Encoder.detected (encoder (run (cycle_up ++ cycle_up)
                 (setup (mkSetupInput false false true 0 0)))) = true) by reflexivity.
  assert (H2 : -10000 <= Encoder.counts (encoder (run (cycle_up ++ cycle_up)
                 (setup (mkSetupInput false false true 0 0)))) <= 10000)
    by (vm_compute; split; discriminate).
  exact (proj1 (sync_after_update 20 _ H1 H2)).
Defined.


(** *** The reset button *)

Lemma set_reset_button_same (st : state) : set_reset_button (reset_button st) st = st.
Proof. destruct st. reflexivity. Qed.

(** X13.  A pass resets the encoder exactly when the button reads pressed as on
    the pass before, no reset was made since the press and the press is
    more than 50 ms old; that pass writes ENCODER_RESET once, zeroes the
    count and the position, and latches.  No other pass touches the
    encoder or the trace, no pass touches the motor or the outputs, and
    with the latch set, holding the button changes nothing however many
    passes see it. *)
Theorem reset_button_debounce (now : Z) (level : bool) (st : state) :
  let rb := reset_button st in
  let st' := updateResetButton now level st in
  motor st' = motor st /\ step_pin st' = step_pin st /\ dir_pin st' = dir_pin st /\
  timer_alarm st' = timer_alarm st /\
  (reset_due now level rb = true ->
     trace st' = trace st ++ [Serial ENCODER_RESET] /\
     Encoder.counts (encoder st') = 0 /\
     Encoder.position_in (encoder st') = F32.zero /\
     Encoder.last_ab (encoder st') = Encoder.last_ab (encoder st) /\
     ResetButton.triggered (reset_button st') = true) /\
  (reset_due now level rb = false ->
     encoder st' = encoder st /\ trace st' = trace st) /\
  (forall nows, ResetButton.triggered rb = true -> ResetButton.last_level rb = LOW ->
     fold_left (fun s n => updateResetButton n LOW s) nows st = st).
Proof.
  intros rb st'. subst rb st'.
  assert (Hheld : forall s n, ResetButton.triggered (reset_button s) = true ->
                    ResetButton.last_level (reset_button s) = LOW ->
                    updateResetButton n LOW s = s).
  { intros s n Ht Hl. unfold updateResetButton. cbv zeta. rewrite Hl.
    cbn [Bool.eqb LOW negb]. rewrite Ht. cbn [negb andb].
    apply set_reset_button_same. }
  split; [unfold updateResetButton; cbv zeta; case_ifs; reflexivity|].
  split; [unfold updateResetButton; cbv zeta; case_ifs; reflexivity|].
  split; [unfold updateResetButton; cbv zeta; case_ifs; reflexivity|].
  split; [unfold updateResetButton; cbv zeta; case_ifs; reflexivity|].
  split; [|split].
  - unfold reset_due. intros H.
    apply andb_prop in H. destruct H as [H H4].
    apply andb_prop in H. destruct H as [H H3].
    apply andb_prop in H. destruct H as [H1 H2].
    apply Bool.eqb_prop in H1, H2. subst level.
    unfold updateResetButton. cbv zeta. rewrite H2.
    cbn [Bool.eqb LOW negb]. rewrite H3, H4. cbn [andb]. repeat split.
  - unfold reset_due. intros H. unfold updateResetButton. cbv zeta.
    destruct level; cbn [Bool.eqb LOW HIGH negb andb] in *.
    + rewrite andb_false_r. cbn [andb]. case_ifs; split; reflexivity.
    + destruct (ResetButton.last_level (reset_button st)) eqn:Hl;
        cbn [Bool.eqb LOW HIGH negb andb ResetButton.triggered ResetButton.last_edge_ms] in *.
      * replace (wrapu32 (now - now)) with 0
          by (unfold wrapu32; rewrite Z.sub_diag; reflexivity).
        change (RESET_DEBOUNCE_MS <? 0) with false. rewrite andb_false_r.
        split; reflexivity.
      * destruct (ResetButton.triggered (reset_button st));
          destruct (RESET_DEBOUNCE_MS <? _); cbn [negb andb] in H |- *;
          try discriminate; split; reflexivity.
  - intros nows Ht Hl. induction nows as [|n nows IH]; [reflexivity|].
    cbn [fold_left]. rewrite (Hheld st n Ht Hl). exact IH.
Qed.

Lemma reset_button_debounce_witness :
  let st := setup (mkSetupInput false false false 0 0) in
  Encoder.counts (encoder (updateResetButton 51 LOW st)) = 0 /\
  encoder (updateResetButton 50 LOW st) = encoder st /\
  fold_left (fun s n => updateResetButton n LOW s) [120; 200] (updateResetButton 51 LOW st)
    = updateResetButton 51 LOW st.
Proof.
  cbv zeta.
  set (st := setup (mkSetupInput false false false 0 0)).
  assert (H0 : reset_due 51 LOW (reset_button st) = true) by (vm_compute; reflexivity).
  assert (H0' : reset_due 50 LOW (reset_button st) = false) by (vm_compute; reflexivity).
  set (st1 := updateResetButton 51 LOW st).
  assert (H1 : ResetButton.triggered (reset_button st1) = true)
    by (vm_compute; reflexivity).
  assert (H2 : ResetButton.last_level (reset_button st1) = LOW)
    by (vm_compute; reflexivity).
  pose proof (reset_button_debounce 51 LOW st) as (_ & _ & _ & _ & A & _ & _).
  pose proof (reset_button_debounce 50 LOW st) as (_ & _ & _ & _ & _ & B & _).
  pose proof (reset_button_debounce 51 LOW st1) as (_ & _ & _ & _ & _ & _ & C).
  split; [exact (proj1 (proj2 (A H0)))|].
  split; [exact (proj1 (B H0'))|].
  exact (C [120; 200] H1 H2).
Defined.

(** *** Commands that only answer *)

Lemma answers_only_letters (c : ascii) :
  answers_only c = true ->
  is_char c "g" "G" = false /\ is_char c "h" "H" = false /\
  is_char c "s" "S" = false /\ is_char c "v" "V" = false /\
  is_char c "r" "R" = false.
Proof.
  destruct c as [[] [] [] [] [] [] [] []]; vm_compute; intros H;
    try discriminate H; repeat split.
Qed.

(** X14.  No line, an empty line: nothing happens, nothing is written.  A line
    whose first character is [i], [I], [?] or no command letter at all is
    echoed and answered with one line, and changes nothing else: encoder,
    motor, button, outputs and timer are as before.  For a character that
    is no command the answer is the unknown-command error. *)
Theorem answering_commands_change_nothing (l : line) (c : ascii) (rest : string)
    (st : state) :
  text l = String c rest ->
  answers_only c = true ->
  let st' := processSerialCommand (Some l) st in
  same_axis st st' /\
  (exists r, trace st' = trace st ++ [Serial (CMD (text l)); Serial r]) /\
  (unknown_command c = true ->
   trace st' = trace st ++ [Serial (CMD (text l)); Serial ERROR_unknown]) /\
  processSerialCommand None st = st /\
  (forall l0, text l0 = EmptyString -> processSerialCommand (Some l0) st = st).
Proof.
  intros Ht Ha st'. subst st'.
  assert (Q : forall s, same_axis st s -> same_axis st (queryStatus s)).
  { intros s Hs. unfold queryStatus. cbv zeta. destruct (Encoder.detected _); exact Hs. }
  assert (Tq : forall s, exists r, trace (queryStatus s) = trace s ++ [Serial r]).
  { intros s. unfold queryStatus. cbv zeta.
    destruct (Encoder.detected _); eexists; reflexivity. }
  split; [|split; [|split; [|split]]].
  - unfold processSerialCommand. rewrite Ht.
    destruct (answers_only_letters c Ha) as (-> & -> & -> & -> & ->).
    destruct (is_char c "i" "I"); [repeat split|].
    destruct (Ascii.eqb c "?"); [apply Q|]; repeat split.
  - unfold processSerialCommand. rewrite Ht.
    destruct (answers_only_letters c Ha) as (-> & -> & -> & -> & ->).
    destruct (is_char c "i" "I").
    { eexists. cbn. rewrite <- app_assoc. reflexivity. }
    destruct (Ascii.eqb c "?").
    { destruct (Tq (sendResponse (CMD (String c rest)) st)) as [r Hr].
      exists r. rewrite Hr. cbn. rewrite <- app_assoc. reflexivity. }
    eexists. cbn. rewrite <- app_assoc. reflexivity.
  - intros Hu. unfold processSerialCommand. rewrite Ht.
    unfold unknown_command in Hu.
    destruct (is_char c "g" "G"); [discriminate|].
    destruct (is_char c "h" "H"); [discriminate|].
    destruct (is_char c "s" "S"); [discriminate|].
    destruct (is_char c "v" "V"); [discriminate|].
    destruct (is_char c "r" "R"); [discriminate|].
    destruct (is_char c "i" "I"); [discriminate|].
    destruct (Ascii.eqb c "?"); [discriminate|].
    cbn. rewrite <- app_assoc. reflexivity.
  - reflexivity.
  - intros l0 H0. unfold processSerialCommand. rewrite H0. reflexivity.
Qed.

Lemma answering_commands_change_nothing_witness :
  let st := setup (mkSetupInput false false true 0 0) in
  motor (processSerialCommand (Some (mkLine "x12" F32.zero)) st) = motor st /\
  trace (processSerialCommand (Some (mkLine "x12" F32.zero)) st)
    = trace st ++ [Serial (CMD "x12"); Serial ERROR_unknown].
Proof.
  cbv zeta.
  pose proof (answering_commands_change_nothing (mkLine "x12" F32.zero) "x" "12"
                (setup (mkSetupInput false false true 0 0)) eq_refl eq_refl)
    as (A & _ & B & _).
  split; [exact (proj1 (proj2 A)) | exact (B eq_refl)].
Defined.

(** *** The completion flag *)

Lemma flag_sync st :
  Motor.motion_complete_flag (motor (syncMotorStepsWithEncoder st))
  = Motor.motion_complete_flag (motor st).
Proof. unfold syncMotorStepsWithEncoder. destruct (negb _); reflexivity. Qed.

Lemma flag_stop st :
  Motor.motion_complete_flag (motor (stop st)) = Motor.motion_complete_flag (motor st).
Proof. unfold stop. cbv zeta. destruct (Encoder.detected _); reflexivity. Qed.

Lemma flag_closedLoopCorrection st :
  Motor.motion_complete_flag (motor (closedLoopCorrection st))
  = Motor.motion_complete_flag (motor st).
Proof.
  unfold closedLoopCorrection. cbv zeta.
  case_ifs; rewrite ?flag_stop; try reflexivity;
    unfold syncMotorStepsWithEncoder; case_ifs; reflexivity.
Qed.

Lemma flag_processSerialCommand l st :
  Motor.motion_complete_flag (motor (processSerialCommand l st))
  = Motor.motion_complete_flag (motor st).
Proof.
  unfold processSerialCommand. destruct l as [l|]; [|reflexivity].
  destruct (text l); [reflexivity|].
  destruct (is_char a "g" "G").
  { unfold gotoPosition, syncMotorStepsWithEncoder. cbv zeta. case_ifs; reflexivity. }
  destruct (is_char a "h" "H").
  { unfold home, syncMotorStepsWithEncoder. cbv zeta. case_ifs; reflexivity. }
  destruct (is_char a "s" "S"); [now rewrite flag_stop|].
  destruct (is_char a "v" "V").
  { unfold setVelocity. cbv zeta. case_ifs; reflexivity. }
  destruct (is_char a "r" "R"); [reflexivity|].
  destruct (is_char a "i" "I"); [reflexivity|].
  destruct (Ascii.eqb a "?"); [|reflexivity].
  unfold queryStatus. cbv zeta. destruct (Encoder.detected _); reflexivity.
Qed.

Lemma flag_sendStatusUpdate st :
  Motor.motion_complete_flag (motor (sendStatusUpdate st))
  = Motor.motion_complete_flag (motor st).
Proof. unfold sendStatusUpdate. destruct (Encoder.detected _); reflexivity. Qed.


(** *** What the timer routine leaves alone *)

(** X16.  The timer routine writes the step output, the pulse phase, the step
    counter, the motion flag and the completion flag, and nothing else:
    not the encoder, the direction output, the timer period, the target,
    the direction, the velocities or the trace. *)
Theorem timer_routine_frame (st : state) :
  encoder (onTimer st) = encoder st /\
  dir_pin (onTimer st) = dir_pin st /\
  timer_alarm (onTimer st) = timer_alarm st /\
  trace (onTimer st) = trace st /\
  reset_button (onTimer st) = reset_button st /\
  last_status_ms (onTimer st) = last_status_ms st /\
  Motor.target_steps (motor (onTimer st)) = Motor.target_steps (motor st) /\
  Motor.direction (motor (onTimer st)) = Motor.direction (motor st) /\
  Motor.velocity_ips (motor (onTimer st)) = Motor.velocity_ips (motor st) /\
  Motor.base_velocity_ips (motor (onTimer st)) = Motor.base_velocity_ips (motor st) /\
  Motor.step_interval_us (motor (onTimer st)) = Motor.step_interval_us (motor st) /\
  Motor.target_position_in (motor (onTimer st)) = Motor.target_position_in (motor st) /\
  Motor.closed_loop_enabled (motor (onTimer st)) = Motor.closed_loop_enabled (motor st).
Proof.
  unfold onTimer. cbv zeta.
  destruct (Motor.in_motion (motor st)); [|repeat split].
  destruct (abs32 _ <=? TOLERANCE_STEPS); [repeat split|].
  destruct (negb (Motor.step_pin_state (motor st))); [repeat split|].
  destruct (1 <=? _); [|repeat split].
  cbn. destruct (Motor.direction (motor st)) eqn:Ed; repeat split; exact Ed.
Qed.


(** *** The timer period *)

Lemma updateTimerFrequency_floor (st : state) :
  F64.ltb (F64.of_f32 (F32.mul (Motor.velocity_ips (motor st)) STEPS_PER_IN))
          (F64.of_Z 10) = true ->
  Motor.step_interval_us (motor (updateTimerFrequency st)) = 100000 /\
  timer_alarm (updateTimerFrequency st) = 50000.
Proof.
  intros H. unfold updateTimerFrequency. cbv zeta. rewrite H.
  cbn [motor upd_motor timerAlarmWrite timer_alarm Motor.step_interval_us
       Motor.set_step_interval_us].
  rewrite floor_interval. split; reflexivity.
Qed.

(** X17.  The step rate has a floor of 10 steps per second: a velocity whose
    rate is lower gives a step interval of 100000 microseconds and a timer
    period of 50000, whatever the velocity.  In every case the timer period
    is half the step interval, and the velocity, the counters and the
    motion flag are as before. *)
Theorem timer_rate_floor (st : state) :
  let st' := updateTimerFrequency st in
  timer_alarm st' = Motor.step_interval_us (motor st') / 2 /\
  Motor.velocity_ips (motor st') = Motor.velocity_ips (motor st) /\
  Motor.in_motion (motor st') = Motor.in_motion (motor st) /\
  Motor.current_steps (motor st') = Motor.current_steps (motor st) /\
  Motor.target_steps (motor st') = Motor.target_steps (motor st) /\
  encoder st' = encoder st /\ trace st' = trace st /\ step_pin st' = step_pin st /\
  (F64.ltb (F64.of_f32 (F32.mul (Motor.velocity_ips (motor st)) STEPS_PER_IN))
           (F64.of_Z 10) = true ->
   Motor.step_interval_us (motor st') = 100000 /\ timer_alarm st' = 50000).
Proof.
  cbv zeta. repeat (split; [reflexivity|]). apply updateTimerFrequency_floor.
Qed.

Lemma timer_rate_floor_witness :
  let st := upd_motor (Motor.set_velocity_ips MIN_CORRECTION_VEL_IPS)
              (setup (mkSetupInput false false true 0 0)) in
  timer_alarm (updateTimerFrequency st) = 50000.
Proof.
  cbv zeta.
  pose proof (timer_rate_floor
                (upd_motor (Motor.set_velocity_ips MIN_CORRECTION_VEL_IPS)
                   (setup (mkSetupInput false false true 0 0))))
    as (_ & _ & _ & _ & _ & _ & _ & _ & A).
  assert (H : F64.ltb (F64.of_f32 (F32.mul (Motor.velocity_ips (motor
                 (upd_motor (Motor.set_velocity_ips MIN_CORRECTION_VEL_IPS)
                    (setup (mkSetupInput false false true 0 0))))) STEPS_PER_IN))
                (F64.of_Z 10) = true) by (vm_compute; reflexivity).
  exact (proj2 (A H)).
Defined.

(** *** A correction as small as the step tolerance *)

Lemma check_and_tick_small (st : state) :
  let error_in :=
    F32.sub (Motor.target_position_in (motor st)) (Encoder.position_in (encoder st)) in
  let steps := F32.to_i32 (F32.mul error_in STEPS_PER_IN) in
  Encoder.detected (encoder st) = true ->
  F32.leb (F32.abs error_in) POSITION_TOLERANCE_IN = false ->
  F32.ltb MAX_POSITION_ERROR_IN (F32.abs error_in) = false ->
  Z.abs steps <= TOLERANCE_STEPS ->
  let st1 := closedLoopCorrection st in
  let st2 := onTimer st1 in
  Motor.in_motion (motor st1) = true /\
  trace st1 = trace st ++ [Delay CORRECTION_SETTLE_MS;
                           Serial (CORRECTING error_in
                                     (Motor.target_position_in (motor st)))] /\
  Motor.in_motion (motor st2) = false /\
  Motor.motion_complete_flag (motor st2) = true /\
  Motor.current_steps (motor st2)
    = F32.to_i32 (F32.mul (Encoder.position_in (encoder st)) STEPS_PER_IN) /\
  step_pin st2 = LOW /\
  Motor.step_pin_state (motor st2) = Motor.step_pin_state (motor st) /\
  trace st2 = trace st1 /\
  encoder st2 = encoder st /\
  Motor.target_position_in (motor st2) = Motor.target_position_in (motor st).
Proof.
  intros e steps Hd H1 H2 Hs st1 st2.
  destruct (closedLoopCorrection_correcting st H1 H2)
    as (A & B & C & _ & _ & _ & _ & H & I & J & _).
  fold e steps st1 in A, B, C, H, I, J. rewrite Hd in B, C.
  assert (Hp : Motor.step_pin_state (motor st1) = Motor.step_pin_state (motor st)).
  { pose proof (closedLoopCorrection_view st) as V. unfold isr_view in V.
    fold st1 in V. now injection V. }
  assert (Ht : (abs32 (wrap32 (Motor.target_steps (motor st1)
                               - Motor.current_steps (motor st1)))
                <=? TOLERANCE_STEPS) = true).
  { rewrite C, B, wrap32_cancel. rewrite TOLERANCE_STEPS_value in Hs.
    apply Z.leb_le. unfold abs32.
    rewrite (wrap32_small steps) by (unfold in_i32, INT32_MIN, INT32_MAX; lia).
    rewrite wrap32_small by (unfold in_i32, INT32_MIN, INT32_MAX; lia).
    rewrite TOLERANCE_STEPS_value. exact Hs. }
  assert (E : st2 = digitalWrite M3_STEP_PIN LOW
                      (upd_motor (Motor.set_motion_complete_flag true)
                         (upd_motor (Motor.set_in_motion false) st1))).
  { subst st2. unfold onTimer. cbv zeta. rewrite H, Ht. reflexivity. }
  split; [exact H|]. split; [exact A|].
  rewrite E. cbn. rewrite B, Hp, I, J. repeat split.
Qed.

Lemma last_two (l : list event) (a b d : event) : last (l ++ [a; b]) d = b.
Proof. change [a; b] with ([a] ++ [b]). rewrite app_assoc. apply last_last. Qed.

(** X18.  A correction of no more steps than the step tolerance (8) moves
    nothing.  The check writes CORRECTING and enables motion; the first
    timer interrupt ends the move with no pulse, the step output low and
    the completion flag raised again.  The encoder and the target are as
    before, so the same holds for the next check: however often the check
    and the interrupt are repeated, every round writes CORRECTING again and
    the step counter stays where the synchronisation put it. *)
Theorem correction_within_step_tolerance (n : nat) (st : state) :
  let error_in :=
    F32.sub (Motor.target_position_in (motor st)) (Encoder.position_in (encoder st)) in
  let steps := F32.to_i32 (F32.mul error_in STEPS_PER_IN) in
  Encoder.detected (encoder st) = true ->
  F32.leb (F32.abs error_in) POSITION_TOLERANCE_IN = false ->
  F32.ltb MAX_POSITION_ERROR_IN (F32.abs error_in) = false ->
  Z.abs steps <= TOLERANCE_STEPS ->
  let st' := Nat.iter (S n) check_and_tick st in
  Motor.in_motion (motor st') = false /\
  Motor.motion_complete_flag (motor st') = true /\
  step_pin st' = LOW /\
  Motor.step_pin_state (motor st') = Motor.step_pin_state (motor st) /\
  Motor.current_steps (motor st')
    = F32.to_i32 (F32.mul (Encoder.position_in (encoder st)) STEPS_PER_IN) /\
  encoder st' = encoder st /\
  Motor.target_position_in (motor st') = Motor.target_position_in (motor st) /\
  List.length (trace st') = (List.length (trace st) + 2 * S n)%nat /\
  last (trace st') (Delay 0)
    = Serial (CORRECTING error_in (Motor.target_position_in (motor st))).
Proof.
  intros e steps Hd H1 H2 Hs.
  induction n as [|n IH]; intros st'.
  - subst st'. change (Nat.iter 1 check_and_tick st) with (check_and_tick st).
    unfold check_and_tick.
    destruct (check_and_tick_small st Hd H1 H2 Hs)
      as (_ & A & B & C & D & E & F & G & H & I).
    fold e in A. rewrite G, A.
    repeat (split; [assumption|]). split.
    + rewrite length_app. cbn [List.length]. lia.
    + apply last_two.
  - cbv zeta in IH. destruct IH as (_ & _ & _ & P & Q & R & S' & L & _).
    subst st'. change (Nat.iter (S (S n)) check_and_tick st)
      with (check_and_tick (Nat.iter (S n) check_and_tick st)).
    set (s := Nat.iter (S n) check_and_tick st) in *.
    assert (Hd' : Encoder.detected (encoder s) = true) by (rewrite R; exact Hd).
    assert (Ee : F32.sub (Motor.target_position_in (motor s))
                         (Encoder.position_in (encoder s)) = e)
      by (rewrite R, S'; reflexivity).
    assert (H1' : F32.leb (F32.abs (F32.sub (Motor.target_position_in (motor s))
                    (Encoder.position_in (encoder s)))) POSITION_TOLERANCE_IN = false)
      by (rewrite Ee; exact H1).
    assert (H2' : F32.ltb MAX_POSITION_ERROR_IN
                    (F32.abs (F32.sub (Motor.target_position_in (motor s))
                       (Encoder.position_in (encoder s)))) = false)
      by (rewrite Ee; exact H2).
    assert (Hs' : Z.abs (F32.to_i32 (F32.mul (F32.sub (Motor.target_position_in (motor s))
                    (Encoder.position_in (encoder s))) STEPS_PER_IN)) <= TOLERANCE_STEPS)
      by (rewrite Ee; exact Hs).
    change (check_and_tick s) with (onTimer (closedLoopCorrection s)).
    destruct (check_and_tick_small s Hd' H1' H2' Hs')
      as (_ & A & B & C & D & E & F & G & H & I).
    rewrite Ee, S' in A. rewrite G, A, F, P, D, R, H, I, S'.
    repeat (split; [solve [assumption | reflexivity]|]). split.
    + rewrite length_app, L. cbn [List.length]. lia.
    + apply last_two.
Qed.

Lemma correction_within_step_tolerance_witness :
  let st := upd_motor (Motor.set_target_position_in (F32.lit 8 3))
              (setup (mkSetupInput false false true 0 0)) in
  Motor.current_steps (motor (Nat.iter 3 check_and_tick st)) = 0 /\
  List.length (trace (Nat.iter 3 check_and_tick st)) = 8%nat.
Proof.
  cbv zeta.
  set (st := upd_motor (Motor.set_target_position_in (F32.lit 8 3))
               (setup (mkSetupInput false false true 0 0))).
  assert (Hd : Encoder.detected (encoder st) = true) by reflexivity.
  assert (H1 : F32.leb (F32.abs (F32.sub (Motor.target_position_in (motor st))
                  (Encoder.position_in (encoder st)))) POSITION_TOLERANCE_IN = false)
    by (vm_compute; reflexivity).
  assert (H2 : F32.ltb MAX_POSITION_ERROR_IN
                  (F32.abs (F32.sub (Motor.target_position_in (motor st))
                     (Encoder.position_in (encoder st)))) = false)
    by (vm_compute; reflexivity).
  assert (Hs : Z.abs (F32.to_i32 (F32.mul (F32.sub (Motor.target_position_in (motor st))
                  (Encoder.position_in (encoder st))) STEPS_PER_IN)) <= TOLERANCE_STEPS)
    by (vm_compute; discriminate).
  pose proof (correction_within_step_tolerance 2 st Hd H1 H2 Hs)
    as (_ & _ & _ & _ & A & _ & _ & B & _).
  split; [rewrite A; vm_compute; reflexivity | rewrite B; vm_compute; reflexivity].
Defined.

(** *** A target within the tolerance *)

(** X19.  A [g] command whose target is within the position tolerance of the
    actual position starts nothing: it stores the target position, with the
    encoder present sets the step counter from the encoder position, and
    writes AT_TARGET with the actual position.  The step target, the
    motion flag, the direction, the timer and the outputs are as before. *)
Theorem gotoPosition_within_tolerance (p : F32.t) (st : state) :
  F32.leb (F32.abs (F32.sub p (actual_position st))) POSITION_TOLERANCE_IN = true ->
  let st' := gotoPosition p st in
  trace st' = trace st ++ [Serial (AT_TARGET (actual_position st))] /\
  Motor.target_position_in (motor st') = p /\
  Motor.current_steps (motor st')
    = (if Encoder.detected (encoder st)
       then F32.to_i32 (F32.mul (Encoder.position_in (encoder st)) STEPS_PER_IN)
       else Motor.current_steps (motor st)) /\
  Motor.target_steps (motor st') = Motor.target_steps (motor st) /\
  Motor.in_motion (motor st') = Motor.in_motion (motor st) /\
  Motor.direction (motor st') = Motor.direction (motor st) /\
  Motor.velocity_ips (motor st') = Motor.velocity_ips (motor st) /\
  Motor.step_interval_us (motor st') = Motor.step_interval_us (motor st) /\
  timer_alarm st' = timer_alarm st /\ dir_pin st' = dir_pin st /\
  step_pin st' = step_pin st /\ encoder st' = encoder st.
Proof.
  intros H st'. subst st'. unfold gotoPosition. cbv zeta.
  unfold actual_position in *.
  cbn [encoder upd_motor motor Motor.current_steps Motor.set_target_position_in].
  unfold syncMotorStepsWithEncoder.
  cbn [encoder upd_motor motor Motor.current_steps Motor.set_target_position_in].
  destruct (Encoder.detected (encoder st)); cbn [negb]; rewrite H; repeat split.
Qed.

Lemma gotoPosition_within_tolerance_witness :
  let st := setup (mkSetupInput false false true 0 0) in
  Motor.in_motion (motor (gotoPosition (F32.lit 5 3) st)) = false /\
  trace (gotoPosition (F32.lit 5 3) st) = trace st ++ [Serial (AT_TARGET F32.zero)].
Proof.
  cbv zeta.
  assert (H : F32.leb (F32.abs (F32.sub (F32.lit 5 3)
                 (actual_position (setup (mkSetupInput false false true 0 0)))))
                POSITION_TOLERANCE_IN = true) by (vm_compute; reflexivity).
  pose proof (gotoPosition_within_tolerance (F32.lit 5 3) _ H)
    as (A & _ & _ & _ & B & _).
  split; [exact B | exact A].
Defined.

(** *** The velocity command *)

(** X20.  [setVelocity] refuses exactly the zeros, the negative numbers and minus
    infinity, with an error line and no other change.  Everything else is
    taken as the new base velocity, a NaN and plus infinity included.  The
    step counter, the target, the motion flag and the direction are never
    changed, and the timer is programmed again only while a move is
    running. *)
Theorem setVelocity_guard (v : F32.t) (st : state) :
  let st' := setVelocity v st in
  (zero_or_negative v = true ->
     same_axis st st' /\ trace st' = trace st ++ [Serial ERROR_velocity]) /\
  (zero_or_negative v = false ->
     Motor.base_velocity_ips (motor st') = v /\
     Motor.velocity_ips (motor st') = v /\
     trace st' = trace st ++ [Serial (VELOCITY v)] /\
     Motor.current_steps (motor st') = Motor.current_steps (motor st) /\
     Motor.target_steps (motor st') = Motor.target_steps (motor st) /\
     Motor.in_motion (motor st') = Motor.in_motion (motor st) /\
     Motor.direction (motor st') = Motor.direction (motor st) /\
     (Motor.in_motion (motor st) = false ->
        timer_alarm st' = timer_alarm st /\
        Motor.step_interval_us (motor st') = Motor.step_interval_us (motor st)) /\
     (Motor.in_motion (motor st) = true ->
        timer_alarm st' = Motor.step_interval_us (motor st') / 2)).
Proof.
  cbv zeta. unfold setVelocity. rewrite velocity_guard. cbv zeta.
  cbn [motor upd_motor Motor.in_motion Motor.set_base_velocity_ips
       Motor.set_velocity_ips].
  split; intros H; rewrite H.
  - split; [repeat split | reflexivity].
  - destruct (Motor.in_motion (motor st)) eqn:Em;
      repeat (split; [first [reflexivity | exact Em]|]);
      (split; [intros E|intros E]); try discriminate E; try split; reflexivity.
Qed.

Lemma setVelocity_guard_witness :
  let st := setup (mkSetupInput false false true 0 0) in
  Motor.base_velocity_ips (motor (setVelocity S754_nan st)) = S754_nan /\
  motor (setVelocity (F32.lit (-5) 1) st) = motor st.
Proof.
  cbv zeta.
  pose proof (setVelocity_guard S754_nan (setup (mkSetupInput false false true 0 0)))
    as (_ & A).
  pose proof (setVelocity_guard (F32.lit (-5) 1)
                (setup (mkSetupInput false false true 0 0)))
    as (B & _).
  split; [exact (proj1 (A eq_refl))|].
  assert (H : zero_or_negative (F32.lit (-5) 1) = true) by (vm_compute; reflexivity).
  exact (proj1 (proj2 (proj1 (B H)))).
Defined.

End BackstopMore.
